(** * AI tour planner: conversation store, persistence and export

    A shallow embedding of the two Streamlit scripts of the repository,
    [TOUR.py] and [tour1.py], and the properties of their conversation
    store, saved itineraries, statistics and JSON export.

    - [Py]: Python strings as sequences of code points, and the few string
      and list operations the scripts use.
    - [Json]: the encoder behind [json.dumps(obj, indent=2)] and the decoder
      behind [json.loads], for the values the scripts export (null,
      integers, strings, lists, dictionaries).
    - [Gateway]: the records of the conversation, the streamed answer of
      the remote model, the state-and-exception monad of one script run, and
      the generator [get_gemini_response] that both scripts define.
    - [TOUR], [TOUR1]: the session state and the handlers of one run of
      each script.  In [TOUR1] the lists of records live in a heap of list
      objects, so that [.copy()], [.append()] and rebinding are told apart.
    - [Page]: the drawing code that reads the session state (the display
      loops, the dashboard, the buttons of the saved itineraries), and the
      complete runs [tour_run] and [tour1_run], handlers and drawing in the
      order of the scripts.

    Calls that draw fixed text or the text of the current turn
    ([st.markdown], [st.error], [st.write_stream], ...) are left out: they
    read nothing of the state and change nothing the properties are
    about. *)

From Stdlib Require Import ZArith NArith List Lia String Ascii Bool.
From Stdlib Require Import Decimal DecimalZ DecimalPos DecimalFacts.
From stdpp Require Import base option list gmap.
#[local] Set Warnings "-register-all".
Import ListNotations.

(** * Python values *)

Module Py.

(** A Python [str] is a sequence of Unicode code points. *)
Abbreviation char := N.
Abbreviation str := (list N).

(** An ASCII string literal of the sources. *)
Definition lit (s : string) : str := map N_of_ascii (list_ascii_of_string s).
#[global] Arguments lit : simpl never.

(** [sep.join(l)] *)
Fixpoint join (sep : str) (l : list str) : str :=
  match l with
  | [] => []
  | [x] => x
  | x :: xs => x ++ sep ++ join sep xs
  end.

(** The decimal digits of an unsigned number, most significant first. *)
Fixpoint uint_chars (u : Decimal.uint) : str :=
  match u with
  | Nil => []
  | D0 u => 48%N :: uint_chars u
  | D1 u => 49%N :: uint_chars u
  | D2 u => 50%N :: uint_chars u
  | D3 u => 51%N :: uint_chars u
  | D4 u => 52%N :: uint_chars u
  | D5 u => 53%N :: uint_chars u
  | D6 u => 54%N :: uint_chars u
  | D7 u => 55%N :: uint_chars u
  | D8 u => 56%N :: uint_chars u
  | D9 u => 57%N :: uint_chars u
  end.

(** [str(z)] for an [int], as f-strings and [json.dumps] print it: the
    digits that are printed when [str(z)] returns.  Since CPython 3.11 it
    raises ValueError instead for an [int] of more than 4300 digits, see
    [int_str_ok]. *)
Definition int_repr (z : Z) : str :=
  match Z.to_int z with
  | Decimal.Pos u => uint_chars u
  | Decimal.Neg u => 45%N :: uint_chars u
  end.

(** The integers that [str(z)] prints under the default limit of
    [sys.set_int_max_str_digits]: those of at most 4300 digits. *)
Definition int_str_ok (z : Z) : bool := (Z.abs z <? 10 ^ 4300)%Z.
Arguments int_str_ok : simpl never.

(** [c in s] for a one-character [c]. *)
Definition contains (c : char) (s : str) : bool := existsb (N.eqb c) s.

(** [s.split(c, 1)[1]]: what follows the first [c]. *)
Fixpoint after_first (c : char) (s : str) : str :=
  match s with
  | [] => []
  | x :: r => if N.eqb x c then r else after_first c r
  end.

(** [l[i]]: a negative index counts from the end; [None] stands for
    IndexError. *)
Definition py_index {A} (l : list A) (i : Z) : option A :=
  let n := Z.of_nat (length l) in
  if (0 <=? i)%Z then l !! Z.to_nat i
  else if (- n <=? i)%Z then l !! Z.to_nat (n + i)
  else None.

End Py.

(** * The [json] package of the Python standard library

    [export_chat_history] ends in [json.dumps(export_data, indent=2)].  This
    module follows the package's pure Python implementation for the values
    the scripts export: [py_encode_basestring_ascii] and [_make_iterencode]
    of [json/encoder.py], and [py_scanstring], [JSONObject], [JSONArray]
    and [py_make_scanner] of [json/decoder.py] and [json/scanner.py].
    Floats and booleans do not occur in the exported documents; the decoder
    rejects them. *)

Module Json.
Import Py.
Local Open Scope N_scope.

(** The values: [None], [int], [str], [list], and [dict] with string keys
    in insertion order. *)
Inductive json :=
| JNull
| JInt (z : Z)
| JStr (s : str)
| JList (l : list json)
| JDict (d : list (str * json)).

(** ** Encoder *)

(** A digit of ['{0:04x}'.format(n)]. *)
Definition hex_digit (n : N) : char := if n <? 10 then 48 + n else 87 + n.

Definition hex4 (n : N) : str :=
  [hex_digit (n / 4096 mod 16); hex_digit (n / 256 mod 16);
   hex_digit (n / 16 mod 16); hex_digit (n mod 16)].

(** [\uXXXX] *)
Definition u_escape (n : N) : str := 92 :: 117 :: hex4 n.

(** The replacement of one character by [py_encode_basestring_ascii]:
    the short escapes of [ESCAPE_DCT], the printable ASCII characters as
    they are, [\uXXXX] for the rest of the basic plane and a surrogate pair
    above it. *)
Definition escape_char (c : char) : str :=
  if c =? 34 (* double quote *) then [92; 34]
  else if c =? 92 (* backslash *) then [92; 92]
  else if c =? 10 (* \n *) then [92; 110]
  else if c =? 13 (* \r *) then [92; 114]
  else if c =? 9 (* \t *) then [92; 116]
  else if c =? 8 (* \b *) then [92; 98]
  else if c =? 12 (* \f *) then [92; 102]
  else if (32 <=? c) && (c <=? 126) then [c]
  else if c <? 0x10000 then u_escape c
  else
    let n := c - 0x10000 in
    let s1 := N.lor 0xd800 (N.land (N.shiftr n 10) 0x3ff) in
    let s2 := N.lor 0xdc00 (N.land n 0x3ff) in
    u_escape s1 ++ u_escape s2.

Definition encode_basestring_ascii (s : str) : str :=
  34 :: flat_map escape_char s ++ [34].

(** ['\n' + ' ' * (2 * level)] *)
Definition newline_indent (level : nat) : str := 10 :: repeat 32 (2 * level)%nat.

(** [_iterencode] at indentation [level], with the item separator [','] and
    the key separator [': '] that [indent=2] selects. *)
Fixpoint iterencode (level : nat) (o : json) : str :=
  match o with
  | JNull => lit "null"
  | JInt z => int_repr z
  | JStr s => encode_basestring_ascii s
  | JList [] => lit "[]"
  | JList l =>
      91 :: newline_indent (S level)
      ++ join (44 :: newline_indent (S level)) (map (iterencode (S level)) l)
      ++ newline_indent level ++ [93]
  | JDict [] => lit "{}"
  | JDict d =>
      123 :: newline_indent (S level)
      ++ join (44 :: newline_indent (S level))
           (map (fun kv => encode_basestring_ascii (fst kv) ++ lit ": " ++ iterencode (S level) (snd kv)) d)
      ++ newline_indent level ++ [125]
  end.

(** [json.dumps(o, indent=2)] *)
Definition dumps (o : json) : str := iterencode 0 o.

(** ** Decoder *)

(** The characters of [WHITESPACE]: space, tab, line feed, carriage return. *)
Definition is_ws (c : char) : bool := (c =? 32) || (c =? 9) || (c =? 10) || (c =? 13).

Fixpoint skip_ws (s : str) : str :=
  match s with
  | c :: r => if is_ws c then skip_ws r else s
  | [] => []
  end.

(** The value of a hexadecimal digit, of either case. *)
Definition hex_value (c : char) : option N :=
  if (48 <=? c) && (c <=? 57) then Some (c - 48)
  else if (97 <=? c) && (c <=? 102) then Some (c - 87)
  else if (65 <=? c) && (c <=? 70) then Some (c - 55)
  else None.

Definition decode_uXXXX (a b c d : char) : option N :=
  match hex_value a, hex_value b, hex_value c, hex_value d with
  | Some x3, Some x2, Some x1, Some x0 => Some (((x3 * 16 + x2) * 16 + x1) * 16 + x0)
  | _, _, _, _ => None
  end.

(** The table [BACKSLASH] of the one-letter escapes. *)
Definition backslash (esc : char) : option char :=
  if esc =? 34 then Some 34
  else if esc =? 92 then Some 92
  else if esc =? 47 then Some 47
  else if esc =? 98 then Some 8
  else if esc =? 102 then Some 12
  else if esc =? 110 then Some 10
  else if esc =? 114 then Some 13
  else if esc =? 116 then Some 9
  else None.

Definition cons_fst (c : char) (r : option (str * str)) : option (str * str) :=
  match r with
  | Some (t, rest) => Some (c :: t, rest)
  | None => None
  end.

(** [py_scanstring] in strict mode, from the character after the opening
    quote: the decoded string and the text after the closing quote.  A
    [\uXXXX] that is a high surrogate and is followed by a [\uXXXX] that is
    a low surrogate is decoded with it into one code point. *)
Fixpoint scanstring (s : str) : option (str * str) :=
  match s with
  | [] => None
  | c :: r =>
      if c =? 34 then Some ([], r)
      else if c =? 92 then
        match r with
        | [] => None
        | esc :: r1 =>
            if esc =? 117 then
              match r1 with
              | a :: b :: c' :: d :: r2 =>
                  match decode_uXXXX a b c' d with
                  | None => None
                  | Some uni =>
                      if (0xd800 <=? uni) && (uni <=? 0xdbff) then
                        match r2 with
                        | bs :: u :: e :: f :: g :: h :: r3 =>
                            if (bs =? 92) && (u =? 117) then
                              match decode_uXXXX e f g h with
                              | None => None
                              | Some uni2 =>
                                  if (0xdc00 <=? uni2) && (uni2 <=? 0xdfff) then
                                    cons_fst (0x10000 + N.lor (N.shiftl (uni - 0xd800) 10) (uni2 - 0xdc00))
                                             (scanstring r3)
                                  else cons_fst uni (scanstring r2)
                              end
                            else cons_fst uni (scanstring r2)
                        | _ => cons_fst uni (scanstring r2)
                        end
                      else cons_fst uni (scanstring r2)
                  end
              | _ => None
              end
            else
              match backslash esc with
              | Some ch => cons_fst ch (scanstring r1)
              | None => None
              end
        end
      else if c <? 32 then None
      else cons_fst c (scanstring r)
  end.

(** Numbers: the integer part of [NUMBER_RE] is an optional minus sign
    followed by a lone [0] or by digits that do not start with [0]; a
    fraction or an exponent after it makes a float, which is rejected. *)
Definition is_digit (c : char) : bool := (48 <=? c) && (c <=? 57).

Definition digit_cons (c : char) (u : Decimal.uint) : Decimal.uint :=
  if c =? 48 then D0 u else if c =? 49 then D1 u else if c =? 50 then D2 u
  else if c =? 51 then D3 u else if c =? 52 then D4 u else if c =? 53 then D5 u
  else if c =? 54 then D6 u else if c =? 55 then D7 u else if c =? 56 then D8 u
  else D9 u.

Fixpoint scan_digits (s : str) : Decimal.uint * str :=
  match s with
  | c :: r => if is_digit c then let '(u, rest) := scan_digits r in (digit_cons c u, rest)
              else (Nil, s)
  | [] => (Nil, [])
  end.

Definition starts_fraction (s : str) : bool :=
  match s with
  | c :: _ => (c =? 46) || (c =? 101) || (c =? 69)
  | [] => false
  end.

Definition scan_uint (s : str) : option (Decimal.uint * str) :=
  match s with
  | c :: r =>
      if c =? 48 then Some (D0 Nil, r)
      else if is_digit c then Some (scan_digits s)
      else None
  | [] => None
  end.

Definition scan_number (s : str) : option (json * str) :=
  match s with
  | c :: r =>
      let signed := c =? 45 in
      match scan_uint (if signed then r else s) with
      | Some (u, rest) =>
          if starts_fraction rest then None
          else Some (JInt (Z.of_int (if signed then Decimal.Neg u else Decimal.Pos u)), rest)
      | None => None
      end
  | [] => None
  end.

(** [dict(pairs)]: a later pair with a key that is already there replaces
    its value and keeps its position. *)
Fixpoint dict_set (k : str) (v : json) (d : list (str * json)) : list (str * json) :=
  match d with
  | [] => [(k, v)]
  | (k', v') :: d' => if decide (k' = k) then (k', v) :: d' else (k', v') :: dict_set k v d'
  end.

Definition dict_of_pairs (pairs : list (str * json)) : list (str * json) :=
  fold_left (fun d kv => dict_set (fst kv) (snd kv) d) pairs [].

Fixpoint strip_prefix (p s : str) : option str :=
  match p, s with
  | [], _ => Some s
  | a :: p', b :: s' => if a =? b then strip_prefix p' s' else None
  | _ :: _, [] => None
  end.

(** [scan_once], [JSONObject] (after the first key's opening quote was
    found) and [JSONArray] (after the check for an empty array).  [fuel]
    bounds the number of nested calls; [loads] gives one more than the
    length of the text. *)
Fixpoint scan_once (fuel : nat) (s : str) : option (json * str) :=
  match fuel with
  | O => None
  | S fuel =>
      match s with
      | [] => None
      | c :: r =>
          if c =? 34 then
            match scanstring r with
            | Some (t, rest) => Some (JStr t, rest)
            | None => None
            end
          else if c =? 123 then
            match skip_ws r with
            | c1 :: r1 =>
                if c1 =? 125 then Some (JDict [], r1)
                else match scan_members fuel (c1 :: r1) with
                     | Some (pairs, rest) => Some (JDict (dict_of_pairs pairs), rest)
                     | None => None
                     end
            | [] => None
            end
          else if c =? 91 then
            match skip_ws r with
            | c1 :: r1 =>
                if c1 =? 93 then Some (JList [], r1)
                else match scan_elements fuel (c1 :: r1) with
                     | Some (values, rest) => Some (JList values, rest)
                     | None => None
                     end
            | [] => None
            end
          else if c =? 110 then
            match strip_prefix (lit "ull") r with
            | Some rest => Some (JNull, rest)
            | None => None
            end
          else scan_number s
      end
  end
with scan_members (fuel : nat) (s : str) : option (list (str * json) * str) :=
  match fuel with
  | O => None
  | S fuel =>
      match s with
      | c :: r =>
          if c =? 34 then
            match scanstring r with
            | Some (key, r1) =>
                match skip_ws r1 with
                | c2 :: r2 =>
                    if c2 =? 58 then
                      match scan_once fuel (skip_ws r2) with
                      | Some (value, r3) =>
                          match skip_ws r3 with
                          | c4 :: r4 =>
                              if c4 =? 125 then Some ([(key, value)], r4)
                              else if c4 =? 44 then
                                match scan_members fuel (skip_ws r4) with
                                | Some (pairs, rest) => Some ((key, value) :: pairs, rest)
                                | None => None
                                end
                              else None
                          | [] => None
                          end
                      | None => None
                      end
                    else None
                | [] => None
                end
            | None => None
            end
          else None
      | [] => None
      end
  end
with scan_elements (fuel : nat) (s : str) : option (list json * str) :=
  match fuel with
  | O => None
  | S fuel =>
      match scan_once fuel s with
      | Some (value, r1) =>
          match skip_ws r1 with
          | c2 :: r2 =>
              if c2 =? 93 then Some ([value], r2)
              else if c2 =? 44 then
                match scan_elements fuel (skip_ws r2) with
                | Some (values, rest) => Some (value :: values, rest)
                | None => None
                end
              else None
          | [] => None
          end
      | None => None
      end
  end.

(** [json.loads(s)] *)
Definition loads (s : str) : option json :=
  match scan_once (S (length s)) (skip_ws s) with
  | Some (obj, rest) => match skip_ws rest with [] => Some obj | _ :: _ => None end
  | None => None
  end.

(** ** Notions used to state the round trip *)

(** Unicode scalar values: code points that are not surrogates. *)
Definition valid_char (c : char) : bool :=
  (c <? 0xd800) || ((0xe000 <=? c) && (c <? 0x110000)).

Definition valid_str (s : str) : bool := forallb valid_char s.

(** Values whose strings are Unicode text and whose dictionaries have
    distinct keys. *)
Fixpoint wf_json (o : json) : bool :=
  match o with
  | JNull | JInt _ => true
  | JStr s => valid_str s
  | JList l => forallb wf_json l
  | JDict d =>
      forallb (fun kv => valid_str (fst kv) && wf_json (snd kv)) d
      && bool_decide (NoDup (map fst d))
  end.

(** What may follow a printed integer for the scanner to stop there. *)
Definition int_follow (rest : str) : bool :=
  match rest with
  | [] => true
  | c :: _ => negb (is_digit c) && negb (starts_fraction rest)
  end.

(** Induction on values, with the hypothesis for every element of a list
    and every value of a dictionary. *)
Section json_induction.
Variable P : json -> Prop.
Hypothesis Hnull : P JNull.
Hypothesis Hint : forall z, P (JInt z).
Hypothesis Hstr : forall s, P (JStr s).
Hypothesis Hlist : forall l, Forall P l -> P (JList l).
Hypothesis Hdict : forall d, Forall (fun kv => P (snd kv)) d -> P (JDict d).

Fixpoint json_nested_ind (o : json) : P o :=
  match o with
  | JNull => Hnull
  | JInt z => Hint z
  | JStr s => Hstr s
  | JList l =>
      Hlist l ((fix go (l : list json) : Forall P l :=
                  match l with
                  | [] => List.Forall_nil P
                  | x :: xs => List.Forall_cons P x xs (json_nested_ind x) (go xs)
                  end) l)
  | JDict d =>
      Hdict d ((fix go (d : list (str * json)) : Forall (fun kv => P (snd kv)) d :=
                  match d with
                  | [] => List.Forall_nil _
                  | kv :: xs => List.Forall_cons _ kv xs (json_nested_ind (snd kv)) (go xs)
                  end) d)
  end.
End json_induction.

(** The fuel that scanning a printed value needs. *)
Fixpoint sz (o : json) : nat :=
  match o with
  | JList l => S (list_sum (map (fun x => S (sz x)) l))
  | JDict d => S (list_sum (map (fun kv => S (sz (snd kv))) d))
  | _ => 1
  end.

(** What follows a value inside a printed document: nothing, a comma or a
    line feed. *)
Definition delim (rest : str) : bool :=
  match rest with
  | [] => true
  | c :: _ => (c =? 44) || (c =? 10)
  end.

(** The characters a printed value can start with. *)
Definition start_char (c : char) : bool :=
  (c =? 34) || (c =? 123) || (c =? 91) || (c =? 110) || (c =? 45) || is_digit c.

(** Scanning a printed value gives the value back and stops after it. *)
Definition roundtrips (o : json) : Prop :=
  wf_json o = true ->
  forall level rest fuel,
    delim rest = true -> (sz o <= fuel)%nat ->
    scan_once fuel (iterencode level o ++ rest) = Some (o, rest).

(** A printed dictionary item: key, [': '], value. *)
Definition member (lv : nat) (kv : str * json) : str :=
  encode_basestring_ascii (fst kv) ++ lit ": " ++ iterencode lv (snd kv).

End Json.

(** * The conversation records and the remote model *)

Module Gateway.
Import Py.

(** A record of the conversation: [{"role": ..., "parts": [...]}]. *)
Record message := { role : str; parts : list str }.

Definition user_message (text : str) : message :=
  {| role := lit "user"; parts := [text] |}.
Definition model_message (text : str) : message :=
  {| role := lit "model"; parts := [text] |}.

(** One element of the streamed response; [text] is absent when
    [hasattr(chunk, 'text')] is false. *)
Record chunk := { text : option str }.

(** How the remote call ends: the stream is exhausted, or an exception
    whose message is [e] is raised (by [start_chat], by [send_message],
    while the response is iterated, or by the [text] accessor of a
    chunk). *)
Inductive ending := Completed | Raised (e : str).

Definition stream : Type := list chunk * ending.

(** [model.start_chat(history=h).send_message(q, stream=True)]. *)
Definition GenerativeModel : Type := list message -> str -> stream.

(** Exceptions that leave a handler, and the outcome of a computation. *)
Inductive exn := IndexError | KeyError (key : str) | RerunException.

Inductive outcome (A : Type) := Ok (a : A) | Raise (e : exn).
Arguments Ok {A} a.
Arguments Raise {A} e.

Definition M (St A : Type) : Type := St -> outcome A * St.

Definition ret {St A} (a : A) : M St A := fun st => (Ok a, st).

Definition bind {St A B} (c : M St A) (k : A -> M St B) : M St B :=
  fun st =>
    match c st with
    | (Ok a, st') => k a st'
    | (Raise e, st') => (Raise e, st')
    end.

Definition raise {St A} (e : exn) : M St A := fun st => (Raise e, st).
Definition gets {St A} (f : St -> A) : M St A := fun st => (Ok (f st), st).
Definition modify {St} (f : St -> St) : M St unit := fun st => (Ok tt, f st).
Definition when {St} (b : bool) (c : M St unit) : M St unit := if b then c else ret tt.

(** [st.rerun()] stops the script run by raising. *)
Definition rerun {St A} : M St A := raise RerunException.

Definition exec {St A} (c : M St A) (st : St) : St := snd (c st).
Definition result {St A} (c : M St A) (st : St) : outcome A := fst (c st).

Notation "'let*' x ':=' c1 'in' c2" := (bind c1 (fun x => c2))
  (at level 10, x name, c1 at level 100, c2 at level 200).

(** A computation relates every state to the state it leaves. *)
Definition preserves {St} (R : relation St) {A} (c : M St A) : Prop :=
  forall st, R st (exec c st).

(** The [for chunk in response] loop: the fragments yielded, in order, and
    the value of [full_response_text] when the chunks are exhausted. *)
Fixpoint drain (chunks : list chunk) (full_response_text : str) : list str * str :=
  match chunks with
  | [] => ([], full_response_text)
  | chunk :: chunks' =>
      match text chunk with
      | Some chunk_text =>
          let '(yielded, full) := drain chunks' (full_response_text ++ chunk_text) in
          (chunk_text :: yielded, full)
      | None => drain chunks' full_response_text
      end
  end.

(** The text fragments carried by a list of chunks, in order. *)
Fixpoint fragments (chunks : list chunk) : list str :=
  match chunks with
  | [] => []
  | chunk :: chunks' =>
      match text chunk with
      | Some chunk_text => chunk_text :: fragments chunks'
      | None => fragments chunks'
      end
  end.

Section ResponseGenerator.
Context {St : Type}.
(** [st.session_state.chat_history.append(...)] *)
Variable chat_history_append : message -> M St unit.
(** The text yielded when [model] is [None]. *)
Variable not_initialized : str.

(** [get_gemini_response(question, chat_history)], drained to its end as
    [st.write_stream] does: the computation returns the fragments the
    generator yields, in order. *)
Definition get_gemini_response (model : option GenerativeModel)
    (question : str) (chat_history : list message) : M St (list str) :=
  match model with
  | None => ret [not_initialized]
  | Some m =>
      let '(chunks, ending) := m chat_history question in
      let '(yielded, full_response_text) := drain chunks [] in
      match ending with
      | Completed =>
          let* _ := chat_history_append (user_message question) in
          let* _ := chat_history_append (model_message full_response_text) in
          ret yielded
      | Raised e =>
          ret (yielded ++ [lit "Sorry, I encountered an error: " ++ e])
      end
  end.
End ResponseGenerator.

End Gateway.

(** * TOUR.py *)

Module TOUR.
Import Py Gateway.

Record session_state := { chat_history : list message }.

Definition chat_history_append (m : message) : M session_state unit :=
  modify (fun st => {| chat_history := chat_history st ++ [m] |}).

Definition set_chat_history (l : list message) : M session_state unit :=
  modify (fun _ => {| chat_history := l |}).

Definition get_gemini_response :=
  Gateway.get_gemini_response chat_history_append
    (lit "Error: Gemini model is not initialized. Please check your API key.").

(** The sidebar widgets. *)
Record widgets := {
  destination : str;
  duration : Z;
  interests : str;
  style : str
}.

(** What triggered the script run. *)
Inductive trigger :=
| ClearConversation
| GenerateItinerary
| ChatInput (user_query : str)
| NoTrigger.

Definition model_prompt (w : widgets) : str :=
  lit "Plan a " ++ int_repr (duration w) ++ lit "-day trip to " ++ destination w
  ++ lit " for a traveler with interests in " ++ interests w ++ lit " and a "
  ++ style w
  ++ lit " travel style. Create a detailed, day-by-day itinerary. Make it engaging and easy to read. Use Markdown for formatting (like bolding and bullet points).".

Definition is_empty {A} (l : list A) : bool :=
  match l with [] => true | _ :: _ => false end.

Definition is_none {A} (o : option A) : bool :=
  match o with None => true | Some _ => false end.

(** The handlers of one run of the script, top to bottom: what a run does
    to the session state.  The display loop, which runs between the first
    handler and the second and only reads the state, is
    [Page.tour_transcript]; [Page.tour_run] is the run with it. *)
Definition script (model : option GenerativeModel) (w : widgets) (t : trigger)
  : M session_state unit :=
  let* _ :=
    match t with
    | ClearConversation => let* _ := set_chat_history [] in rerun
    | _ => ret tt
    end in
  let* _ :=
    match t with
    | GenerateItinerary =>
        if is_empty (destination w) || is_empty (interests w) then ret tt
        else if is_none model then ret tt
        else
          let* _ := set_chat_history [] in
          let* _ := get_gemini_response model (model_prompt w) [] in
          rerun
    | _ => ret tt
    end in
  match t with
  | ChatInput user_query =>
      if is_empty user_query then ret tt
      else
        let* history := gets chat_history in
        if is_empty history then ret tt
        else if is_none model then ret tt
        else
          let* _ := get_gemini_response model user_query history in
          rerun
  | _ => ret tt
  end.

End TOUR.

(** * tour1.py *)

Module TOUR1.
Import Py Json Gateway.

(** Python list objects of conversation records live in a heap and are
    named by their location: [.append] mutates the object in place,
    [.copy()] and the literal [[]] allocate a new one. *)
Abbreviation loc := nat.

(** Values stored in the trip dictionaries. *)
Inductive pyval := PStr (s : str) | PInt (n : Z).

(** A dictionary with string keys, in insertion order. *)
Abbreviation dict := (list (str * pyval)).

Fixpoint dict_get (k : str) (d : dict) : option pyval :=
  match d with
  | [] => None
  | (k', v) :: d' => if decide (k' = k) then Some v else dict_get k d'
  end.

(** An element of [saved_itineraries]. *)
Record itinerary := {
  it_destination : pyval;
  it_duration : pyval;
  it_interests : pyval;
  it_style : pyval;
  it_timestamp : str;
  it_chat_history : loc
}.

Record stats := {
  total_trips : Z;
  total_days : Z;
  destinations : list str
}.

(** [st.session_state], with the heap of list objects it points into. *)
Record state := {
  heap : gmap loc (list message);
  next_loc : loc;
  chat_history : loc;
  saved_itineraries : list itinerary;
  current_trip : option dict;
  trip_stats : stats;
  quick_action : option str
}.

Definition deref (h : gmap loc (list message)) (l : loc) : list message :=
  default [] (h !! l).

(** The records of the active conversation. *)
Definition store (st : state) : list message := deref (heap st) (chat_history st).

(** Session state initialisation of the first run. *)
Definition init_state : state :=
  {| heap := {[ 0%nat := [] ]}; next_loc := 1; chat_history := 0;
     saved_itineraries := []; current_trip := None;
     trip_stats := {| total_trips := 0; total_days := 0; destinations := [] |};
     quick_action := None |}.

Definition set_heap (h : gmap loc (list message)) (n : loc) (st : state) : state :=
  {| heap := h; next_loc := n; chat_history := chat_history st;
     saved_itineraries := saved_itineraries st; current_trip := current_trip st;
     trip_stats := trip_stats st; quick_action := quick_action st |}.

Definition set_chat_history (l : loc) : M state unit :=
  modify (fun st =>
    {| heap := heap st; next_loc := next_loc st; chat_history := l;
       saved_itineraries := saved_itineraries st; current_trip := current_trip st;
       trip_stats := trip_stats st; quick_action := quick_action st |}).

Definition set_saved_itineraries (s : list itinerary) : M state unit :=
  modify (fun st =>
    {| heap := heap st; next_loc := next_loc st; chat_history := chat_history st;
       saved_itineraries := s; current_trip := current_trip st;
       trip_stats := trip_stats st; quick_action := quick_action st |}).

Definition set_current_trip (t : option dict) : M state unit :=
  modify (fun st =>
    {| heap := heap st; next_loc := next_loc st; chat_history := chat_history st;
       saved_itineraries := saved_itineraries st; current_trip := t;
       trip_stats := trip_stats st; quick_action := quick_action st |}).

Definition set_trip_stats (s : stats) : M state unit :=
  modify (fun st =>
    {| heap := heap st; next_loc := next_loc st; chat_history := chat_history st;
       saved_itineraries := saved_itineraries st; current_trip := current_trip st;
       trip_stats := s; quick_action := quick_action st |}).

Definition set_quick_action (q : option str) : M state unit :=
  modify (fun st =>
    {| heap := heap st; next_loc := next_loc st; chat_history := chat_history st;
       saved_itineraries := saved_itineraries st; current_trip := current_trip st;
       trip_stats := trip_stats st; quick_action := q |}).

(** A new list object holding [v]. *)
Definition new_list (v : list message) : M state loc :=
  fun st => (Ok (next_loc st), set_heap (<[next_loc st := v]> (heap st)) (S (next_loc st)) st).

(** [l.copy()] *)
Definition list_copy (l : loc) : M state loc :=
  let* v := gets (fun st => deref (heap st) l) in new_list v.

(** [st.session_state.chat_history.append(m)] *)
Definition chat_history_append (m : message) : M state unit :=
  modify (fun st =>
    set_heap (<[chat_history st := store st ++ [m]]> (heap st)) (next_loc st) st).

Definition get_gemini_response :=
  Gateway.get_gemini_response chat_history_append
    (0x274c%N :: lit " Error: Gemini model is not initialized. Please check your API key.").

(** [save_itinerary(destination, duration, interests, style)]; [now] is
    [datetime.now().strftime("%Y-%m-%d %H:%M:%S")]. *)
Definition save_itinerary (destination duration interests style : pyval) (now : str)
  : M state unit :=
  let* live := gets chat_history in
  let* copy := list_copy live in
  let itinerary :=
    {| it_destination := destination; it_duration := duration;
       it_interests := interests; it_style := style;
       it_timestamp := now; it_chat_history := copy |} in
  let* saved := gets saved_itineraries in
  set_saved_itineraries (saved ++ [itinerary]).

Definition pyval_json (v : pyval) : json :=
  match v with
  | PStr s => JStr s
  | PInt n => JInt n
  end.

Definition trip_json (t : option dict) : json :=
  match t with
  | None => JNull
  | Some d => JDict (map (fun kv => (fst kv, pyval_json (snd kv))) d)
  end.

Definition message_json (m : message) : json :=
  JDict [(lit "role", JStr (role m)); (lit "parts", JList (map JStr (parts m)))].

Definition export_data (trip : option dict) (history : list message) (now : str) : json :=
  JDict [(lit "trip_details", trip_json trip);
         (lit "chat_history", JList (map message_json history));
         (lit "exported_at", JStr now)].

(** [export_chat_history()] *)
Definition export_chat_history (now : str) : M state str :=
  let* trip := gets current_trip in
  let* history := gets store in
  ret (dumps (export_data trip history now)).

(** [load_saved_itinerary(index)] *)
Definition load_saved_itinerary (index : Z) : M state unit :=
  let* saved := gets saved_itineraries in
  match py_index saved index with
  | None => raise IndexError
  | Some itinerary =>
      let* copy := list_copy (it_chat_history itinerary) in
      let* _ := set_chat_history copy in
      set_current_trip
        (Some [(lit "destination", it_destination itinerary);
               (lit "duration", it_duration itinerary);
               (lit "interests", it_interests itinerary);
               (lit "style", it_style itinerary)])
  end.

(** The sidebar widgets. *)
Record widgets := {
  destination : str;
  duration : Z;
  budget : str;
  travelers : Z;
  interests : list str;
  additional_prefs : str;
  style : str;
  accommodation : str
}.

(** What triggered the script run; the saved-itinerary buttons carry
    their position and the quick-action buttons their row. *)
Inductive trigger :=
| ClickClear
| ClickSave
| ClickLoad (idx : nat)
| ClickQuick (row : nat)
| ClickGenerate
| ChatInput (user_query : str)
| NoTrigger.

Definition quick_actions : list str :=
  [lit "Suggest budget-friendly activities";
   lit "Recommend local restaurants";
   lit "Find accommodation options";
   lit "Plan transportation";
   lit "Best photo spots";
   lit "Create packing list";
   lit "Weather considerations"].

(** [interest.split(" ", 1)[1] if " " in interest else interest] *)
Definition clean_interest (interest : str) : str :=
  if contains 32%N interest then after_first 32%N interest else interest.

Definition clean_interests (w : widgets) : str :=
  join (lit ", ") (map clean_interest (interests w)).

Definition trip_details (w : widgets) : dict :=
  [(lit "destination", PStr (destination w));
   (lit "duration", PInt (duration w));
   (lit "interests", PStr (clean_interests w));
   (lit "style", PStr (style w));
   (lit "budget", PStr (budget w));
   (lit "travelers", PInt (travelers w));
   (lit "accommodation", PStr (accommodation w))].

Definition update_stats (w : widgets) (s : stats) : stats :=
  {| total_trips := total_trips s + 1;
     total_days := total_days s + duration w;
     destinations :=
       if bool_decide (destination w ∈ destinations s) then destinations s
       else destinations s ++ [destination w] |}.

Definition nl : str := [10%N].

Definition model_prompt (w : widgets) : str :=
  lit "Plan a comprehensive " ++ int_repr (duration w) ++ lit "-day trip to "
  ++ destination w ++ lit " for " ++ int_repr (travelers w)
  ++ lit " traveler(s) with a " ++ budget w ++ lit " budget." ++ nl
  ++ nl
  ++ lit "Travel Interests: " ++ clean_interests w ++ nl
  ++ lit "Travel Style: " ++ style w ++ nl
  ++ lit "Accommodation Preference: " ++ accommodation w ++ nl
  ++ lit "Additional Preferences: "
  ++ (match additional_prefs w with [] => lit "None" | p => p end) ++ nl
  ++ nl
  ++ lit "Create a detailed day-by-day itinerary that includes:" ++ nl
  ++ lit "1. Daily activities with specific timings" ++ nl
  ++ lit "2. Recommended restaurants for each meal" ++ nl
  ++ lit "3. Transportation options between locations" ++ nl
  ++ lit "4. Estimated costs for activities and meals" ++ nl
  ++ lit "5. Cultural tips and local insights" ++ nl
  ++ lit "6. Hidden gems and local favorites" ++ nl
  ++ lit "7. Best times to visit attractions" ++ nl
  ++ lit "8. Photography opportunities" ++ nl
  ++ lit "9. Weather considerations" ++ nl
  ++ lit "10. Packing suggestions" ++ nl
  ++ nl
  ++ lit "Make it engaging, practical, and easy to follow. Use emojis and clear formatting.".

Definition is_empty {A} (l : list A) : bool :=
  match l with [] => true | _ :: _ => false end.

Definition is_none {A} (o : option A) : bool :=
  match o with None => true | Some _ => false end.

(** [d[k]] *)
Definition subscript (d : dict) (k : str) : M state pyval :=
  match dict_get k d with
  | Some v => ret v
  | None => raise (KeyError k)
  end.

(** The sidebar button "Clear Chat". *)
Definition clear_block (t : trigger) : M state unit :=
  match t with
  | ClickClear =>
      let* fresh := new_list [] in
      let* _ := set_chat_history fresh in
      rerun
  | _ => ret tt
  end.

(** The sidebar button "Save Trip". *)
Definition save_block (now : str) (t : trigger) : M state unit :=
  match t with
  | ClickSave =>
      let* trip := gets current_trip in
      match trip with
      | Some (kv :: d) =>
          let* destination := subscript (kv :: d) (lit "destination") in
          let* duration := subscript (kv :: d) (lit "duration") in
          let* interests := subscript (kv :: d) (lit "interests") in
          let* style := subscript (kv :: d) (lit "style") in
          save_itinerary destination duration interests style now
      | _ => ret tt
      end
  | _ => ret tt
  end.

(** The data of the "Export Chat" download button. *)
Definition export_block (now : str) : M state unit :=
  let* history := gets store in
  if is_empty history then ret tt
  else let* export_data := export_chat_history now in ret tt.

(** The buttons of the saved itineraries. *)
Definition load_block (t : trigger) : M state unit :=
  match t with
  | ClickLoad idx =>
      let* saved := gets saved_itineraries in
      if (idx <? length saved)%nat then
        let* _ := load_saved_itinerary (Z.of_nat idx) in rerun
      else ret tt
  | _ => ret tt
  end.

(** The quick-action buttons. *)
Definition quick_block (t : trigger) : M state unit :=
  match t with
  | ClickQuick row =>
      match quick_actions !! row with
      | Some action_text => set_quick_action (Some action_text)
      | None => ret tt
      end
  | _ => ret tt
  end.

(** "Handle Itinerary Generation" *)
Definition generate_block (model : option GenerativeModel) (w : widgets) (t : trigger)
  : M state unit :=
  match t with
  | ClickGenerate =>
      if is_empty (destination w) || is_empty (interests w) then ret tt
      else if is_none model then ret tt
      else
        let* fresh := new_list [] in
        let* _ := set_chat_history fresh in
        let* _ := set_current_trip (Some (trip_details w)) in
        let* s := gets trip_stats in
        let* _ := set_trip_stats (update_stats w s) in
        let* _ := get_gemini_response model (model_prompt w) [] in
        rerun
  | _ => ret tt
  end.

(** "Handle Follow-up Questions and Quick Actions" *)
Definition followup_block (model : option GenerativeModel) (t : trigger) : M state unit :=
  let chat_input := match t with ChatInput q => q | _ => [] end in
  let* pending := gets quick_action in
  let* user_query :=
    match pending with
    | Some action_text => let* _ := set_quick_action None in ret action_text
    | None => ret chat_input
    end in
  if is_empty user_query then ret tt
  else
    let* history := gets store in
    if is_empty history then ret tt
    else if is_none model then ret tt
    else
      let* _ := get_gemini_response model user_query history in
      rerun.

(** The handlers of one run of the script, top to bottom: what a run does
    to the session state.  The dashboard and the display loop, which run
    between [quick_block] and [generate_block] and only read the state, are
    [Page.dashboard] and [Page.tour1_transcript]; [Page.tour1_run] is the
    run with them. *)
Definition script (model : option GenerativeModel) (now : str) (w : widgets) (t : trigger)
  : M state unit :=
  let* _ := clear_block t in
  let* _ := save_block now t in
  let* _ := export_block now in
  let* _ := load_block t in
  let* _ := quick_block t in
  let* _ := generate_block model w t in
  followup_block model t.

(** A run of the script: the gateway as it is then, the formatted clock
    reading, the widget values and the trigger.  [st.rerun()] ends a run;
    the run that follows it is a run with [NoTrigger]. *)
Record run := {
  run_model : option GenerativeModel;
  run_now : str;
  run_widgets : widgets;
  run_trigger : trigger
}.

Definition step (st : state) (r : run) : state :=
  exec (script (run_model r) (run_now r) (run_widgets r) (run_trigger r)) st.

Definition run_all (rs : list run) (st : state) : state := fold_left step rs st.

(** ** Reading an exported document back *)

Definition json_get (k : str) (o : json) : option json :=
  match o with
  | JDict d => snd <$> List.find (fun kv => bool_decide (fst kv = k)) d
  | _ => None
  end.

Definition json_str (o : json) : option str :=
  match o with JStr s => Some s | _ => None end.

Definition json_list (o : json) : option (list json) :=
  match o with JList l => Some l | _ => None end.

Fixpoint collect {A B} (f : A -> option B) (l : list A) : option (list B) :=
  match l with
  | [] => Some []
  | x :: xs =>
      match f x, collect f xs with
      | Some y, Some ys => Some (y :: ys)
      | _, _ => None
      end
  end.

Definition read_message (o : json) : option message :=
  match json_get (lit "role") o, json_get (lit "parts") o with
  | Some (JStr r), Some (JList ps) =>
      match collect json_str ps with
      | Some texts => Some {| role := r; parts := texts |}
      | None => None
      end
  | _, _ => None
  end.

(** The records under the key [chat_history] of a parsed document. *)
Definition read_chat_history (document : str) : option (list message) :=
  match loads document with
  | Some doc =>
      match json_get (lit "chat_history") doc with
      | Some (JList records) => collect read_message records
      | _ => None
      end
  | None => None
  end.

(** Texts made of Unicode scalar values, as text that was decoded from
    UTF-8 is, and integers that [json.dumps] prints. *)
Definition valid_message (m : message) : bool :=
  valid_str (role m) && forallb valid_str (parts m).

Definition valid_pyval (v : pyval) : bool :=
  match v with
  | PStr s => valid_str s
  | PInt n => int_str_ok n
  end.

Definition valid_trip (t : option dict) : bool :=
  match t with
  | None => true
  | Some d =>
      forallb (fun kv => valid_str (fst kv) && valid_pyval (snd kv)) d
      && bool_decide (NoDup (map fst d))
  end.

(** What a load leaves behind, for the saved itinerary [it]: the active
    conversation is a newly allocated list object with the records of the
    saved one, and the active trip has the four saved fields. *)
Definition restored (it : itinerary) (st st' : state) : Prop :=
  store st' = deref (heap st) (it_chat_history it) /\
  heap st !! chat_history st' = None /\
  chat_history st' <> it_chat_history it /\
  current_trip st' =
    Some [(lit "destination", it_destination it); (lit "duration", it_duration it);
          (lit "interests", it_interests it); (lit "style", it_style it)] /\
  saved_itineraries st' = saved_itineraries st.

(** Well-formed states: every allocated location is below [next_loc], the
    active conversation is an allocated list object, and every saved
    itinerary points to an allocated list object other than the active
    one. *)
Definition inv (st : state) : Prop :=
  (forall l, is_Some (heap st !! l) -> (l < next_loc st)%nat) /\
  is_Some (heap st !! chat_history st) /\
  Forall (fun it => is_Some (heap st !! it_chat_history it)
                    /\ it_chat_history it <> chat_history st)
         (saved_itineraries st).

(** ** Notions used to state how the script changes the state *)

(** The state after [fresh = new_list(v); chat_history = fresh]. *)
Definition rebound (v : list message) (st : state) : state :=
  exec (let* fresh := new_list v in set_chat_history fresh) st.

(** How a computation may change a well-formed state: allocation only
    moves forward, list objects only grow at their tail, only the active
    list object is written, the active conversation stays the same object
    or becomes a newly allocated one, and saved itineraries are kept. *)
Definition evolves (st st' : state) : Prop :=
  inv st ->
  inv st' /\
  (next_loc st <= next_loc st')%nat /\
  (chat_history st' = chat_history st \/ (next_loc st <= chat_history st')%nat) /\
  (forall l old, heap st !! l = Some old -> exists ext, heap st' !! l = Some (old ++ ext)) /\
  (forall l, l <> chat_history st -> is_Some (heap st !! l) -> heap st' !! l = heap st !! l) /\
  saved_itineraries st `prefix_of` saved_itineraries st'.

(** Components of the state that a computation leaves alone. *)
Definition keeps {A} (f : state -> A) : relation state := fun st st' => f st' = f st.

(** The script reaches the remote call of the generation handler. *)
Definition attempts (model : option GenerativeModel) (w : widgets) (t : trigger) : bool :=
  match t with
  | ClickGenerate =>
      negb (is_empty (destination w) || is_empty (interests w)) && negb (is_none model)
  | _ => false
  end.

(** The state in which the generation handler calls the remote model. *)
Definition prepared (w : widgets) (st : state) : state :=
  exec (let* _ := set_current_trip (Some (trip_details w)) in
        let* s := gets trip_stats in
        set_trip_stats (update_stats w s)) (rebound [] st).

(** The state after a saved itinerary has been loaded. *)
Definition loaded (it : itinerary) (st : state) : state :=
  exec (set_current_trip
          (Some [(lit "destination", it_destination it); (lit "duration", it_duration it);
                 (lit "interests", it_interests it); (lit "style", it_style it)]))
       (rebound (deref (heap st) (it_chat_history it)) st).

End TOUR1.

(** * Sample gateways and inputs *)

Module Examples.
Import Py Json Gateway.

(** A gateway that answers in two text chunks around a chunk without text. *)
Definition answers : GenerativeModel :=
  fun _ _ => ([ {| text := Some (lit "Day 1: ") |}; {| text := None |};
                {| text := Some (lit "Louvre") |} ], Completed).

(** A gateway that fails after two fragments. *)
Definition fails_after_two : GenerativeModel :=
  fun _ _ => ([ {| text := Some (lit "Day 1: ") |}; {| text := Some (lit "Lou") |} ],
              Raised (lit "quota exceeded")).

(** A gateway that fails before any fragment. *)
Definition unreachable : GenerativeModel :=
  fun _ _ => ([], Raised (lit "connection refused")).

Definition clock : str := lit "2025-01-01 10:00:00".

Definition paris : TOUR1.widgets :=
  {| TOUR1.destination := lit "Paris"; TOUR1.duration := 5;
     TOUR1.budget := lit "Budget"; TOUR1.travelers := 2;
     TOUR1.interests := [lit "* Art & Museums"; lit "* Food & Cuisine"];
     TOUR1.additional_prefs := []; TOUR1.style := lit "Relaxed";
     TOUR1.accommodation := lit "Hotels" |}.

Definition rome : TOUR1.widgets :=
  {| TOUR1.destination := lit "Rome"; TOUR1.duration := 3;
     TOUR1.budget := lit "Luxury"; TOUR1.travelers := 1;
     TOUR1.interests := [lit "* Historical Sites"];
     TOUR1.additional_prefs := lit "no early mornings"; TOUR1.style := lit "Balanced";
     TOUR1.accommodation := lit "Resorts" |}.

Definition press (m : GenerativeModel) (w : TOUR1.widgets) (t : TOUR1.trigger) : TOUR1.run :=
  {| TOUR1.run_model := Some m; TOUR1.run_now := clock;
     TOUR1.run_widgets := w; TOUR1.run_trigger := t |}.

(** Paris is generated, refined by a follow-up and saved. *)
Definition paris_runs : list TOUR1.run :=
  [press answers paris TOUR1.ClickGenerate;
   press answers paris (TOUR1.ChatInput (lit "make it cheaper"));
   press answers paris TOUR1.ClickSave].

Definition paris_saved : TOUR1.state := TOUR1.run_all paris_runs TOUR1.init_state.

(** Then Rome is generated. *)
Definition rome_runs : list TOUR1.run :=
  paris_runs ++ [press answers rome TOUR1.ClickGenerate].

Definition rome_active : TOUR1.state := TOUR1.run_all rome_runs TOUR1.init_state.

(** Paris is saved and then refined once more. *)
Definition paris_refined : TOUR1.state :=
  TOUR1.step paris_saved (press answers paris (TOUR1.ChatInput (lit "add a day trip"))).

(** Paris is generated and saved, and the chat is cleared. *)
Definition paris_cleared : TOUR1.state :=
  TOUR1.run_all [press answers paris TOUR1.ClickGenerate;
                 press answers paris TOUR1.ClickSave;
                 press answers paris TOUR1.ClickClear] TOUR1.init_state.

End Examples.

(** * What the scripts draw

    The drawing calls of the scripts, as the list of the elements they put
    on the page.  The session state is only read here.  The lookups of the
    drawing code are modelled, with the IndexError they can raise; that the
    drawing calls of the library refuse text that is not Unicode text (a
    string holding a surrogate code point cannot be encoded for the
    browser) is not: statements about arbitrary records ask for Unicode
    text. *)

Module Page.
Import Py Gateway.

Inductive element :=
| chat_message (name : str) (avatar : option str)
| markdown (body : str)
| columns (count : Z)
| columns_of (widths : list Z)
| button (label key : str)
| toast (body icon : str)
| metric (label : str) (value : Z)
| expander (label : str).

Abbreviation page := (list element).

Definition draw (e : element) : M page unit := modify (fun p => p ++ [e]).

(** ["assistant" if message["role"] == "model" else message["role"]] *)
Definition display_role (message : message) : str :=
  if bool_decide (role message = lit "model") then lit "assistant" else role message.

(** [message["parts"][0]] *)
Definition first_part (message : message) : M page str :=
  match parts message with
  | body :: _ => ret body
  | [] => raise IndexError
  end.

(** TOUR.py, "Display previous messages from chat history". *)
Fixpoint tour_transcript (chat_history : list message) : M page unit :=
  match chat_history with
  | [] => ret tt
  | message :: rest =>
      let role := display_role message in
      let* _ := draw (chat_message role None) in
      let* body := first_part message in
      let* _ := draw (markdown body) in
      tour_transcript rest
  end.

(** The feedback button that was clicked, if one was. *)
Inductive feedback := Helpful | NotHelpful.

Definition is_helpful (clicked : option feedback) : bool :=
  match clicked with Some Helpful => true | _ => false end.

Definition is_not_helpful (clicked : option feedback) : bool :=
  match clicked with Some NotHelpful => true | _ => false end.

(** The action buttons under the last assistant message of tour1.py. *)
Definition feedback_row (clicked : option feedback) (idx : nat) : M page unit :=
  let* _ := draw (columns_of [1; 1; 8]%Z) in
  let* _ := draw (button (0x1f44d%N :: lit " Helpful")
                         (lit "like_" ++ int_repr (Z.of_nat idx))) in
  let* _ := when (is_helpful clicked)
              (draw (toast (lit "Thanks for your feedback!") [0x2705%N])) in
  let* _ := draw (button (0x1f44e%N :: lit " Not Helpful")
                         (lit "dislike_" ++ int_repr (Z.of_nat idx))) in
  when (is_not_helpful clicked) (draw (toast (lit "We'll improve!") [0x1f4dd%N])).

(** tour1.py, "Chat History Display": the loop over
    [enumerate(chat_history)], from position [idx] on; [len] is
    [len(chat_history)]. *)
Fixpoint tour1_transcript_from (clicked : option feedback) (len idx : nat)
    (chat_history : list message) : M page unit :=
  match chat_history with
  | [] => ret tt
  | message :: rest =>
      let role := display_role message in
      let avatar :=
        if bool_decide (role = lit "assistant") then [0x1f916%N] else [0x1f464%N] in
      let* _ := draw (chat_message role (Some avatar)) in
      let* body := first_part message in
      let* _ := draw (markdown body) in
      let* _ :=
        if bool_decide (role = lit "assistant")
           && (Z.of_nat idx =? Z.of_nat len - 1)%Z
        then feedback_row clicked idx
        else ret tt in
      tour1_transcript_from clicked len (S idx) rest
  end.

Definition tour1_transcript (clicked : option feedback) (chat_history : list message)
  : M page unit :=
  tour1_transcript_from clicked (length chat_history) 0 chat_history.

(** tour1.py, "Statistics Dashboard". *)
Definition dashboard (st : TOUR1.state) : M page unit :=
  let shown :=
    match TOUR1.current_trip st with Some (_ :: _) => true | _ => false end
    || (0 <? TOUR1.total_trips (TOUR1.trip_stats st))%Z in
  if shown then
    let* _ := draw (markdown (lit "---")) in
    let* _ := draw (columns 4) in
    let* _ := draw (metric ([0x1f5fa; 0xfe0f]%N ++ lit " Total Trips")
                           (TOUR1.total_trips (TOUR1.trip_stats st))) in
    let* _ := draw (metric (0x1f4c5%N :: lit " Days Traveled")
                           (TOUR1.total_days (TOUR1.trip_stats st))) in
    let* _ := draw (metric (0x1f30d%N :: lit " Destinations")
                           (Z.of_nat (length (TOUR1.destinations (TOUR1.trip_stats st))))) in
    draw (metric (0x1f4ac%N :: lit " Messages") (Z.of_nat (length (TOUR1.store st))))
  else ret tt.

(** [f"{v}"] for a value of a trip dictionary. *)
Definition format_pyval (v : TOUR1.pyval) : str :=
  match v with
  | TOUR1.PStr s => s
  | TOUR1.PInt n => int_repr n
  end.

(** The button of the saved itinerary at position [idx]. *)
Definition load_button (idx : nat) (itinerary : TOUR1.itinerary) : element :=
  button ([0x1f5fa; 0xfe0f]%N ++ lit " " ++ format_pyval (TOUR1.it_destination itinerary)
          ++ lit " (" ++ format_pyval (TOUR1.it_duration itinerary) ++ lit " days)")
         (lit "load_" ++ int_repr (Z.of_nat idx)).

(** The loop over [enumerate(saved_itineraries)], from position [idx] on,
    without the effect of a click, which is [TOUR1.load_block]. *)
Fixpoint saved_buttons_from (idx : nat) (saved : list TOUR1.itinerary) : M page unit :=
  match saved with
  | [] => ret tt
  | itinerary :: rest =>
      let* _ := draw (load_button idx itinerary) in
      saved_buttons_from (S idx) rest
  end.

(** tour1.py, "Saved Itineraries". *)
Definition saved_buttons (st : TOUR1.state) : M page unit :=
  if TOUR1.is_empty (TOUR1.saved_itineraries st) then ret tt
  else
    let* _ := draw (expander (0x1f4da%N :: lit " Saved Itineraries")) in
    saved_buttons_from 0 (TOUR1.saved_itineraries st).

(** The outcome of a drawing step of a run, on a page of its own: drawing
    only reads the session state. *)
Definition shows {St} (c : M page unit) : M St unit := fun st => (result c [], st).

(** The three handlers of TOUR.py, as [TOUR.script] has them. *)
Definition tour_clear (t : TOUR.trigger) : M TOUR.session_state unit :=
  match t with
  | TOUR.ClearConversation => let* _ := TOUR.set_chat_history [] in rerun
  | _ => ret tt
  end.

Definition tour_generate (model : option GenerativeModel) (w : TOUR.widgets)
    (t : TOUR.trigger) : M TOUR.session_state unit :=
  match t with
  | TOUR.GenerateItinerary =>
      if TOUR.is_empty (TOUR.destination w) || TOUR.is_empty (TOUR.interests w) then ret tt
      else if TOUR.is_none model then ret tt
      else
        let* _ := TOUR.set_chat_history [] in
        let* _ := TOUR.get_gemini_response model (TOUR.model_prompt w) [] in
        rerun
  | _ => ret tt
  end.

Definition tour_follow_up (model : option GenerativeModel) (t : TOUR.trigger)
  : M TOUR.session_state unit :=
  match t with
  | TOUR.ChatInput user_query =>
      if TOUR.is_empty user_query then ret tt
      else
        let* history := gets TOUR.chat_history in
        if TOUR.is_empty history then ret tt
        else if TOUR.is_none model then ret tt
        else
          let* _ := TOUR.get_gemini_response model user_query history in
          rerun
  | _ => ret tt
  end.

(** One complete run of TOUR.py, top to bottom: the "Clear Conversation"
    handler, the display loop, the generation handler and the follow-up
    handler. *)
Definition tour_run (model : option GenerativeModel) (w : TOUR.widgets) (t : TOUR.trigger)
  : M TOUR.session_state unit :=
  let* _ := tour_clear t in
  let* history := gets TOUR.chat_history in
  let* _ := shows (tour_transcript history) in
  let* _ := tour_generate model w t in
  tour_follow_up model t.

(** The handlers of the sidebar of tour1.py, which run before the main
    area is drawn, and the handlers that run after it. *)
Definition sidebar (now : str) (t : TOUR1.trigger) : M TOUR1.state unit :=
  let* _ := TOUR1.clear_block t in
  let* _ := TOUR1.save_block now t in
  let* _ := TOUR1.export_block now in
  let* _ := TOUR1.load_block t in
  TOUR1.quick_block t.

Definition handlers (model : option GenerativeModel) (w : TOUR1.widgets)
    (t : TOUR1.trigger) : M TOUR1.state unit :=
  let* _ := TOUR1.generate_block model w t in
  TOUR1.followup_block model t.

(** One complete run of tour1.py, top to bottom: the sidebar handlers with
    the buttons of the saved itineraries, the dashboard, the display loop,
    the generation handler and the follow-up handler.  [clicked] is the feedback button that triggered the run, if
    one did. *)
Definition tour1_run (model : option GenerativeModel) (now : str) (w : TOUR1.widgets)
    (t : TOUR1.trigger) (clicked : option feedback) : M TOUR1.state unit :=
  let* _ := TOUR1.clear_block t in
  let* _ := TOUR1.save_block now t in
  let* _ := TOUR1.export_block now in
  let* st := gets (fun st => st) in
  let* _ := shows (saved_buttons st) in
  let* _ := TOUR1.load_block t in
  let* _ := TOUR1.quick_block t in
  let* st := gets (fun st => st) in
  let* _ := shows (dashboard st) in
  let* _ := shows (tour1_transcript clicked (TOUR1.store st)) in
  let* _ := TOUR1.generate_block model w t in
  TOUR1.followup_block model t.

End Page.

(** * Runs of TOUR.py *)

Module TourSession.
Import Py Gateway.

Record run := {
  run_model : option GenerativeModel;
  run_widgets : TOUR.widgets;
  run_trigger : TOUR.trigger
}.

(** [if "chat_history" not in st.session_state] of the first run. *)
Definition init_state : TOUR.session_state := {| TOUR.chat_history := [] |}.

Definition step (st : TOUR.session_state) (r : run) : TOUR.session_state :=
  exec (TOUR.script (run_model r) (run_widgets r) (run_trigger r)) st.

Definition run_all (rs : list run) (st : TOUR.session_state) : TOUR.session_state :=
  fold_left step rs st.

(** The same with complete runs. *)
Definition visit (st : TOUR.session_state) (r : run) : TOUR.session_state :=
  exec (Page.tour_run (run_model r) (run_widgets r) (run_trigger r)) st.

Definition visits (rs : list run) (st : TOUR.session_state) : TOUR.session_state :=
  fold_left visit rs st.

End TourSession.

(** * Complete runs of tour1.py *)

Module Tour1Session.
Import Py Gateway.

(** A complete run: a run of the handlers and the feedback button that was
    clicked, if one was. *)
Abbreviation run := (TOUR1.run * option Page.feedback)%type.

Definition visit (st : TOUR1.state) (r : run) : TOUR1.state :=
  exec (Page.tour1_run (TOUR1.run_model (fst r)) (TOUR1.run_now (fst r))
          (TOUR1.run_widgets (fst r)) (TOUR1.run_trigger (fst r)) (snd r)) st.

Definition visits (rs : list run) (st : TOUR1.state) : TOUR1.state :=
  fold_left visit rs st.

End Tour1Session.

(** * Further sample states *)

Module Samples.
Import Py Gateway.

(** A conversation whose text holds the two surrogates of U+1F600 as two
    characters. *)
Definition split_emoji : TOUR1.state :=
  exec (TOUR1.chat_history_append {| role := lit "user"; parts := [[0xd83d; 0xde00]%N] |})
       TOUR1.init_state.

(** An active trip whose destination is that text. *)
Definition split_emoji_trip : TOUR1.state :=
  exec (TOUR1.set_current_trip
          (Some [(lit "destination", TOUR1.PStr [0xd83d; 0xde00]%N);
                 (lit "duration", TOUR1.PInt 5)]))
       TOUR1.init_state.

(** A conversation with a record that has no part. *)
Definition part_less : list message :=
  [ {| role := lit "user"; parts := [lit "plan"] |}; {| role := lit "model"; parts := [] |} ].

End Samples.

(** * Notions used to state further properties *)

Module Shape.
Import Py Gateway.

(** The records of a list of turns, each a question and its answer. *)
Definition records (turns : list (str * str)) : list message :=
  flat_map (fun qa => [ {| role := lit "user"; parts := [fst qa] |};
                        {| role := lit "model"; parts := [snd qa] |} ]) turns.

(** A conversation made of whole turns. *)
Definition whole_turns (l : list message) : Prop := exists turns, l = records turns.

(** What the display loops draw for a list of turns. *)
Definition tour_bubbles (turns : list (str * str)) : Page.page :=
  flat_map (fun qa => [Page.chat_message (lit "user") None; Page.markdown (fst qa);
                       Page.chat_message (lit "assistant") None; Page.markdown (snd qa)])
           turns.

Definition tour1_bubbles (turns : list (str * str)) : Page.page :=
  flat_map (fun qa => [Page.chat_message (lit "user") (Some [0x1f464%N]);
                       Page.markdown (fst qa);
                       Page.chat_message (lit "assistant") (Some [0x1f916%N]);
                       Page.markdown (snd qa)])
           turns.

(** No quick action is left pending. *)
Definition settles : relation TOUR1.state :=
  fun st st' => TOUR1.quick_action st = None -> TOUR1.quick_action st' = None.

(** Every list object of the heap is made of whole turns. *)
Definition heap_turns (st : TOUR1.state) : Prop :=
  forall l v, TOUR1.heap st !! l = Some v -> whole_turns v.

(** A computation that keeps [heap_turns]. *)
Definition turns_kept : relation TOUR1.state :=
  fun st st' => heap_turns st -> heap_turns st'.

(** The active trip, when there is one, has the four keys that the "Save
    Trip" handler reads. *)
Definition trip_ok (st : TOUR1.state) : Prop :=
  match TOUR1.current_trip st with
  | Some d =>
      is_Some (TOUR1.dict_get (lit "destination") d)
      /\ is_Some (TOUR1.dict_get (lit "duration") d)
      /\ is_Some (TOUR1.dict_get (lit "interests") d)
      /\ is_Some (TOUR1.dict_get (lit "style") d)
  | None => True
  end.

(** A run that ends normally or by [st.rerun()]. *)
Definition ends_well {A} (o : outcome A) : Prop :=
  match o with
  | Ok _ => True
  | Raise e => e = RerunException
  end.

(** A computation that keeps [trip_ok] and ends well. *)
Definition safe {A} (c : M TOUR1.state A) : Prop :=
  forall st, trip_ok st -> trip_ok (exec c st) /\ ends_well (result c st).

(** A property of the state that a computation keeps. *)
Definition kept {St} (P : St -> Prop) : relation St := fun st st' => P st -> P st'.

(** An active trip and a saved itinerary each come with a counted trip. *)
Definition counted (st : TOUR1.state) : Prop :=
  (0 <= TOUR1.total_trips (TOUR1.trip_stats st))%Z
  /\ (TOUR1.current_trip st <> None -> 0 < TOUR1.total_trips (TOUR1.trip_stats st))%Z
  /\ (TOUR1.saved_itineraries st <> [] -> 0 < TOUR1.total_trips (TOUR1.trip_stats st))%Z.

(** The saved itineraries are kept, in their order. *)
Definition saved_grow : relation TOUR1.state :=
  fun st st' => TOUR1.saved_itineraries st `prefix_of` TOUR1.saved_itineraries st'.

(** Printable ASCII characters and the line feed. *)
Definition ascii_text (c : char) : bool :=
  N.eqb c 10 || (N.leb 32 c && N.leb c 126).

(** The integers of an active trip are ones that [json.dumps] prints. *)
Definition printable_trip (t : option TOUR1.dict) : bool :=
  match t with
  | None => true
  | Some d =>
      forallb (fun kv => match snd kv with
                         | TOUR1.PInt n => int_str_ok n
                         | TOUR1.PStr _ => true
                         end) d
  end.

(** A text of such characters. *)
Definition plain (s : str) : Prop := Forall (fun c => ascii_text c = true) s.

(** The statistics as the runs of the script keep them. *)
Definition stats_ok (s : TOUR1.stats) : Prop :=
  NoDup (TOUR1.destinations s)
  /\ (Z.of_nat (length (TOUR1.destinations s)) <= TOUR1.total_trips s)%Z
  /\ (TOUR1.total_trips s <= TOUR1.total_days s <= 30 * TOUR1.total_trips s)%Z.

(** The runs whose duration is one the slider can give. *)
Definition slider_range (r : TOUR1.run) : Prop :=
  (1 <= TOUR1.duration (TOUR1.run_widgets r) <= 30)%Z.

End Shape.

(** * Facts about the JSON encoder and decoder *)

Module JsonFacts.
Import Py Json.
Local Open Scope N_scope.


Lemma hex_value_digit n : n < 16 -> hex_value (hex_digit n) = Some n.
Proof.
  intros Hn. unfold hex_value, hex_digit.
  destruct (N.ltb_spec n 10).
  - replace ((48 <=? 48 + n) && (48 + n <=? 57)) with true.
    + f_equal. lia.
    + symmetry. apply andb_true_iff. split; apply N.leb_le; lia.
  - replace ((48 <=? 87 + n) && (87 + n <=? 57)) with false.
    + replace ((97 <=? 87 + n) && (87 + n <=? 102)) with true.
      * f_equal. lia.
      * symmetry. apply andb_true_iff. split; apply N.leb_le; lia.
    + symmetry. apply andb_false_iff. right. apply N.leb_gt. lia.
Qed.

Lemma decode_hex4 n : n < 65536 ->
  match hex4 n with
  | [a; b; c; d] => decode_uXXXX a b c d = Some n
  | _ => False
  end.
Proof.
  intros Hn. unfold hex4, decode_uXXXX.
  rewrite !hex_value_digit by (apply N.mod_lt; lia).
  f_equal.
  pose proof (N.Div0.div_mod n 16) as H0.
  pose proof (N.Div0.div_mod (n / 16) 16) as H1.
  pose proof (N.Div0.div_mod (n / 16 / 16) 16) as H2.
  rewrite !N.Div0.div_div in H1, H2. simpl (_ * _) in H1, H2.
  change (16 * 16) with 256 in *.
  assert (n / 4096 < 16) by (apply N.Div0.div_lt_upper_bound; lia).
  rewrite (N.mod_small (n / 4096) 16) by assumption.
  replace (n / 4096) with (n / 256 / 16) in * by (rewrite N.Div0.div_div; reflexivity).
  pose proof (N.Div0.div_mod (n / 256) 16).
  lia.
Qed.

Lemma lor_shifted a b : b < 2 ^ 10 -> N.lor (a * 2 ^ 10) b = a * 2 ^ 10 + b.
Proof.
  intros Hb.
  assert (Hdisj : N.land (a * 2 ^ 10) b = 0).
  { apply N.bits_inj. intros i. rewrite N.land_spec, N.bits_0.
    destruct (N.lt_ge_cases i 10) as [Hi | Hi].
    - rewrite N.mul_pow2_bits_low by assumption. reflexivity.
    - rewrite <- (N.mod_small b (2 ^ 10)) by assumption.
      rewrite N.mod_pow2_bits_high by assumption. apply andb_false_r. }
  rewrite N.add_nocarry_lxor by assumption.
  symmetry. apply N.lxor_lor. assumption.
Qed.

Lemma surrogate_high n : n < 0x100000 ->
  N.lor 0xd800 (N.land (N.shiftr n 10) 0x3ff) = 0xd800 + n / 1024.
Proof.
  intros Hn.
  change 0x3ff with (N.ones 10). rewrite N.land_ones, N.shiftr_div_pow2.
  change (2 ^ 10) with 1024.
  assert (n / 1024 < 1024) by (apply N.Div0.div_lt_upper_bound; lia).
  rewrite N.mod_small by assumption.
  change 0xd800 with (54 * 2 ^ 10). apply lor_shifted. assumption.
Qed.

Lemma surrogate_low n :
  N.lor 0xdc00 (N.land n 0x3ff) = 0xdc00 + n mod 1024.
Proof.
  change 0x3ff with (N.ones 10). rewrite N.land_ones.
  change 0xdc00 with (55 * 2 ^ 10). apply lor_shifted.
  apply N.mod_lt. discriminate.
Qed.

Lemma surrogate_join n : n < 0x100000 ->
  0x10000 + N.lor (N.shiftl (0xd800 + n / 1024 - 0xd800) 10) (0xdc00 + n mod 1024 - 0xdc00)
  = 0x10000 + n.
Proof.
  intros Hn.
  rewrite (N.add_comm 0xd800), (N.add_comm 0xdc00), !N.add_sub.
  rewrite N.shiftl_mul_pow2, lor_shifted by (apply N.mod_lt; discriminate).
  change (2 ^ 10) with 1024.
  pose proof (N.Div0.div_mod n 1024). lia.
Qed.

Lemma scanstring_plain c r :
  c <> 34 -> c <> 92 -> 32 <= c -> scanstring (c :: r) = cons_fst c (scanstring r).
Proof.
  intros H1 H2 H3. cbn [scanstring].
  rewrite (proj2 (N.eqb_neq _ _) H1), (proj2 (N.eqb_neq _ _) H2).
  rewrite (proj2 (N.ltb_ge _ _) H3). reflexivity.
Qed.


Lemma scanstring_u a b c d uni r :
  decode_uXXXX a b c d = Some uni ->
  (0xd800 <=? uni) && (uni <=? 0xdbff) = false ->
  scanstring (92 :: 117 :: a :: b :: c :: d :: r) = cons_fst uni (scanstring r).
Proof.
  intros H1 H2. cbn [scanstring].
  change (92 =? 34) with false. change (92 =? 92) with true.
  change (117 =? 117) with true. cbv iota.
  rewrite H1, H2. reflexivity.
Qed.

Lemma scanstring_pair a b c d e f g h uni uni2 r :
  decode_uXXXX a b c d = Some uni ->
  (0xd800 <=? uni) && (uni <=? 0xdbff) = true ->
  decode_uXXXX e f g h = Some uni2 ->
  (0xdc00 <=? uni2) && (uni2 <=? 0xdfff) = true ->
  scanstring (92 :: 117 :: a :: b :: c :: d :: 92 :: 117 :: e :: f :: g :: h :: r)
  = cons_fst (0x10000 + N.lor (N.shiftl (uni - 0xd800) 10) (uni2 - 0xdc00)) (scanstring r).
Proof.
  intros H1 H2 H3 H4. cbn [scanstring].
  change (92 =? 34) with false. change (92 =? 92) with true.
  change (117 =? 117) with true. cbv iota.
  rewrite H1, H2. cbn [andb]. rewrite H3, H4. reflexivity.
Qed.

Lemma scanstring_u_escape n r :
  n < 65536 -> (0xd800 <=? n) && (n <=? 0xdbff) = false ->
  scanstring (u_escape n ++ r) = cons_fst n (scanstring r).
Proof.
  intros Hn Hs. pose proof (decode_hex4 n Hn) as Hd.
  unfold u_escape. destruct (hex4 n) as [|a [|b [|c [|d [|]]]]]; try contradiction.
  apply scanstring_u; assumption.
Qed.

Lemma scanstring_escape_char c r :
  valid_char c = true -> scanstring (escape_char c ++ r) = cons_fst c (scanstring r).
Proof.
  intros Hv. unfold escape_char.
  destruct (N.eqb_spec c 34) as [->|N34]; [reflexivity|].
  destruct (N.eqb_spec c 92) as [->|N92]; [reflexivity|].
  destruct (N.eqb_spec c 10) as [->|N10]; [reflexivity|].
  destruct (N.eqb_spec c 13) as [->|N13]; [reflexivity|].
  destruct (N.eqb_spec c 9) as [->|N9]; [reflexivity|].
  destruct (N.eqb_spec c 8) as [->|N8]; [reflexivity|].
  destruct (N.eqb_spec c 12) as [->|N12]; [reflexivity|].
  destruct (N.leb_spec 32 c) as [L32|L32]; cbn [andb].
  - destruct (N.leb_spec c 126) as [L126|L126].
    + apply scanstring_plain; assumption.
    + unfold valid_char in Hv.
      destruct (N.ltb_spec c 0x10000) as [Lb|Lb].
      * apply scanstring_u_escape; [assumption|].
        apply orb_true_iff in Hv as [Hv|Hv].
        -- apply N.ltb_lt in Hv. apply andb_false_iff. left. apply N.leb_gt. lia.
        -- apply andb_true_iff in Hv as [Hv _]. apply N.leb_le in Hv.
           apply andb_false_iff. right. apply N.leb_gt. lia.
      * assert (Hn : c - 0x10000 < 0x100000).
        { apply orb_true_iff in Hv as [Hv|Hv].
          - apply N.ltb_lt in Hv. lia.
          - apply andb_true_iff in Hv as [_ Hv]. apply N.ltb_lt in Hv. lia. }
        cbv zeta. rewrite surrogate_high, surrogate_low by assumption.
        set (n := c - 0x10000) in *.
        assert (Hq : n / 1024 < 1024) by (apply N.Div0.div_lt_upper_bound; lia).
        assert (Hr : n mod 1024 < 1024) by (apply N.mod_lt; discriminate).
        pose proof (decode_hex4 (0xd800 + n / 1024) ltac:(lia)) as Hd1.
        pose proof (decode_hex4 (0xdc00 + n mod 1024) ltac:(lia)) as Hd2.
        unfold u_escape.
        destruct (hex4 (0xd800 + n / 1024)) as [|a1 [|b1 [|c1 [|d1 [|]]]]]; try contradiction.
        destruct (hex4 (0xdc00 + n mod 1024)) as [|a2 [|b2 [|c2 [|d2 [|]]]]]; try contradiction.
        cbn [app].
        assert (Hhi : (0xd800 <=? 0xd800 + n / 1024) && (0xd800 + n / 1024 <=? 0xdbff) = true).
        { apply andb_true_iff; split; apply N.leb_le; [apply N.le_add_r | lia]. }
        assert (Hlo : (0xdc00 <=? 0xdc00 + n mod 1024) && (0xdc00 + n mod 1024 <=? 0xdfff) = true).
        { apply andb_true_iff; split; apply N.leb_le; [apply N.le_add_r | lia]. }
        rewrite (scanstring_pair _ _ _ _ _ _ _ _ _ _ r Hd1 Hhi Hd2 Hlo).
        rewrite surrogate_join by assumption.
        f_equal. unfold n. lia.
  - rewrite (proj2 (N.ltb_lt c 0x10000)) by lia.
    apply scanstring_u_escape; [lia|].
    apply andb_false_iff. left. apply N.leb_gt. lia.
Qed.

Lemma scanstring_encode s r :
  valid_str s = true ->
  scanstring (flat_map escape_char s ++ 34 :: r) = Some (s, r).
Proof.
  induction s as [|c s IH]; intros Hv.
  - reflexivity.
  - cbn [valid_str forallb] in Hv. apply andb_true_iff in Hv as [Hc Hs].
    cbn [flat_map]. rewrite <- app_assoc, scanstring_escape_char by assumption.
    unfold valid_str in IH. rewrite IH by assumption. reflexivity.
Qed.

Lemma scan_digits_chars u rest :
  int_follow rest = true -> scan_digits (uint_chars u ++ rest) = (u, rest).
Proof.
  intros Hf. induction u; cbn [uint_chars app];
    try (cbn [scan_digits]; rewrite IHu; reflexivity).
  destruct rest as [|c r]; [reflexivity|].
  cbn [int_follow] in Hf. apply andb_true_iff in Hf as [Hd _].
  cbn [scan_digits]. destruct (is_digit c); [discriminate|reflexivity].
Qed.

Lemma nzhead_not_D0 v w : nzhead v <> D0 w.
Proof. induction v; cbn [nzhead]; try discriminate; assumption. Qed.

Lemma to_uint_head_nonzero p u : Pos.to_uint p <> D0 u.
Proof.
  intros Hu.
  pose proof (DecimalPos.Unsigned.to_of (Pos.to_uint p)) as Hn.
  rewrite DecimalPos.Unsigned.of_to in Hn. cbn [N.to_uint] in Hn.
  rewrite Hu, unorm_D0 in Hn. unfold unorm in Hn.
  destruct (nzhead u) eqn:Hz; try discriminate.
  - injection Hn as ->. exact (DecimalPos.Unsigned.to_uint_nonzero p Hu).
  - exact (nzhead_not_D0 u _ Hz).
Qed.

Lemma scan_uint_chars p rest :
  int_follow rest = true ->
  scan_uint (uint_chars (Pos.to_uint p) ++ rest) = Some (Pos.to_uint p, rest).
Proof.
  intros Hf. pose proof (to_uint_head_nonzero p) as Hnz.
  pose proof (DecimalPos.Unsigned.to_uint_nonnil p) as Hnn.
  rewrite <- (scan_digits_chars (Pos.to_uint p) rest Hf).
  destruct (Pos.to_uint p); try reflexivity.
  - contradiction.
  - exfalso. exact (Hnz _ eq_refl).
Qed.

Lemma int_follow_fraction rest : int_follow rest = true -> starts_fraction rest = false.
Proof.
  destruct rest as [|c r]; [reflexivity|]. cbn [int_follow].
  intros H. apply andb_true_iff in H as [_ H]. apply negb_true_iff in H. exact H.
Qed.

Lemma uint_chars_head p :
  exists c r, uint_chars (Pos.to_uint p) = c :: r /\ is_digit c = true.
Proof.
  pose proof (DecimalPos.Unsigned.to_uint_nonnil p) as Hnn.
  destruct (Pos.to_uint p); try contradiction; cbn [uint_chars]; eauto.
Qed.

Lemma scan_number_repr z rest :
  int_follow rest = true -> scan_number (int_repr z ++ rest) = Some (JInt z, rest).
Proof.
  intros Hf. pose proof (DecimalZ.of_to z) as Hz.
  unfold int_repr. destruct z as [|p|p]; cbn [Z.to_int] in *.
  - cbn. rewrite (int_follow_fraction _ Hf). reflexivity.
  - destruct (uint_chars_head p) as (c & r & Hc & Hd).
    pose proof (scan_uint_chars p rest Hf) as Hs. rewrite Hc in *.
    cbn [app] in *. unfold scan_number.
    assert ((c =? 45) = false) as ->.
    { apply N.eqb_neq. intros ->. discriminate. }
    rewrite Hs, (int_follow_fraction _ Hf), Hz. reflexivity.
  - cbn [app]. unfold scan_number. change (45 =? 45) with true. cbv iota zeta.
    rewrite (scan_uint_chars p rest Hf), (int_follow_fraction _ Hf), Hz. reflexivity.
Qed.

Lemma int_repr_head z :
  exists c r, int_repr z = c :: r /\ (c = 45 \/ is_digit c = true).
Proof.
  unfold int_repr. destruct z as [|p|p]; cbn [Z.to_int].
  - exists 48, []. split; [reflexivity|right; reflexivity].
  - destruct (uint_chars_head p) as (c & r & Hc & Hd). exists c, r. auto.
  - eexists _, _. split; [reflexivity|left; reflexivity].
Qed.

Lemma skip_ws_indent n s : skip_ws (newline_indent n ++ s) = skip_ws s.
Proof.
  unfold newline_indent. cbn [app skip_ws]. change (is_ws 10) with true. cbv iota.
  induction (2 * n)%nat as [|k IH]; cbn [repeat app skip_ws]; [reflexivity|].
  change (is_ws 32) with true. cbv iota. exact IH.
Qed.

Lemma start_char_cases c :
  start_char c = true ->
  c = 34 \/ c = 123 \/ c = 91 \/ c = 110 \/ c = 45 \/ 48 <= c <= 57.
Proof.
  unfold start_char, is_digit. rewrite !orb_true_iff, andb_true_iff.
  rewrite !N.eqb_eq, !N.leb_le. tauto.
Qed.

Lemma start_char_not_ws c : start_char c = true -> is_ws c = false.
Proof.
  intros H%start_char_cases. unfold is_ws.
  rewrite !orb_false_iff, !N.eqb_neq. lia.
Qed.

Lemma skip_ws_start c r : start_char c = true -> skip_ws (c :: r) = c :: r.
Proof. intros H. cbn [skip_ws]. rewrite (start_char_not_ws c H). reflexivity. Qed.

Lemma iterencode_head level o :
  exists c r, iterencode level o = c :: r /\ start_char c = true.
Proof.
  destruct o as [|z|s|[|x l]|[|kv d]];
    try (eexists _, _; split; reflexivity).
  destruct (int_repr_head z) as (c & r & Hc & Hd). exists c, r. split; [exact Hc|].
  unfold start_char. destruct Hd as [-> | Hd]; [reflexivity|]. rewrite Hd.
  apply orb_true_r.
Qed.

Lemma delim_int_follow rest : delim rest = true -> int_follow rest = true.
Proof.
  destruct rest as [|c r]; [reflexivity|]. cbn [delim int_follow starts_fraction].
  intros [H|H]%orb_true_iff; apply N.eqb_eq in H; subst c; reflexivity.
Qed.

Lemma delim_indent n s : delim (newline_indent n ++ s) = true.
Proof. reflexivity. Qed.

(** Unfolding equations of the mutually recursive scanner. *)

Lemma scan_once_string fuel r :
  scan_once (S fuel) (34 :: r) =
  match scanstring r with Some (t, rest) => Some (JStr t, rest) | None => None end.
Proof. reflexivity. Qed.

Lemma scan_once_array fuel r :
  scan_once (S fuel) (91 :: r) =
  match skip_ws r with
  | c1 :: r1 =>
      if c1 =? 93 then Some (JList [], r1)
      else match scan_elements fuel (c1 :: r1) with
           | Some (values, rest) => Some (JList values, rest)
           | None => None
           end
  | [] => None
  end.
Proof. reflexivity. Qed.

Lemma scan_once_object fuel r :
  scan_once (S fuel) (123 :: r) =
  match skip_ws r with
  | c1 :: r1 =>
      if c1 =? 125 then Some (JDict [], r1)
      else match scan_members fuel (c1 :: r1) with
           | Some (pairs, rest) => Some (JDict (dict_of_pairs pairs), rest)
           | None => None
           end
  | [] => None
  end.
Proof. reflexivity. Qed.

Lemma scan_once_number fuel c r :
  c = 45 \/ is_digit c = true ->
  scan_once (S fuel) (c :: r) = scan_number (c :: r).
Proof.
  intros H. cbn [scan_once].
  assert (c <> 34 /\ c <> 123 /\ c <> 91 /\ c <> 110) as (H1 & H2 & H3 & H4).
  { destruct H as [->|H]; [repeat split; discriminate|].
    unfold is_digit in H. apply andb_true_iff in H as [Ha%N.leb_le Hb%N.leb_le]. lia. }
  rewrite (proj2 (N.eqb_neq _ _) H1), (proj2 (N.eqb_neq _ _) H2),
    (proj2 (N.eqb_neq _ _) H3), (proj2 (N.eqb_neq _ _) H4).
  reflexivity.
Qed.

Lemma scan_elements_eq fuel s :
  scan_elements (S fuel) s =
  match scan_once fuel s with
  | Some (value, r1) =>
      match skip_ws r1 with
      | c2 :: r2 =>
          if c2 =? 93 then Some ([value], r2)
          else if c2 =? 44 then
            match scan_elements fuel (skip_ws r2) with
            | Some (values, rest) => Some (value :: values, rest)
            | None => None
            end
          else None
      | [] => None
      end
  | None => None
  end.
Proof. reflexivity. Qed.

Lemma scan_members_eq fuel r :
  scan_members (S fuel) (34 :: r) =
  match scanstring r with
  | Some (key, r1) =>
      match skip_ws r1 with
      | c2 :: r2 =>
          if c2 =? 58 then
            match scan_once fuel (skip_ws r2) with
            | Some (value, r3) =>
                match skip_ws r3 with
                | c4 :: r4 =>
                    if c4 =? 125 then Some ([(key, value)], r4)
                    else if c4 =? 44 then
                      match scan_members fuel (skip_ws r4) with
                      | Some (pairs, rest) => Some ((key, value) :: pairs, rest)
                      | None => None
                      end
                    else None
                | [] => None
                end
            | None => None
            end
          else None
      | [] => None
      end
  | None => None
  end.
Proof. reflexivity. Qed.

Lemma skip_ws_iterencode lv o s :
  skip_ws (iterencode lv o ++ s) = iterencode lv o ++ s.
Proof.
  destruct (iterencode_head lv o) as (c & r & -> & Hc).
  cbn [app]. apply skip_ws_start. exact Hc.
Qed.

Lemma scan_elements_join l :
  l <> [] -> Forall roundtrips l -> forallb wf_json l = true ->
  forall lv lv' rest fuel,
    (list_sum (map (fun x => S (sz x)) l) <= fuel)%nat ->
    scan_elements fuel
      (join (44 :: newline_indent lv) (map (iterencode lv) l)
         ++ newline_indent lv' ++ 93 :: rest)
    = Some (l, rest).
Proof.
  induction l as [|x xs IH]; [congruence|].
  intros _ HP Hwf lv lv' rest fuel Hfuel.
  inversion HP as [|? ? Hx Hxs]; subst.
  cbn [forallb] in Hwf. apply andb_true_iff in Hwf as [Hwx Hwxs].
  cbn [map list_sum fold_right] in Hfuel. fold (list_sum (map (fun x => S (sz x)) xs)) in Hfuel.
  destruct fuel as [|fuel]; [lia|].
  rewrite scan_elements_eq.
  destruct xs as [|y ys].
  - cbn [map join].
    rewrite (Hx Hwx lv _ fuel (delim_indent _ _)) by lia.
    rewrite skip_ws_indent. reflexivity.
  - change (join (44 :: newline_indent lv) (map (iterencode lv) (x :: y :: ys)))
      with (iterencode lv x ++ (44 :: newline_indent lv)
              ++ join (44 :: newline_indent lv) (map (iterencode lv) (y :: ys))).
    rewrite <- !app_assoc.
    rewrite (Hx Hwx lv _ fuel) by (reflexivity || lia).
    cbn [app skip_ws]. change (is_ws 44) with false. cbv iota.
    change (44 =? 93) with false. change (44 =? 44) with true. cbv iota.
    rewrite skip_ws_indent.
    assert (Hskip : forall s, skip_ws (join (44 :: newline_indent lv) (map (iterencode lv) (y :: ys)) ++ s)
                   = join (44 :: newline_indent lv) (map (iterencode lv) (y :: ys)) ++ s).
    { intros s. cbn [map]. destruct (iterencode_head lv y) as (c & r & Hc & Hs).
      destruct ys; cbn [join map]; rewrite Hc; cbn [app]; apply skip_ws_start; exact Hs. }
    rewrite Hskip.
    rewrite (IH ltac:(discriminate) Hxs Hwxs lv lv' rest fuel) by lia.
    reflexivity.
Qed.

Lemma member_unfold lv k v s :
  member lv (k, v) ++ s
  = 34 :: flat_map escape_char k ++ 34 :: 58 :: 32 :: iterencode lv v ++ s.
Proof.
  unfold member, encode_basestring_ascii. cbn [fst snd app].
  rewrite <- !app_assoc. reflexivity.
Qed.

Lemma skip_ws_space s : skip_ws (32 :: s) = skip_ws s.
Proof. reflexivity. Qed.

Lemma scan_members_join d :
  d <> [] -> Forall (fun kv => roundtrips (snd kv)) d ->
  forallb (fun kv => valid_str (fst kv) && wf_json (snd kv)) d = true ->
  forall lv lv' rest fuel,
    (list_sum (map (fun kv => S (sz (snd kv))) d) <= fuel)%nat ->
    scan_members fuel
      (join (44 :: newline_indent lv) (map (member lv) d)
         ++ newline_indent lv' ++ 125 :: rest)
    = Some (d, rest).
Proof.
  induction d as [|[k v] xs IH]; [congruence|].
  intros _ HP Hwf lv lv' rest fuel Hfuel.
  inversion HP as [|? ? Hx Hxs]; subst. cbn [snd] in Hx.
  cbn [forallb fst snd] in Hwf. apply andb_true_iff in Hwf as [Hwx Hwxs].
  apply andb_true_iff in Hwx as [Hk Hv].
  cbn [map list_sum fold_right snd] in Hfuel.
  fold (list_sum (map (fun kv => S (sz (snd kv))) xs)) in Hfuel.
  destruct fuel as [|fuel]; [lia|].
  destruct xs as [|y ys].
  - cbn [map join]. rewrite member_unfold, scan_members_eq.
    rewrite scanstring_encode by assumption.
    cbn [skip_ws]. change (is_ws 58) with false. cbv iota.
    change (58 =? 58) with true. cbv iota.
    rewrite skip_ws_space, skip_ws_iterencode.
    rewrite (Hx Hv lv _ fuel (delim_indent _ _)) by lia.
    rewrite skip_ws_indent. reflexivity.
  - change (join (44 :: newline_indent lv) (map (member lv) ((k, v) :: y :: ys)))
      with (member lv (k, v) ++ (44 :: newline_indent lv)
              ++ join (44 :: newline_indent lv) (map (member lv) (y :: ys))).
    rewrite <- !app_assoc, member_unfold, scan_members_eq.
    rewrite scanstring_encode by assumption.
    cbn [skip_ws]. change (is_ws 58) with false. cbv iota.
    change (58 =? 58) with true. cbv iota.
    rewrite skip_ws_space, skip_ws_iterencode.
    rewrite (Hx Hv lv _ fuel) by (reflexivity || lia).
    cbn [app skip_ws]. change (is_ws 44) with false. cbv iota.
    change (44 =? 125) with false. change (44 =? 44) with true. cbv iota.
    rewrite skip_ws_indent.
    assert (Hskip : forall s, skip_ws (join (44 :: newline_indent lv) (map (member lv) (y :: ys)) ++ s)
                   = join (44 :: newline_indent lv) (map (member lv) (y :: ys)) ++ s).
    { intros s. destruct ys; cbn [join map]; reflexivity. }
    rewrite Hskip.
    rewrite (IH ltac:(discriminate) Hxs Hwxs lv lv' rest fuel) by lia.
    reflexivity.
Qed.

Lemma dict_set_fresh k v d :
  k ∉ map fst d -> dict_set k v d = d ++ [(k, v)].
Proof.
  induction d as [|[k' v'] d IH]; intros Hk; [reflexivity|].
  cbn [map fst] in Hk. apply not_elem_of_cons in Hk as [Hne Hk].
  cbn [dict_set app]. destruct (decide (k' = k)); [congruence|].
  rewrite IH by assumption. reflexivity.
Qed.

Lemma dict_of_pairs_nodup d : NoDup (map fst d) -> dict_of_pairs d = d.
Proof.
  unfold dict_of_pairs.
  enough (H : forall acc, NoDup (map fst (acc ++ d)) ->
              fold_left (fun d kv => dict_set (fst kv) (snd kv) d) d acc = acc ++ d).
  { intros Hd. apply (H []). exact Hd. }
  induction d as [|[k v] d IH]; intros acc Hnd.
  - cbn. rewrite app_nil_r. reflexivity.
  - cbn [fold_left fst snd].
    assert (Hk : k ∉ map fst acc).
    { rewrite map_app in Hnd. apply NoDup_app in Hnd as (_ & Hdisj & _).
      intros Hin. apply (Hdisj k Hin). cbn. left. }
    rewrite dict_set_fresh by assumption.
    rewrite IH; rewrite <- app_assoc; [reflexivity|exact Hnd].
Qed.

Lemma start_char_not_close c : start_char c = true -> (c =? 93) = false /\ (c =? 125) = false.
Proof.
  intros H%start_char_cases. rewrite !N.eqb_neq. lia.
Qed.

Theorem scan_once_iterencode o : roundtrips o.
Proof.
  induction o as [|z|s|l IH|d IH] using json_nested_ind;
    intros Hwf level rest fuel Hrest Hfuel;
    (destruct fuel as [|fuel]; [cbn [sz] in Hfuel; lia|]).
  - reflexivity.
  - destruct (int_repr_head z) as (c & r & Hc & Hd).
    cbn [iterencode]. pose proof (scan_number_repr z rest (delim_int_follow _ Hrest)) as Hs.
    rewrite Hc in *. cbn [app] in *. rewrite scan_once_number by assumption. exact Hs.
  - cbn [iterencode wf_json] in *. unfold encode_basestring_ascii.
    cbn [app]. rewrite <- app_assoc. cbn [app].
    rewrite scan_once_string, scanstring_encode by assumption. reflexivity.
  - destruct l as [|x xs]; [reflexivity|].
    cbn [wf_json] in Hwf. cbn [sz] in Hfuel.
    change (iterencode level (JList (x :: xs)))
      with (91 :: newline_indent (S level)
              ++ join (44 :: newline_indent (S level)) (map (iterencode (S level)) (x :: xs))
              ++ newline_indent level ++ [93]).
    cbn [app]. rewrite <- !app_assoc. cbn [app].
    rewrite scan_once_array, skip_ws_indent.
    pose proof (scan_elements_join (x :: xs) ltac:(discriminate) IH Hwf
                  (S level) level rest fuel ltac:(lia)) as Hs.
    destruct (iterencode_head (S level) x) as (c & r & Hc & Hstart).
    assert (Hhead : exists r', join (44 :: newline_indent (S level))
                                 (map (iterencode (S level)) (x :: xs))
                               ++ newline_indent level ++ 93 :: rest = c :: r').
    { destruct xs; cbn [map join]; rewrite Hc; cbn [app]; eauto. }
    destruct Hhead as [r' Hr']. rewrite Hr' in *.
    rewrite skip_ws_start by assumption.
    rewrite (proj1 (start_char_not_close c Hstart)), Hs. reflexivity.
  - destruct d as [|[k v] xs]; [reflexivity|].
    cbn [wf_json] in Hwf. apply andb_true_iff in Hwf as [Hwf Hnd].
    apply bool_decide_eq_true in Hnd. cbn [sz] in Hfuel.
    change (iterencode level (JDict ((k, v) :: xs)))
      with (123 :: newline_indent (S level)
              ++ join (44 :: newline_indent (S level)) (map (member (S level)) ((k, v) :: xs))
              ++ newline_indent level ++ [125]).
    cbn [app]. rewrite <- !app_assoc. cbn [app].
    rewrite scan_once_object, skip_ws_indent.
    pose proof (scan_members_join ((k, v) :: xs) ltac:(discriminate) IH Hwf
                  (S level) level rest fuel ltac:(lia)) as Hs.
    assert (Hhead : exists r', join (44 :: newline_indent (S level))
                                 (map (member (S level)) ((k, v) :: xs))
                               ++ newline_indent level ++ 125 :: rest = 34 :: r').
    { destruct xs; cbn [map join]; eauto. }
    destruct Hhead as [r' Hr']. rewrite Hr' in *.
    cbn [skip_ws]. change (is_ws 34) with false. cbv iota.
    change (34 =? 125) with false. cbv iota.
    rewrite Hs, (dict_of_pairs_nodup _ Hnd). reflexivity.
Qed.

Lemma join_length sep (items : list str) :
  sep <> [] ->
  (list_sum (map (fun x => S (length x)) items) <= S (length (join sep items)))%nat.
Proof.
  intros Hsep. destruct sep as [|c sep]; [congruence|].
  induction items as [|x [|y ys] IH].
  - cbn. lia.
  - cbn. lia.
  - change (join (c :: sep) (x :: y :: ys)) with (x ++ (c :: sep) ++ join (c :: sep) (y :: ys)).
    rewrite !length_app.
    change (list_sum (map (fun x => S (length x)) (x :: y :: ys)))
      with (S (length x) + list_sum (map (fun x => S (length x)) (y :: ys)))%nat.
    cbn [length]. lia.
Qed.

Lemma list_sum_le {A} (f g : A -> nat) l :
  Forall (fun x => f x <= g x)%nat l ->
  (list_sum (map f l) <= list_sum (map g l))%nat.
Proof.
  induction 1 as [|x l Hx Hl IH]; [reflexivity|].
  cbn [map list_sum fold_right]. fold (list_sum (map f l)) (list_sum (map g l)). lia.
Qed.

Lemma sz_le_length o : forall lv, (sz o <= length (iterencode lv o))%nat.
Proof.
  induction o as [|z|s|l IH|d IH] using json_nested_ind; intros lv;
    try (match goal with
         | |- (_ <= length (iterencode _ ?o))%nat =>
             destruct (iterencode_head lv o) as (c & r & Hc & _)
         end; cbn [sz]; rewrite Hc; cbn [length]; lia).
  - destruct l as [|x xs]; [cbv; lia|].
    change (iterencode lv (JList (x :: xs)))
      with (91 :: newline_indent (S lv)
              ++ join (44 :: newline_indent (S lv)) (map (iterencode (S lv)) (x :: xs))
              ++ newline_indent lv ++ [93]).
    cbn [sz length]. rewrite !length_app.
    pose proof (join_length (44 :: newline_indent (S lv)) (map (iterencode (S lv)) (x :: xs))
                  ltac:(discriminate)) as Hj.
    rewrite map_map in Hj.
    pose proof (list_sum_le (fun x => S (sz x)) (fun x => S (length (iterencode (S lv) x))) (x :: xs)) as Hle.
    cbn [length]. unfold newline_indent at 1 3. cbn [length].
    enough (list_sum (map (fun x => S (sz x)) (x :: xs))
            <= list_sum (map (fun x => S (length (iterencode (S lv) x))) (x :: xs)))%nat by lia.
    apply Hle. eapply Forall_impl; [exact IH|]. cbv beta. intros y Hy. specialize (Hy (S lv)). lia.
  - destruct d as [|kv xs]; [cbv; lia|].
    change (iterencode lv (JDict (kv :: xs)))
      with (123 :: newline_indent (S lv)
              ++ join (44 :: newline_indent (S lv)) (map (member (S lv)) (kv :: xs))
              ++ newline_indent lv ++ [125]).
    cbn [sz length]. rewrite !length_app.
    pose proof (join_length (44 :: newline_indent (S lv)) (map (member (S lv)) (kv :: xs))
                  ltac:(discriminate)) as Hj.
    rewrite map_map in Hj.
    pose proof (list_sum_le (fun kv => S (sz (snd kv))) (fun kv => S (length (member (S lv) kv))) (kv :: xs)) as Hle.
    cbn [length]. unfold newline_indent at 1 3. cbn [length].
    enough (list_sum (map (fun kv => S (sz (snd kv))) (kv :: xs))
            <= list_sum (map (fun kv => S (length (member (S lv) kv))) (kv :: xs)))%nat by lia.
    apply Hle. eapply Forall_impl; [exact IH|]. cbv beta. intros y Hy. specialize (Hy (S lv)).
    unfold member. change (lit ": ") with [58; 32]. rewrite !length_app. cbn [length]. lia.
Qed.

Theorem loads_dumps o : wf_json o = true -> loads (dumps o) = Some o.
Proof.
  intros Hwf. unfold loads, dumps.
  rewrite <- (app_nil_r (iterencode 0 o)) at 2.
  rewrite skip_ws_iterencode.
  rewrite (scan_once_iterencode o Hwf 0%nat [] _ eq_refl).
  - reflexivity.
  - pose proof (sz_le_length o 0%nat). lia.
Qed.

(** Outside Unicode text the round trip can fail: a high and a low
    surrogate that are two characters of a string are decoded as one. *)
Example surrogates_are_joined :
  loads (dumps (JStr [0xd83d; 0xde00])) = Some (JStr [0x1f600]).
Proof. vm_compute. reflexivity. Qed.

End JsonFacts.

(** * Facts about the response generator *)

Module GatewayFacts.
Import Py Gateway.

Lemma drain_spec chunks acc :
  drain chunks acc = (fragments chunks, acc ++ concat (fragments chunks)).
Proof.
  revert acc. induction chunks as [|c chunks IH]; intros acc.
  - cbn. rewrite app_nil_r. reflexivity.
  - cbn [drain fragments]. destruct (text c) as [t|].
    + rewrite IH. cbn [concat]. rewrite <- app_assoc. reflexivity.
    + apply IH.
Qed.

Section Generator.
Context {St : Type}.
Variable chat_history_append : message -> M St unit.
Variable not_initialized : str.

Lemma generator_not_configured question history st :
  get_gemini_response chat_history_append not_initialized None question history st
  = (Ok [not_initialized], st).
Proof. reflexivity. Qed.

Lemma generator_raised m question history chunks e st :
  m history question = (chunks, Raised e) ->
  get_gemini_response chat_history_append not_initialized (Some m) question history st
  = (Ok (fragments chunks ++ [lit "Sorry, I encountered an error: " ++ e]), st).
Proof.
  intros Hm. unfold get_gemini_response. rewrite Hm, drain_spec. reflexivity.
Qed.

Lemma generator_completed m question history chunks st :
  m history question = (chunks, Completed) ->
  get_gemini_response chat_history_append not_initialized (Some m) question history st
  = (let* _ := chat_history_append (user_message question) in
     let* _ := chat_history_append (model_message (concat (fragments chunks))) in
     ret (fragments chunks)) st.
Proof.
  intros Hm. unfold get_gemini_response. rewrite Hm, drain_spec. reflexivity.
Qed.
End Generator.

End GatewayFacts.

(** * Relations preserved by computations *)

Module MonadFacts.
Import Py Gateway.

Section Preserves.
Context {St : Type} (R : relation St) `{!PreOrder R}.

Lemma preserves_ret {A} (a : A) : preserves R (ret a).
Proof. intros st. reflexivity. Qed.

Lemma preserves_raise {A} e : preserves R (@raise St A e).
Proof. intros st. reflexivity. Qed.

Lemma preserves_gets {A} (f : St -> A) : preserves R (gets f).
Proof. intros st. reflexivity. Qed.

Lemma preserves_bind {A B} (c : M St A) (k : A -> M St B) :
  preserves R c -> (forall a, preserves R (k a)) -> preserves R (bind c k).
Proof.
  intros Hc Hk st. unfold exec, bind. specialize (Hc st). unfold exec in Hc.
  destruct (c st) as [[a|e] st1]; cbn [snd] in *.
  - etransitivity; [exact Hc|]. apply Hk.
  - exact Hc.
Qed.

Lemma preserves_generator (append : message -> M St unit) msg model question history :
  (forall m, preserves R (append m)) ->
  preserves R (get_gemini_response append msg model question history).
Proof.
  intros Happ. unfold get_gemini_response.
  destruct model as [m|]; [|apply preserves_ret].
  destruct (m history question) as [chunks ending].
  destruct (drain chunks []) as [yielded full].
  destruct ending; [|apply preserves_ret].
  apply preserves_bind; [apply Happ|intros _].
  apply preserves_bind; [apply Happ|intros _].
  apply preserves_ret.
Qed.
End Preserves.

Lemma exec_bind {St A B} (c : M St A) (k : A -> M St B) st :
  exec (bind c k) st =
  match c st with
  | (Ok a, st1) => exec (k a) st1
  | (Raise e, st1) => st1
  end.
Proof. unfold exec, bind. destruct (c st) as [[a|e] st1]; reflexivity. Qed.

Lemma snd_bind {St A B} (c : M St A) (k : A -> M St B) st :
  snd (bind c k st) =
  match c st with
  | (Ok a, st1) => snd (k a st1)
  | (Raise e, st1) => st1
  end.
Proof. apply exec_bind. Qed.

End MonadFacts.

(** * Facts about tour1.py *)

Module Tour1Facts.
Import Py Json Gateway MonadFacts TOUR1.

#[local] Instance evolves_preorder : PreOrder evolves.
Proof.
  split.
  - intros st Hinv. repeat split; try apply Hinv; auto.
    intros l old H. exists []. rewrite app_nil_r. exact H.
  - intros st st1 st2 H1 H2 Hinv.
    destruct (H1 Hinv) as (Hinv1 & Hn1 & Hc1 & Hg1 & Hf1 & Hs1).
    destruct (H2 Hinv1) as (Hinv2 & Hn2 & Hc2 & Hg2 & Hf2 & Hs2).
    split; [exact Hinv2|]. split; [lia|]. split; [|split; [|split]].
    + destruct Hc2 as [Hc2|Hc2]; [rewrite Hc2; destruct Hc1; [left|right]; lia || assumption|right; lia].
    + intros l old Hl. destruct (Hg1 l old Hl) as [e1 He1].
      destruct (Hg2 l _ He1) as [e2 He2]. exists (e1 ++ e2).
      rewrite He2, app_assoc. reflexivity.
    + intros l Hne Hl. rewrite <- (Hf1 l Hne Hl). apply Hf2.
      * destruct Hc1 as [->|Hc1]; [exact Hne|].
        destruct Hinv as (Hlt & _). specialize (Hlt l Hl). lia.
      * rewrite (Hf1 l Hne Hl). exact Hl.
    + etransitivity; eassumption.
Qed.

(** Computations that touch neither the heap, nor the binding of the active
    conversation, nor the saved itineraries. *)
Lemma evolves_same st st' :
  heap st' = heap st -> next_loc st' = next_loc st ->
  chat_history st' = chat_history st -> saved_itineraries st' = saved_itineraries st ->
  evolves st st'.
Proof.
  intros Hh Hn Hc Hs Hinv. unfold inv. rewrite Hh, Hn, Hc, Hs.
  repeat split; try apply Hinv; auto.
  intros l old H. exists []. rewrite app_nil_r. exact H.
Qed.

Lemma evolves_set_current_trip t : preserves evolves (set_current_trip t).
Proof. intros st. apply evolves_same; reflexivity. Qed.

Lemma evolves_set_trip_stats s : preserves evolves (set_trip_stats s).
Proof. intros st. apply evolves_same; reflexivity. Qed.

Lemma evolves_set_quick_action q : preserves evolves (set_quick_action q).
Proof. intros st. apply evolves_same; reflexivity. Qed.

Lemma evolves_append m : preserves evolves (chat_history_append m).
Proof.
  intros st (Hlt & [old Hold] & Hsaved).
  unfold exec, chat_history_append, modify, store, deref. cbn.
  rewrite Hold. cbn [default from_option]. unfold id.
  split; [|split; [lia|split; [left; reflexivity|split; [|split; [|reflexivity]]]]].
  - split; [|split]; cbn.
    + intros l [v Hv]. apply Hlt.
      destruct (decide (l = chat_history st)) as [->|Hne]; [eauto|].
      rewrite lookup_insert_ne in Hv by congruence. eauto.
    + rewrite lookup_insert_eq. eauto.
    + eapply Forall_impl; [exact Hsaved|]. cbn. intros it [Hit Hne].
      split; [|exact Hne]. rewrite lookup_insert_ne by congruence. exact Hit.
  - intros l v Hv. destruct (decide (l = chat_history st)) as [->|Hne].
    + exists [m]. rewrite lookup_insert_eq. congruence.
    + exists []. rewrite lookup_insert_ne, app_nil_r by congruence. exact Hv.
  - intros l Hne _. rewrite lookup_insert_ne by congruence. reflexivity.
Qed.

Lemma evolves_rebound v st : evolves st (rebound v st).
Proof.
  intros (Hlt & Hchat & Hsaved). unfold rebound, exec. cbn.
  assert (Hfresh : heap st !! next_loc st = None).
  { destruct (heap st !! next_loc st) eqn:E; [|reflexivity].
    specialize (Hlt (next_loc st) ltac:(eauto)). lia. }
  split; [|split; [lia|split; [right; lia|split; [|split; [|reflexivity]]]]].
  - split; [|split]; cbn.
    + intros l [x Hx]. destruct (decide (l = next_loc st)) as [->|Hne]; [lia|].
      rewrite lookup_insert_ne in Hx by congruence.
      specialize (Hlt l ltac:(eauto)). lia.
    + rewrite lookup_insert_eq. eauto.
    + eapply Forall_impl; [exact Hsaved|]. cbn. intros it [Hit Hne].
      assert (it_chat_history it <> next_loc st).
      { specialize (Hlt _ Hit). lia. }
      split; [|assumption]. rewrite lookup_insert_ne by congruence. exact Hit.
  - intros l old Hl. exists []. rewrite app_nil_r.
    rewrite lookup_insert_ne; [exact Hl|]. intros <-. congruence.
  - intros l _ [x Hx]. rewrite lookup_insert_ne; [reflexivity|]. intros <-. congruence.
Qed.

Lemma evolves_rebind {A} v (k : M state A) :
  preserves evolves k ->
  preserves evolves (let* fresh := new_list v in let* _ := set_chat_history fresh in k).
Proof.
  intros Hk st. unfold exec. cbn.
  etransitivity; [apply (evolves_rebound v st)|]. apply Hk.
Qed.

Lemma evolves_save destination duration interests style now :
  preserves evolves (save_itinerary destination duration interests style now).
Proof.
  intros st (Hlt & Hchat & Hsaved). unfold exec. cbn.
  assert (Hfresh : heap st !! next_loc st = None).
  { destruct (heap st !! next_loc st) eqn:E; [|reflexivity].
    specialize (Hlt (next_loc st) ltac:(eauto)). lia. }
  assert (Hne : chat_history st <> next_loc st).
  { specialize (Hlt _ Hchat). lia. }
  split; [|split; [lia|split; [left; reflexivity|split; [|split]]]].
  - split; [|split]; cbn.
    + intros l [x Hx]. destruct (decide (l = next_loc st)) as [->|Hl]; [lia|].
      rewrite lookup_insert_ne in Hx by congruence.
      specialize (Hlt l ltac:(eauto)). lia.
    + rewrite lookup_insert_ne by congruence. exact Hchat.
    + apply Forall_app. split.
      * eapply Forall_impl; [exact Hsaved|]. cbn. intros it [Hit Hit'].
        assert (it_chat_history it <> next_loc st).
        { specialize (Hlt _ Hit). lia. }
        split; [|assumption]. rewrite lookup_insert_ne by congruence. exact Hit.
      * apply Forall_singleton. cbn. rewrite lookup_insert_eq. split; [eauto|congruence].
  - intros l old Hl. exists []. rewrite app_nil_r.
    rewrite lookup_insert_ne; [exact Hl|]. intros <-. congruence.
  - intros l _ [x Hx]. rewrite lookup_insert_ne; [reflexivity|]. intros <-. congruence.
  - cbn. apply prefix_app_r. reflexivity.
Qed.

Lemma evolves_load index : preserves evolves (load_saved_itinerary index).
Proof.
  intros st. unfold load_saved_itinerary, exec, bind, gets. cbn.
  destruct (py_index (saved_itineraries st) index) as [it|]; [|reflexivity].
  cbn. etransitivity; [apply (evolves_rebound (deref (heap st) (it_chat_history it)) st)|].
  apply evolves_same; reflexivity.
Qed.

Lemma evolves_generator model question history :
  preserves evolves (get_gemini_response model question history).
Proof. apply preserves_generator; [apply _|]. apply evolves_append. Qed.

Lemma evolves_subscript d k : preserves evolves (subscript d k).
Proof. intros st. unfold subscript. destruct (dict_get k d); reflexivity. Qed.

Ltac evolves_step :=
  match goal with
  | |- preserves evolves (bind _ _) => apply preserves_bind; [apply _| |intros ?]
  | |- preserves evolves (ret _) => apply preserves_ret; apply _
  | |- preserves evolves rerun => apply preserves_raise; apply _
  | |- preserves evolves (raise _) => apply preserves_raise; apply _
  | |- preserves evolves (gets _) => apply preserves_gets; apply _
  | |- preserves evolves (subscript _ _) => apply evolves_subscript
  | |- preserves evolves (save_itinerary _ _ _ _ _) => apply evolves_save
  | |- preserves evolves (load_saved_itinerary _) => apply evolves_load
  | |- preserves evolves (get_gemini_response _ _ _) => apply evolves_generator
  | |- preserves evolves (set_current_trip _) => apply evolves_set_current_trip
  | |- preserves evolves (set_trip_stats _) => apply evolves_set_trip_stats
  | |- preserves evolves (set_quick_action _) => apply evolves_set_quick_action
  | |- preserves evolves (if ?b then _ else _) => destruct b
  | |- preserves evolves (match ?x with _ => _ end) => destruct x
  | |- preserves _ _ => apply _
  end.

Lemma evolves_clear_block t : preserves evolves (clear_block t).
Proof.
  destruct t; try (apply preserves_ret; apply _).
  apply (evolves_rebind [] rerun). apply preserves_raise; apply _.
Qed.

Lemma evolves_save_block now t : preserves evolves (save_block now t).
Proof. unfold save_block. repeat evolves_step. Qed.

Lemma evolves_export_block now : preserves evolves (export_block now).
Proof. unfold export_block, export_chat_history. repeat evolves_step. Qed.

Lemma evolves_load_block t : preserves evolves (load_block t).
Proof. unfold load_block. repeat evolves_step. Qed.

Lemma evolves_quick_block t : preserves evolves (quick_block t).
Proof. unfold quick_block. repeat evolves_step. Qed.

Lemma evolves_generate_block model w t : preserves evolves (generate_block model w t).
Proof.
  unfold generate_block. destruct t; try (apply preserves_ret; apply _).
  destruct (_ || _); [apply preserves_ret; apply _|].
  destruct (is_none model); [apply preserves_ret; apply _|].
  apply evolves_rebind. repeat evolves_step.
Qed.

Lemma evolves_followup_block model t : preserves evolves (followup_block model t).
Proof. unfold followup_block. repeat evolves_step. Qed.

Lemma evolves_script model now w t : preserves evolves (script model now w t).
Proof.
  unfold script.
  apply preserves_bind; [apply _|apply evolves_clear_block|intros _].
  apply preserves_bind; [apply _|apply evolves_save_block|intros _].
  apply preserves_bind; [apply _|apply evolves_export_block|intros _].
  apply preserves_bind; [apply _|apply evolves_load_block|intros _].
  apply preserves_bind; [apply _|apply evolves_quick_block|intros _].
  apply preserves_bind; [apply _|apply evolves_generate_block|intros _].
  apply evolves_followup_block.
Qed.

Lemma evolves_step_run st r : evolves st (step st r).
Proof. apply evolves_script. Qed.

Lemma evolves_run_all rs st : evolves st (run_all rs st).
Proof.
  revert st. induction rs as [|r rs IH]; intros st; [reflexivity|].
  cbn [run_all fold_left]. etransitivity; [apply (evolves_step_run st r)|]. apply IH.
Qed.

Lemma inv_init : inv init_state.
Proof.
  split; [|split].
  - intros l [x Hx]. cbn in *. apply lookup_singleton_Some in Hx as [<- _]. lia.
  - cbn. rewrite lookup_singleton_eq. eauto.
  - constructor.
Qed.

Lemma inv_run_all rs : inv (run_all rs init_state).
Proof. apply (evolves_run_all rs init_state), inv_init. Qed.


(** ** Components of the state that a computation leaves alone *)

#[local] Instance keeps_preorder {A} (f : state -> A) : PreOrder (keeps f).
Proof.
  split; [intros st; reflexivity|].
  intros st1 st2 st3 H1 H2. unfold keeps in *. congruence.
Qed.

Ltac keeps_step :=
  match goal with
  | |- preserves _ (bind _ _) => apply preserves_bind; [apply _| |intros ?]
  | |- preserves _ (if ?b then _ else _) => destruct b
  | |- preserves _ (match ?x with _ => _ end) => destruct x
  | |- preserves _ (get_gemini_response _ _ _) =>
      apply preserves_generator; [apply _|intros ?]
  | |- preserves _ _ => intros ?; reflexivity
  end.

Ltac keeps_blocks :=
  unfold save_block, export_block, quick_block, followup_block, save_itinerary,
    export_chat_history, list_copy, subscript;
  repeat keeps_step.

Lemma export_block_id now st : export_block now st = (Ok tt, st).
Proof.
  unfold export_block, export_chat_history, bind, gets, ret.
  destruct (is_empty (store st)); reflexivity.
Qed.

(** *** The statistics *)

Lemma stats_clear_block t : preserves (keeps trip_stats) (clear_block t).
Proof. unfold clear_block. repeat keeps_step. Qed.

Lemma stats_save_block now t : preserves (keeps trip_stats) (save_block now t).
Proof. keeps_blocks. Qed.

Lemma stats_export_block now : preserves (keeps trip_stats) (export_block now).
Proof. keeps_blocks. Qed.

Lemma stats_load_block t : preserves (keeps trip_stats) (load_block t).
Proof. unfold load_block, load_saved_itinerary, list_copy. repeat keeps_step. Qed.

Lemma stats_quick_block t : preserves (keeps trip_stats) (quick_block t).
Proof. keeps_blocks. Qed.

Lemma stats_followup_block model t : preserves (keeps trip_stats) (followup_block model t).
Proof. keeps_blocks. Qed.

Lemma stats_generator model question history :
  preserves (keeps trip_stats) (get_gemini_response model question history).
Proof. repeat keeps_step. Qed.

Lemma script_generate model now w st :
  attempts model w ClickGenerate = true ->
  script model now w ClickGenerate st
  = (let* _ := get_gemini_response model (model_prompt w) [] in rerun) (prepared w st).
Proof.
  intros Ha. unfold attempts in Ha. apply andb_true_iff in Ha as [H1 H2].
  apply negb_true_iff in H1, H2.
  unfold script, bind at 1 2 3. cbn [clear_block save_block ret].
  rewrite export_block_id. unfold bind at 1 2. cbn [load_block quick_block ret].
  unfold generate_block. rewrite H1, H2.
  destruct model as [m|]; [|discriminate].
  unfold prepared, rebound, get_gemini_response, Gateway.get_gemini_response, bind, exec.
  cbn [new_list set_chat_history set_current_trip set_trip_stats gets modify fst snd].
  destruct (m [] (model_prompt w)) as [chunks ending].
  destruct (drain chunks []) as [yielded full].
  destruct ending; reflexivity.
Qed.

Lemma script_not_generate model w t st :
  attempts model w t = false ->
  generate_block model w t st = (Ok tt, st).
Proof.
  intros Ha. destruct t; try reflexivity. unfold attempts in Ha. cbn [generate_block].
  destruct (_ || _); [reflexivity|]. destruct (is_none model); [reflexivity|discriminate].
Qed.

Lemma step_stats st r :
  trip_stats (step st r)
  = if attempts (run_model r) (run_widgets r) (run_trigger r)
    then update_stats (run_widgets r) (trip_stats st)
    else trip_stats st.
Proof.
  destruct r as [model now w t]. unfold step. cbn [run_model run_now run_widgets run_trigger].
  destruct (attempts model w t) eqn:Ha.
  - assert (t = ClickGenerate) as -> by (destruct t; try discriminate; reflexivity).
    unfold exec. rewrite script_generate by assumption.
    assert (H : preserves (keeps trip_stats)
                  (let* _ := get_gemini_response model (model_prompt w) [] in
                   (rerun : M state unit))).
    { apply preserves_bind; [apply _|apply stats_generator|].
      intros _. apply preserves_raise; apply _. }
    specialize (H (prepared w st)). unfold keeps, exec in H. rewrite H. reflexivity.
  - enough (H : preserves (keeps trip_stats) (script model now w t)) by apply H.
    unfold script.
    apply preserves_bind; [apply _|apply stats_clear_block|intros _].
    apply preserves_bind; [apply _|apply stats_save_block|intros _].
    apply preserves_bind; [apply _|apply stats_export_block|intros _].
    apply preserves_bind; [apply _|apply stats_load_block|intros _].
    apply preserves_bind; [apply _|apply stats_quick_block|intros _].
    apply preserves_bind; [apply _| |intros _; apply stats_followup_block].
    intros st'. unfold exec. rewrite script_not_generate by assumption. reflexivity.
Qed.


(** *** The binding of the active conversation *)

Lemma py_index_nat {A} (l : list A) (i : nat) : py_index l (Z.of_nat i) = l !! i.
Proof.
  unfold py_index. rewrite (proj2 (Z.leb_le 0 (Z.of_nat i))) by lia.
  rewrite Nat2Z.id. reflexivity.
Qed.

Lemma binding_save_block now t : preserves (keeps chat_history) (save_block now t).
Proof. keeps_blocks. Qed.


Lemma binding_quick_block t : preserves (keeps chat_history) (quick_block t).
Proof. keeps_blocks. Qed.

Lemma binding_followup_block model t :
  preserves (keeps chat_history) (followup_block model t).
Proof. keeps_blocks. Qed.

Lemma store_rebound v st : store (rebound v st) = v.
Proof. unfold store, deref, rebound, exec. cbn. rewrite lookup_insert_eq. reflexivity. Qed.

Lemma binding_rebound v st : chat_history (rebound v st) = next_loc st.
Proof. reflexivity. Qed.




(** The script after a successful form validation with a configured
    model: the conversation is a newly allocated list that is empty or
    holds the one turn of this generation. *)
Lemma step_generate m now w st :
  attempts (Some m) w ClickGenerate = true ->
  let st' := exec (script (Some m) now w ClickGenerate) st in
  chat_history st' = next_loc st /\
  match m [] (model_prompt w) with
  | (chunks, Completed) =>
      store st' = [user_message (model_prompt w); model_message (concat (fragments chunks))]
  | (_, Raised _) => store st' = []
  end.
Proof.
  intros Ha st'. subst st'. unfold exec. rewrite script_generate by assumption.
  rewrite snd_bind. unfold get_gemini_response.
  destruct (m [] (model_prompt w)) as [chunks [|e]] eqn:Hm.
  - rewrite (GatewayFacts.generator_completed _ _ _ _ _ _ _ Hm).
    cbn. split; [reflexivity|].
    unfold store, deref. cbn. rewrite !lookup_insert_eq. reflexivity.
  - rewrite (GatewayFacts.generator_raised _ _ _ _ _ _ _ _ Hm).
    cbn. split; [reflexivity|].
    unfold store, deref. cbn. rewrite !lookup_insert_eq. reflexivity.
Qed.

Lemma script_clear model now w st :
  exec (script model now w ClickClear) st = rebound [] st.
Proof. reflexivity. Qed.

Lemma load_some index it st :
  py_index (saved_itineraries st) index = Some it ->
  load_saved_itinerary index st = (Ok tt, loaded it st).
Proof.
  intros H. unfold load_saved_itinerary, bind, gets. rewrite H. reflexivity.
Qed.

Lemma load_none index st :
  py_index (saved_itineraries st) index = None ->
  load_saved_itinerary index st = (Raise IndexError, st).
Proof.
  intros H. unfold load_saved_itinerary, bind, gets. rewrite H. reflexivity.
Qed.

Lemma loaded_spec it st :
  chat_history (loaded it st) = next_loc st /\
  store (loaded it st) = deref (heap st) (it_chat_history it) /\
  current_trip (loaded it st) =
    Some [(lit "destination", it_destination it); (lit "duration", it_duration it);
          (lit "interests", it_interests it); (lit "style", it_style it)] /\
  saved_itineraries (loaded it st) = saved_itineraries st /\
  trip_stats (loaded it st) = trip_stats st.
Proof.
  split; [reflexivity|]. split; [|repeat split].
  unfold loaded, store, deref, rebound, exec. cbn. rewrite lookup_insert_eq. reflexivity.
Qed.

Lemma load_block_valid idx it st :
  saved_itineraries st !! idx = Some it ->
  load_block (ClickLoad idx) st = (Raise RerunException, loaded it st).
Proof.
  intros Hit. unfold load_block, bind at 1, gets.
  pose proof (lookup_lt_Some _ _ _ Hit) as Hlt.
  rewrite (proj2 (Nat.ltb_lt idx (length (saved_itineraries st)))) by exact Hlt.
  unfold bind. rewrite (load_some _ it) by (rewrite py_index_nat; exact Hit).
  reflexivity.
Qed.

Lemma script_load model now w idx it st :
  saved_itineraries st !! idx = Some it ->
  exec (script model now w (ClickLoad idx)) st = loaded it st.
Proof.
  intros Hit. unfold exec, script.
  rewrite snd_bind. cbn [clear_block ret].
  rewrite snd_bind. cbn [save_block ret].
  rewrite snd_bind, export_block_id.
  rewrite snd_bind, (load_block_valid idx it st Hit). reflexivity.
Qed.

Lemma script_keeps_binding model now w t st :
  t <> ClickClear -> attempts model w t = false ->
  (forall idx, t = ClickLoad idx -> saved_itineraries st !! idx = None) ->
  chat_history (exec (script model now w t) st) = chat_history st.
Proof.
  intros Hclear Ha Hload. unfold exec, script, bind at 1.
  assert (clear_block t st = (Ok tt, st)) as -> by (destruct t; congruence || reflexivity).
  rewrite snd_bind.
  pose proof (binding_save_block now t st) as Hs. unfold keeps, exec in Hs.
  destruct (save_block now t st) as [[[]|e] st1] eqn:Hsave; cbn [snd] in Hs; [|exact Hs].
  rewrite snd_bind, export_block_id, snd_bind.
  assert (load_block t st1 = (Ok tt, st1)) as ->.
  { destruct t; try reflexivity. unfold load_block, bind, gets.
    specialize (Hload idx eq_refl). apply lookup_ge_None in Hload.
    cbn [save_block] in Hsave. injection Hsave as <-.
    rewrite (proj2 (Nat.ltb_ge idx (length (saved_itineraries st)))) by exact Hload.
    reflexivity. }
  rewrite <- Hs.
  enough (H : preserves (keeps chat_history)
                (let* _ := quick_block t in
                 let* _ := generate_block model w t in followup_block model t)) by apply H.
  apply preserves_bind; [apply _|apply binding_quick_block|intros _].
  apply preserves_bind; [apply _| |intros _; apply binding_followup_block].
  intros st2. unfold exec. rewrite script_not_generate by assumption. reflexivity.
Qed.


(** *** The "Save Trip" button *)

Lemma saved_followup_block model t :
  preserves (keeps saved_itineraries) (followup_block model t).
Proof. keeps_blocks. Qed.

Lemma save_block_saves now st trip d n i s :
  current_trip st = Some trip ->
  dict_get (lit "destination") trip = Some d ->
  dict_get (lit "duration") trip = Some n ->
  dict_get (lit "interests") trip = Some i ->
  dict_get (lit "style") trip = Some s ->
  save_block now ClickSave st = (Ok tt, exec (save_itinerary d n i s now) st).
Proof.
  intros Ht Hd Hn Hi Hs. unfold save_block, bind at 1, gets. rewrite Ht.
  destruct trip as [|kv trip]; [discriminate|].
  unfold bind, subscript. rewrite Hd, Hn, Hi, Hs. reflexivity.
Qed.

Lemma script_save model now w st trip d n i s :
  current_trip st = Some trip ->
  dict_get (lit "destination") trip = Some d ->
  dict_get (lit "duration") trip = Some n ->
  dict_get (lit "interests") trip = Some i ->
  dict_get (lit "style") trip = Some s ->
  saved_itineraries (exec (script model now w ClickSave) st)
  = saved_itineraries st
    ++ [{| it_destination := d; it_duration := n; it_interests := i; it_style := s;
           it_timestamp := now; it_chat_history := next_loc st |}].
Proof.
  intros Ht Hd Hn Hi Hs. unfold exec, script.
  rewrite snd_bind. cbn [clear_block ret].
  rewrite snd_bind, (save_block_saves now st trip d n i s) by assumption.
  rewrite snd_bind, export_block_id.
  rewrite snd_bind. cbn [load_block ret].
  rewrite snd_bind. cbn [quick_block ret].
  rewrite snd_bind. cbn [generate_block ret].
  apply (saved_followup_block model ClickSave).
Qed.


(** *** The exported document *)

Lemma wf_trip_json t : valid_trip t = true -> wf_json (trip_json t) = true.
Proof.
  destruct t as [d|]; [|reflexivity]. cbn [valid_trip trip_json wf_json].
  intros [Hall Hnd]%andb_true_iff. apply andb_true_iff. split.
  - clear Hnd. induction d as [|[k v] d IH]; [reflexivity|].
    cbn [forallb map fst snd] in *. apply andb_true_iff in Hall as [Hkv Hd].
    rewrite (IH Hd), andb_true_r. apply andb_true_iff in Hkv as [Hk Hv].
    rewrite Hk. destruct v; [exact Hv|reflexivity].
  - rewrite map_map. cbn [fst]. exact Hnd.
Qed.

Lemma wf_JStr_list ps : forallb valid_str ps = true -> forallb wf_json (map JStr ps) = true.
Proof.
  induction ps as [|p ps IH]; [reflexivity|]. cbn [forallb map wf_json].
  intros [Hp Hps]%andb_true_iff. rewrite Hp, (IH Hps). reflexivity.
Qed.

Lemma wf_message_json m : valid_message m = true -> wf_json (message_json m) = true.
Proof.
  unfold valid_message. intros [Hr Hps]%andb_true_iff.
  unfold message_json. cbn [wf_json forallb fst snd].
  rewrite Hr, (wf_JStr_list _ Hps). reflexivity.
Qed.

Lemma wf_export_data trip history now :
  valid_trip trip = true -> forallb valid_message history = true -> valid_str now = true ->
  wf_json (export_data trip history now) = true.
Proof.
  intros Ht Hh Hn. unfold export_data. cbn [wf_json forallb fst snd].
  rewrite (wf_trip_json _ Ht), Hn.
  assert (forallb wf_json (map message_json history) = true) as ->.
  { induction history as [|m h IH]; [reflexivity|]. cbn [forallb map] in *.
    apply andb_true_iff in Hh as [Hm Hh]. rewrite (wf_message_json _ Hm), (IH Hh). reflexivity. }
  reflexivity.
Qed.

Lemma collect_json_str ps : collect json_str (map JStr ps) = Some ps.
Proof.
  induction ps as [|p ps IH]; [reflexivity|]. cbn [collect map json_str]. rewrite IH. reflexivity.
Qed.

Lemma read_message_json m : read_message (message_json m) = Some m.
Proof.
  unfold read_message, message_json.
  change (json_get (lit "role") (JDict [(lit "role", JStr (role m));
            (lit "parts", JList (map JStr (parts m)))])) with (Some (JStr (role m))).
  change (json_get (lit "parts") (JDict [(lit "role", JStr (role m));
            (lit "parts", JList (map JStr (parts m)))]))
    with (Some (JList (map JStr (parts m)))).
  cbv iota. rewrite collect_json_str. destruct m; reflexivity.
Qed.

Lemma collect_read_message history :
  collect read_message (map message_json history) = Some history.
Proof.
  induction history as [|m h IH]; [reflexivity|].
  cbn [collect map]. rewrite read_message_json, IH. reflexivity.
Qed.

Lemma loads_export trip history now :
  valid_trip trip = true -> forallb valid_message history = true -> valid_str now = true ->
  loads (dumps (export_data trip history now)) = Some (export_data trip history now).
Proof. intros Ht Hh Hn. apply JsonFacts.loads_dumps, wf_export_data; assumption. Qed.

Lemma read_export trip history now :
  valid_trip trip = true -> forallb valid_message history = true -> valid_str now = true ->
  read_chat_history (dumps (export_data trip history now)) = Some history.
Proof.
  intros Ht Hh Hn. unfold read_chat_history. rewrite loads_export by assumption.
  change (json_get (lit "chat_history") (export_data trip history now))
    with (Some (JList (map message_json history))).
  cbv iota. apply collect_read_message.
Qed.

End Tour1Facts.

(** * Facts about TOUR.py *)

Module TourFacts.
Import Py Gateway MonadFacts TOUR.

Lemma generator_store model question history st :
  let st' := exec (get_gemini_response model question history) st in
  chat_history st' = chat_history st
  \/ exists answer,
       chat_history st' = chat_history st ++ [user_message question; model_message answer].
Proof.
  cbv zeta. unfold exec, get_gemini_response. destruct model as [m|]; [|left; reflexivity].
  destruct (m history question) as [chunks [|e]] eqn:Hm.
  - rewrite (GatewayFacts.generator_completed _ _ _ _ _ _ _ Hm). right.
    exists (concat (fragments chunks)). cbn. rewrite <- app_assoc. reflexivity.
  - rewrite (GatewayFacts.generator_raised _ _ _ _ _ _ _ _ Hm). left. reflexivity.
Qed.

Lemma script_store model w t st :
  let st' := exec (script model w t) st in
  (exists ext, chat_history st' = chat_history st ++ ext)
  \/ chat_history st' = []
  \/ exists question answer,
       chat_history st' = [user_message question; model_message answer].
Proof.
  cbv zeta. assert (Hsame : exists ext, chat_history st = chat_history st ++ ext).
  { exists []. rewrite app_nil_r. reflexivity. }
  destruct t as [| |user_query|]; unfold exec, script.
  - right. left. reflexivity.
  - rewrite snd_bind. cbn [ret]. rewrite snd_bind.
    destruct (is_empty (destination w) || is_empty (interests w)); [left; exact Hsame|].
    destruct (is_none model); [left; exact Hsame|].
    unfold bind, rerun, raise. cbn [set_chat_history modify].
    pose proof (generator_store model (model_prompt w) [] {| chat_history := [] |}) as Hg.
    cbv zeta in Hg. unfold exec in Hg.
    destruct (get_gemini_response model (model_prompt w) [] {| chat_history := [] |})
      as [[yielded|e] st1]; cbn [snd] in *.
    + destruct Hg as [->|[answer ->]]; [right; left; reflexivity|].
      right. right. eauto.
    + destruct Hg as [->|[answer ->]]; [right; left; reflexivity|].
      right. right. eauto.
  - rewrite snd_bind. cbn [ret]. rewrite snd_bind. cbn [ret].
    destruct (is_empty user_query); [left; exact Hsame|].
    rewrite snd_bind. cbn [gets].
    destruct (is_empty (chat_history st)); [left; exact Hsame|].
    destruct (is_none model); [left; exact Hsame|].
    unfold bind, rerun, raise.
    pose proof (generator_store model user_query (chat_history st) st) as Hg.
    cbv zeta in Hg. unfold exec in Hg.
    destruct (get_gemini_response model user_query (chat_history st) st)
      as [[yielded|e] st1]; cbn [snd] in *.
    + left. destruct Hg as [->|[answer ->]]; eauto.
    + left. destruct Hg as [->|[answer ->]]; eauto.
  - left. exact Hsame.
Qed.

End TourFacts.

(** * The properties of the specification *)

Import Py Json Gateway MonadFacts GatewayFacts Tour1Facts.

(** The scenario of the specification: a generation stores two records, a
    user record and then a model record, and a follow-up two more. *)
Example generate_then_follow_up :
  map role (TOUR1.store (TOUR1.step TOUR1.init_state
                           (Examples.press Examples.answers Examples.paris
                              TOUR1.ClickGenerate)))
  = [lit "user"; lit "model"]
  /\ map role (TOUR1.store (TOUR1.run_all
                              [Examples.press Examples.answers Examples.paris
                                 TOUR1.ClickGenerate;
                               Examples.press Examples.answers Examples.paris
                                 (TOUR1.ChatInput (lit "make it cheaper"))]
                              TOUR1.init_state))
     = [lit "user"; lit "model"; lit "user"; lit "model"].
Proof. split; vm_compute; reflexivity. Qed.

(** C1. When the remote call raises after some fragments were yielded (any
    number of them, so also k > 0), the generator of either script yields
    those fragments, then one more fragment that ends with the error
    detail, and stops; the session state, and so the conversation store, is
    exactly what it was before the call: neither the user record nor a
    partial model record is appended. *)
Theorem remote_failure_leaves_store (m : GenerativeModel) question history chunks e :
  m history question = (chunks, Raised e) ->
  let diagnostic := lit "Sorry, I encountered an error: " ++ e in
  (forall st : TOUR.session_state,
      TOUR.get_gemini_response (Some m) question history st
      = (Ok (fragments chunks ++ [diagnostic]), st))
  /\ (forall st : TOUR1.state,
      TOUR1.get_gemini_response (Some m) question history st
      = (Ok (fragments chunks ++ [diagnostic]), st)).
Proof.
  intros Hm diagnostic. split; intros st.
  - apply (generator_raised _ _ _ _ _ _ _ _ Hm).
  - apply (generator_raised _ _ _ _ _ _ _ _ Hm).
Qed.

Lemma remote_failure_leaves_store_witness :
  TOUR1.get_gemini_response (Some Examples.fails_after_two) (lit "make it cheaper") []
    Examples.paris_saved
  = (Ok [lit "Day 1: "; lit "Lou"; lit "Sorry, I encountered an error: quota exceeded"],
     Examples.paris_saved).
Proof.
  exact (proj2 (remote_failure_leaves_store Examples.fails_after_two (lit "make it cheaper") []
                  _ _ eq_refl) Examples.paris_saved).
Defined.

(** C2. When the streamed remote call completes, the generator yields the
    text fragments of the stream and appends exactly two records at the
    tail of the conversation store: the record with role "user" whose one
    part is the input message, then the record with role "model" whose one
    part is the concatenation of the fragments in the order they were
    yielded.  In tour1.py the records go to the list object of the active
    conversation and every other list object is untouched. *)
Theorem completed_call_appends_turn (m : GenerativeModel) question history chunks :
  m history question = (chunks, Completed) ->
  let turn := [ {| role := lit "user"; parts := [question] |};
                {| role := lit "model"; parts := [concat (fragments chunks)] |} ] in
  (forall st : TOUR.session_state,
      result (TOUR.get_gemini_response (Some m) question history) st = Ok (fragments chunks)
      /\ TOUR.chat_history (exec (TOUR.get_gemini_response (Some m) question history) st)
         = TOUR.chat_history st ++ turn)
  /\ (forall st : TOUR1.state,
      let st' := exec (TOUR1.get_gemini_response (Some m) question history) st in
      result (TOUR1.get_gemini_response (Some m) question history) st = Ok (fragments chunks)
      /\ TOUR1.store st' = TOUR1.store st ++ turn
      /\ TOUR1.chat_history st' = TOUR1.chat_history st
      /\ (forall l, l <> TOUR1.chat_history st -> TOUR1.heap st' !! l = TOUR1.heap st !! l)
      /\ TOUR1.saved_itineraries st' = TOUR1.saved_itineraries st
      /\ TOUR1.current_trip st' = TOUR1.current_trip st
      /\ TOUR1.trip_stats st' = TOUR1.trip_stats st).
Proof.
  intros Hm turn. split; intros st.
  - unfold result, exec, TOUR.get_gemini_response.
    rewrite (generator_completed _ _ _ _ _ _ _ Hm). cbn.
    rewrite <- app_assoc. split; reflexivity.
  - cbv zeta. unfold result, exec, TOUR1.get_gemini_response.
    rewrite (generator_completed _ _ _ _ _ _ _ Hm). cbn.
    split; [reflexivity|]. split; [|split; [reflexivity|split; [|repeat split]]].
    + unfold TOUR1.store, TOUR1.deref. cbn. rewrite !lookup_insert_eq. cbn.
      rewrite <- app_assoc. reflexivity.
    + intros l Hl. rewrite !lookup_insert_ne by congruence. reflexivity.
Qed.

Lemma completed_call_appends_turn_witness :
  TOUR1.store (exec (TOUR1.get_gemini_response (Some Examples.answers) (lit "hello") [])
                 TOUR1.init_state)
  = [ {| role := lit "user"; parts := [lit "hello"] |};
      {| role := lit "model"; parts := [lit "Day 1: Louvre"] |} ].
Proof.
  exact (proj1 (proj2 (proj2 (completed_call_appends_turn Examples.answers (lit "hello") []
                                _ eq_refl) TOUR1.init_state))).
Defined.

(** C3, as the code has it.  [load_saved_itinerary(index)] in a well-formed
    state: for [0 <= index < len] the active conversation becomes a newly
    allocated copy of the records of the saved itinerary at [index] and the
    active trip becomes its four saved fields; a negative index down to
    [-len] is not rejected but counted from the end, as Python list
    indexing does; for [index >= len] and [index < -len] the call raises
    IndexError and the state is unchanged. *)
Theorem load_by_index (st : TOUR1.state) (index : Z) :
  TOUR1.inv st ->
  let n := Z.of_nat (length (TOUR1.saved_itineraries st)) in
  let st' := exec (TOUR1.load_saved_itinerary index) st in
  ((0 <= index < n)%Z ->
     exists it, TOUR1.saved_itineraries st !! Z.to_nat index = Some it
                /\ result (TOUR1.load_saved_itinerary index) st = Ok tt
                /\ TOUR1.restored it st st')
  /\ ((- n <= index < 0)%Z ->
     exists it, TOUR1.saved_itineraries st !! Z.to_nat (n + index) = Some it
                /\ result (TOUR1.load_saved_itinerary index) st = Ok tt
                /\ TOUR1.restored it st st')
  /\ ((index < - n \/ n <= index)%Z ->
     TOUR1.load_saved_itinerary index st = (Raise IndexError, st)).
Proof.
  intros Hinv n st'.
  assert (Hrestored : forall it i,
             TOUR1.saved_itineraries st !! i = Some it ->
             py_index (TOUR1.saved_itineraries st) index = Some it ->
             result (TOUR1.load_saved_itinerary index) st = Ok tt /\ TOUR1.restored it st st').
  { intros it i Hi Hidx. subst st'. unfold result, exec. rewrite (load_some _ _ _ Hidx).
    cbn [fst snd]. split; [reflexivity|].
    destruct (loaded_spec it st) as (Hc & Hs & Ht & Hsv & _).
    destruct Hinv as (Hlt & _ & Hsaved).
    assert (Hfresh : TOUR1.heap st !! TOUR1.next_loc st = None).
    { destruct (TOUR1.heap st !! TOUR1.next_loc st) eqn:E; [|reflexivity].
      specialize (Hlt (TOUR1.next_loc st) ltac:(eauto)). lia. }
    unfold TOUR1.restored. rewrite Hc. repeat split; try assumption.
    rewrite Forall_forall in Hsaved.
    destruct (Hsaved it (list_elem_of_lookup_2 _ _ _ Hi)) as [Hsome _].
    specialize (Hlt _ Hsome). lia. }
  split; [|split].
  - intros Hrange.
    destruct (lookup_lt_is_Some_2 (TOUR1.saved_itineraries st) (Z.to_nat index)) as [it Hit].
    { subst n. lia. }
    exists it. split; [exact Hit|]. apply (Hrestored it _ Hit).
    unfold py_index. rewrite (proj2 (Z.leb_le 0 index)) by lia. exact Hit.
  - intros Hrange.
    destruct (lookup_lt_is_Some_2 (TOUR1.saved_itineraries st) (Z.to_nat (n + index))) as [it Hit].
    { subst n. lia. }
    exists it. split; [exact Hit|]. apply (Hrestored it _ Hit).
    unfold py_index. fold n. rewrite (proj2 (Z.leb_gt 0 index)) by lia.
    rewrite (proj2 (Z.leb_le (- n) index)) by lia. exact Hit.
  - intros Hrange. apply load_none. unfold py_index. fold n.
    destruct Hrange as [Hlow|Hhigh].
    + rewrite (proj2 (Z.leb_gt 0 index)) by lia.
      rewrite (proj2 (Z.leb_gt (- n) index)) by lia. reflexivity.
    + rewrite (proj2 (Z.leb_le 0 index)) by lia.
      apply lookup_ge_None. subst n. lia.
Qed.

Lemma load_by_index_witness :
  TOUR1.load_saved_itinerary 1 Examples.rome_active = (Raise IndexError, Examples.rome_active)
  /\ TOUR1.store (exec (TOUR1.load_saved_itinerary 0) Examples.rome_active)
     = TOUR1.store Examples.paris_saved.
Proof.
  pose proof (load_by_index Examples.rome_active 1 (inv_run_all Examples.rome_runs)) as H1.
  pose proof (load_by_index Examples.rome_active 0 (inv_run_all Examples.rome_runs)) as H0.
  split.
  - apply H1. right. vm_compute. discriminate.
  - destruct (proj1 H0) as (it & Hit & _ & Hstore & _).
    + vm_compute. split; [discriminate|reflexivity].
    + rewrite Hstore. vm_compute in Hit. injection Hit as <-. vm_compute. reflexivity.
Defined.

(** C3 as stated fails for negative indices: with one saved itinerary and
    the conversation cleared, [load_saved_itinerary(-1)] is outside
    [0 <= index < len], yet it returns normally and replaces the empty
    active conversation by the two saved records. *)
Lemma negative_index_loads :
  ~ (0 <= -1 < Z.of_nat (length (TOUR1.saved_itineraries Examples.paris_cleared)))%Z
  /\ result (TOUR1.load_saved_itinerary (-1)) Examples.paris_cleared = Ok tt
  /\ TOUR1.store Examples.paris_cleared = []
  /\ length (TOUR1.store (exec (TOUR1.load_saved_itinerary (-1)) Examples.paris_cleared))
     = 2%nat.
Proof.
  split; [lia|]. split; [|split]; vm_compute; reflexivity.
Qed.

(** C4. When the model was never configured ([model] is [None]), the
    generator of either script yields exactly one explanatory fragment and
    stops, and the session state is unchanged, so the conversation store
    has the length it had before the call. *)
Theorem unconfigured_model_yields_one question history :
  (forall st : TOUR.session_state,
      TOUR.get_gemini_response None question history st
      = (Ok [lit "Error: Gemini model is not initialized. Please check your API key."], st))
  /\ (forall st : TOUR1.state,
      TOUR1.get_gemini_response None question history st
      = (Ok [0x274c%N :: lit " Error: Gemini model is not initialized. Please check your API key."],
         st)
      /\ length (TOUR1.store (exec (TOUR1.get_gemini_response None question history) st))
         = length (TOUR1.store st)).
Proof.
  split; intros st; [|split]; try apply generator_not_configured. reflexivity.
Qed.

(** C5, as the code has it.  A run of either script changes the
    conversation store only by appending at its tail, by resetting it to an
    empty list (after which the turn of a new generation may be appended),
    or, in tour1.py, by replacing it wholly with a copy of the records of a
    saved itinerary.  In tour1.py no list object ever loses or changes a
    record: every list object of the heap keeps its records as a prefix,
    and the active conversation is afterwards the same list object, or a
    newly allocated one that is empty or holds one turn, or a newly
    allocated copy of the saved itinerary that was loaded. *)
Theorem store_appended_reset_or_loaded :
  (forall model w t (st : TOUR.session_state),
      let st' := exec (TOUR.script model w t) st in
      (exists ext, TOUR.chat_history st' = TOUR.chat_history st ++ ext)
      \/ TOUR.chat_history st' = []
      \/ exists question answer,
           TOUR.chat_history st' = [user_message question; model_message answer])
  /\ (forall (st : TOUR1.state) (r : TOUR1.run),
      TOUR1.inv st ->
      let st' := TOUR1.step st r in
      (forall l old, TOUR1.heap st !! l = Some old ->
                     exists ext, TOUR1.heap st' !! l = Some (old ++ ext))
      /\ ((TOUR1.chat_history st' = TOUR1.chat_history st
           /\ exists ext, TOUR1.store st' = TOUR1.store st ++ ext)
          \/ (TOUR1.heap st !! TOUR1.chat_history st' = None
              /\ (TOUR1.store st' = []
                  \/ exists question answer,
                       TOUR1.store st' = [user_message question; model_message answer]))
          \/ (TOUR1.heap st !! TOUR1.chat_history st' = None
              /\ exists idx it,
                   TOUR1.run_trigger r = TOUR1.ClickLoad idx
                   /\ TOUR1.saved_itineraries st !! idx = Some it
                   /\ TOUR1.store st' = TOUR1.deref (TOUR1.heap st) (TOUR1.it_chat_history it)))).
Proof.
  split; [apply TourFacts.script_store|].
  intros st [model now w t] Hinv st'.
  destruct (evolves_step_run st (TOUR1.Build_run model now w t) Hinv)
    as (_ & _ & _ & Hgrow & _). fold st' in Hgrow.
  split; [exact Hgrow|].
  assert (Hfresh : TOUR1.heap st !! TOUR1.next_loc st = None).
  { destruct Hinv as (Hlt & _). destruct (TOUR1.heap st !! TOUR1.next_loc st) eqn:E; [|reflexivity].
    specialize (Hlt (TOUR1.next_loc st) ltac:(eauto)). lia. }
  assert (Hkeep : TOUR1.chat_history st' = TOUR1.chat_history st ->
                  TOUR1.chat_history st' = TOUR1.chat_history st
                  /\ exists ext, TOUR1.store st' = TOUR1.store st ++ ext).
  { intros Hsame. split; [exact Hsame|].
    destruct Hinv as (_ & [old Hold] & _). destruct (Hgrow _ _ Hold) as [ext Hext].
    exists ext. unfold TOUR1.store, TOUR1.deref. rewrite Hsame, Hold, Hext. reflexivity. }
  subst st'. unfold TOUR1.step in *.
  cbn [TOUR1.run_model TOUR1.run_now TOUR1.run_widgets TOUR1.run_trigger] in *.
  destruct (TOUR1.attempts model w t) eqn:Ha.
  - assert (t = TOUR1.ClickGenerate) as -> by (destruct t; try discriminate; reflexivity).
    destruct model as [m|]; [|cbn in Ha; rewrite andb_false_r in Ha; discriminate].
    destruct (step_generate m now w st Ha) as [Hc Hs].
    right. left. rewrite Hc. split; [exact Hfresh|].
    destruct (m [] (TOUR1.model_prompt w)) as [chunks [|e]]; eauto.
  - destruct t as [| |idx| | | |];
      try (left; apply Hkeep, script_keeps_binding; [discriminate|assumption|discriminate]).
    { right. left. rewrite script_clear, binding_rebound, store_rebound. auto. }
    destruct (TOUR1.saved_itineraries st !! idx) as [it|] eqn:Hit.
    + right. right. rewrite (script_load model now w idx it st Hit).
      destruct (loaded_spec it st) as (Hc & Hs & _). rewrite Hc.
      split; [exact Hfresh|]. exists idx, it. auto.
    + left. apply Hkeep, script_keeps_binding; [discriminate|assumption|].
      intros idx' [= <-]. exact Hit.
Qed.

Lemma store_appended_reset_or_loaded_witness :
  exists ext,
    TOUR1.store (TOUR1.step Examples.paris_saved
                   (Examples.press Examples.answers Examples.paris
                      (TOUR1.ChatInput (lit "add a day trip"))))
    = TOUR1.store Examples.paris_saved ++ ext.
Proof.
  destruct (proj2 store_appended_reset_or_loaded Examples.paris_saved
              (Examples.press Examples.answers Examples.paris
                 (TOUR1.ChatInput (lit "add a day trip")))
              (inv_run_all Examples.paris_runs)) as [_ [[_ H]|[[H _]|[H _]]]].
  - exact H.
  - vm_compute in H. discriminate H.
  - vm_compute in H. discriminate H.
Defined.

(** C5 as stated fails on a load: after Paris was saved with four records
    and then refined to six, loading the saved itinerary leaves four
    records, which is neither the six records with something appended nor
    an empty store. *)
Lemma load_replaces_store :
  length (TOUR1.store Examples.paris_refined) = 6%nat
  /\ length (TOUR1.store (TOUR1.step Examples.paris_refined
                            (Examples.press Examples.answers Examples.paris
                               (TOUR1.ClickLoad 0)))) = 4%nat
  /\ ~ (exists ext,
          TOUR1.store (TOUR1.step Examples.paris_refined
                         (Examples.press Examples.answers Examples.paris (TOUR1.ClickLoad 0)))
          = TOUR1.store Examples.paris_refined ++ ext)
  /\ TOUR1.store (TOUR1.step Examples.paris_refined
                    (Examples.press Examples.answers Examples.paris (TOUR1.ClickLoad 0)))
     <> [].
Proof.
  assert (H6 : length (TOUR1.store Examples.paris_refined) = 6%nat) by (vm_compute; reflexivity).
  assert (H4 : length (TOUR1.store (TOUR1.step Examples.paris_refined
                            (Examples.press Examples.answers Examples.paris
                               (TOUR1.ClickLoad 0)))) = 4%nat) by (vm_compute; reflexivity).
  split; [exact H6|]. split; [exact H4|]. split.
  - intros [ext Hext]. rewrite Hext, length_app, H6 in H4. lia.
  - intros Hnil. rewrite Hnil in H4. discriminate H4.
Qed.

(** C6, as the code has it.  The statistics change exactly in the runs in
    which the generation handler passes the form check with a configured
    model, and they are updated there before the remote call, whether or
    not that call then succeeds: [total_trips] grows by one, [total_days]
    by the duration, and the destination is added to [destinations] only
    when it is not there yet.  Every other run leaves the statistics as
    they are, and with the duration the slider can give (1 to 30) no run
    decreases a counter or drops a destination. *)
Theorem stats_follow_generation_attempts (st : TOUR1.state) (r : TOUR1.run) :
  (1 <= TOUR1.duration (TOUR1.run_widgets r) <= 30)%Z ->
  let w := TOUR1.run_widgets r in
  let s := TOUR1.trip_stats st in
  let s' := TOUR1.trip_stats (TOUR1.step st r) in
  (TOUR1.attempts (TOUR1.run_model r) w (TOUR1.run_trigger r) = true ->
     TOUR1.total_trips s' = (TOUR1.total_trips s + 1)%Z
     /\ TOUR1.total_days s' = (TOUR1.total_days s + TOUR1.duration w)%Z
     /\ (TOUR1.destination w ∈ TOUR1.destinations s ->
         TOUR1.destinations s' = TOUR1.destinations s)
     /\ (TOUR1.destination w ∉ TOUR1.destinations s ->
         TOUR1.destinations s' = TOUR1.destinations s ++ [TOUR1.destination w]))
  /\ (TOUR1.attempts (TOUR1.run_model r) w (TOUR1.run_trigger r) = false -> s' = s)
  /\ (TOUR1.total_trips s <= TOUR1.total_trips s')%Z
  /\ (TOUR1.total_days s <= TOUR1.total_days s')%Z
  /\ TOUR1.destinations s `prefix_of` TOUR1.destinations s'.
Proof.
  intros Hd w s s'. subst s'. rewrite step_stats. fold w s.
  destruct (TOUR1.attempts (TOUR1.run_model r) w (TOUR1.run_trigger r)).
  - unfold TOUR1.update_stats. cbn [TOUR1.total_trips TOUR1.total_days TOUR1.destinations].
    split; [intros _|split; [discriminate|split; [lia|split; [subst w; lia|]]]].
    + split; [reflexivity|]. split; [reflexivity|]. split; intros Hin.
      * rewrite bool_decide_eq_true_2 by exact Hin. reflexivity.
      * rewrite bool_decide_eq_false_2 by exact Hin. reflexivity.
    + destruct (bool_decide _); [reflexivity|]. apply prefix_app_r. reflexivity.
  - split; [discriminate|]. split; [reflexivity|]. split; [lia|]. split; [lia|reflexivity].
Qed.

Lemma stats_follow_generation_attempts_witness :
  TOUR1.total_trips (TOUR1.trip_stats
     (TOUR1.step Examples.paris_saved
        (Examples.press Examples.answers Examples.rome TOUR1.ClickGenerate))) = 2%Z
  /\ TOUR1.trip_stats
       (TOUR1.step Examples.paris_saved
          (Examples.press Examples.answers Examples.rome TOUR1.ClickSave))
     = TOUR1.trip_stats Examples.paris_saved.
Proof.
  split.
  - destruct (stats_follow_generation_attempts Examples.paris_saved
                (Examples.press Examples.answers Examples.rome TOUR1.ClickGenerate))
      as [H _].
    + vm_compute. split; discriminate.
    + destruct (H eq_refl) as [Htrips _]. rewrite Htrips. vm_compute. reflexivity.
  - destruct (stats_follow_generation_attempts Examples.paris_saved
                (Examples.press Examples.answers Examples.rome TOUR1.ClickSave))
      as (_ & H & _).
    + vm_compute. split; discriminate.
    + apply H. reflexivity.
Defined.

(** C6 as stated fails when the remote call fails: the generation of Paris
    with a gateway that raises stores no record, yet the trip, its five
    days and its destination are counted. *)
Lemma failed_generation_is_counted :
  snd (Examples.fails_after_two [] (TOUR1.model_prompt Examples.paris))
  = Raised (lit "quota exceeded")
  /\ TOUR1.store (TOUR1.step TOUR1.init_state
                    (Examples.press Examples.fails_after_two Examples.paris
                       TOUR1.ClickGenerate)) = []
  /\ TOUR1.trip_stats TOUR1.init_state
     = {| TOUR1.total_trips := 0; TOUR1.total_days := 0; TOUR1.destinations := [] |}
  /\ TOUR1.trip_stats (TOUR1.step TOUR1.init_state
                         (Examples.press Examples.fails_after_two Examples.paris
                            TOUR1.ClickGenerate))
     = {| TOUR1.total_trips := 1; TOUR1.total_days := 5;
          TOUR1.destinations := [lit "Paris"] |}.
Proof. repeat split; vm_compute; reflexivity. Qed.







(** C9. In a well-formed state, the list of records that [save_itinerary]
    stores is a newly allocated copy, not the list object of the active
    conversation; whatever runs of the script follow (follow-ups that
    append, clears and generations that reset, loads, further saves), the
    saved itinerary stays at its position, its list is never the active
    one, and its records, so also their number, are those of the
    conversation at the time of the save. *)
Theorem saved_copy_is_isolated (st : TOUR1.state) destination duration interests style now
    (rs : list TOUR1.run) :
  TOUR1.inv st ->
  let st1 := exec (TOUR1.save_itinerary destination duration interests style now) st in
  let st2 := TOUR1.run_all rs st1 in
  exists it,
    TOUR1.saved_itineraries st2 !! length (TOUR1.saved_itineraries st) = Some it
    /\ TOUR1.it_chat_history it <> TOUR1.chat_history st
    /\ TOUR1.it_chat_history it <> TOUR1.chat_history st2
    /\ TOUR1.deref (TOUR1.heap st2) (TOUR1.it_chat_history it) = TOUR1.store st
    /\ length (TOUR1.deref (TOUR1.heap st2) (TOUR1.it_chat_history it))
       = length (TOUR1.store st).
Proof.
  intros Hinv st1 st2.
  pose proof (evolves_save destination duration interests style now st Hinv) as (Hinv1 & _).
  fold st1 in Hinv1.
  destruct (evolves_run_all rs st1 Hinv1) as (Hinv2 & _ & _ & _ & Hframe & Hprefix).
  fold st2 in Hinv2, Hframe, Hprefix.
  set (it := {| TOUR1.it_destination := destination; TOUR1.it_duration := duration;
                TOUR1.it_interests := interests; TOUR1.it_style := style;
                TOUR1.it_timestamp := now; TOUR1.it_chat_history := TOUR1.next_loc st |}).
  assert (Hsaved1 : TOUR1.saved_itineraries st1 = TOUR1.saved_itineraries st ++ [it])
    by reflexivity.
  assert (Hheap1 : TOUR1.heap st1 !! TOUR1.next_loc st = Some (TOUR1.store st)).
  { subst st1. unfold exec. cbn. apply lookup_insert_eq. }
  assert (Hit2 : TOUR1.saved_itineraries st2 !! length (TOUR1.saved_itineraries st) = Some it).
  { destruct Hprefix as [more ->]. rewrite Hsaved1, <- app_assoc.
    rewrite lookup_app_r by lia. rewrite Nat.sub_diag. reflexivity. }
  assert (Hne : TOUR1.next_loc st <> TOUR1.chat_history st).
  { destruct Hinv as (Hlt & Hchat & _). specialize (Hlt _ Hchat). lia. }
  exists it. split; [exact Hit2|]. split; [exact Hne|].
  assert (Hcontent : TOUR1.deref (TOUR1.heap st2) (TOUR1.next_loc st) = TOUR1.store st).
  { unfold TOUR1.deref. rewrite (Hframe (TOUR1.next_loc st)); [rewrite Hheap1; reflexivity| |eauto].
    exact Hne. }
  split; [|split; [exact Hcontent|cbn [TOUR1.it_chat_history it]; rewrite Hcontent; reflexivity]].
  destruct Hinv2 as (_ & _ & Hall). rewrite Forall_forall in Hall.
  apply (Hall it (list_elem_of_lookup_2 _ _ _ Hit2)).
Qed.

Lemma saved_copy_is_isolated_witness :
  exists it,
    TOUR1.saved_itineraries
      (TOUR1.run_all [Examples.press Examples.answers Examples.paris
                        (TOUR1.ChatInput (lit "add a day trip"));
                      Examples.press Examples.answers Examples.paris TOUR1.ClickClear]
         (exec (TOUR1.save_itinerary (TOUR1.PStr (lit "Rome")) (TOUR1.PInt 3)
                  (TOUR1.PStr (lit "Historical Sites")) (TOUR1.PStr (lit "Balanced"))
                  Examples.clock) Examples.rome_active))
      !! 1%nat = Some it
    /\ length (TOUR1.deref
                 (TOUR1.heap
                    (TOUR1.run_all [Examples.press Examples.answers Examples.paris
                                      (TOUR1.ChatInput (lit "add a day trip"));
                                    Examples.press Examples.answers Examples.paris
                                      TOUR1.ClickClear]
                       (exec (TOUR1.save_itinerary (TOUR1.PStr (lit "Rome")) (TOUR1.PInt 3)
                                (TOUR1.PStr (lit "Historical Sites"))
                                (TOUR1.PStr (lit "Balanced")) Examples.clock)
                          Examples.rome_active)))
                 (TOUR1.it_chat_history it)) = 2%nat.
Proof.
  destruct (saved_copy_is_isolated Examples.rome_active (TOUR1.PStr (lit "Rome"))
              (TOUR1.PInt 3) (TOUR1.PStr (lit "Historical Sites"))
              (TOUR1.PStr (lit "Balanced")) Examples.clock
              [Examples.press Examples.answers Examples.paris
                 (TOUR1.ChatInput (lit "add a day trip"));
               Examples.press Examples.answers Examples.paris TOUR1.ClickClear]
              (inv_run_all Examples.rome_runs)) as (it & Hit & _ & _ & _ & Hlen).
  exists it. split; [exact Hit|]. rewrite Hlen. vm_compute. reflexivity.
Defined.

(** C10. Saving the active trip and then loading that saved itinerary does
    not give the trip back in full: whatever the active trip held beside
    its destination, duration, interests and style (the generation handler
    also stores budget, travelers and accommodation), the trip that is
    active after the load has exactly those four fields, with the values
    they had when the trip was saved, and no budget, travelers or
    accommodation. *)
Theorem save_then_load_keeps_four_fields model now w model' now' w'
    (st : TOUR1.state) trip d n i s :
  TOUR1.current_trip st = Some trip ->
  TOUR1.dict_get (lit "destination") trip = Some d ->
  TOUR1.dict_get (lit "duration") trip = Some n ->
  TOUR1.dict_get (lit "interests") trip = Some i ->
  TOUR1.dict_get (lit "style") trip = Some s ->
  let st1 := exec (TOUR1.script model now w TOUR1.ClickSave) st in
  let st2 := exec (TOUR1.script model' now' w'
                     (TOUR1.ClickLoad (length (TOUR1.saved_itineraries st)))) st1 in
  exists trip',
    TOUR1.current_trip st2 = Some trip'
    /\ trip' = [(lit "destination", d); (lit "duration", n);
                (lit "interests", i); (lit "style", s)]
    /\ TOUR1.dict_get (lit "budget") trip' = None
    /\ TOUR1.dict_get (lit "travelers") trip' = None
    /\ TOUR1.dict_get (lit "accommodation") trip' = None.
Proof.
  intros Ht Hd Hn Hi Hs st1 st2.
  pose proof (script_save model now w st trip d n i s Ht Hd Hn Hi Hs) as Hsaved.
  fold st1 in Hsaved.
  set (it := {| TOUR1.it_destination := d; TOUR1.it_duration := n;
                TOUR1.it_interests := i; TOUR1.it_style := s;
                TOUR1.it_timestamp := now;
                TOUR1.it_chat_history := TOUR1.next_loc st |}) in Hsaved.
  assert (Hit : TOUR1.saved_itineraries st1 !! length (TOUR1.saved_itineraries st) = Some it).
  { rewrite Hsaved, lookup_app_r by lia. rewrite Nat.sub_diag. reflexivity. }
  subst st2. rewrite (script_load model' now' w' _ it st1 Hit).
  destruct (loaded_spec it st1) as (_ & _ & Htrip & _).
  eexists. split; [exact Htrip|]. repeat split.
Qed.

Lemma save_then_load_keeps_four_fields_witness :
  TOUR1.dict_get (lit "budget")
    (default [] (TOUR1.current_trip Examples.rome_active)) = Some (TOUR1.PStr (lit "Luxury"))
  /\ exists trip',
      TOUR1.current_trip
        (exec (TOUR1.script None Examples.clock Examples.paris (TOUR1.ClickLoad 1))
           (exec (TOUR1.script None Examples.clock Examples.paris TOUR1.ClickSave)
              Examples.rome_active)) = Some trip'
      /\ TOUR1.dict_get (lit "destination") trip' = Some (TOUR1.PStr (lit "Rome"))
      /\ TOUR1.dict_get (lit "budget") trip' = None.
Proof.
  split; [vm_compute; reflexivity|].
  destruct (save_then_load_keeps_four_fields None Examples.clock Examples.paris
              None Examples.clock Examples.paris Examples.rome_active
              (TOUR1.trip_details Examples.rome)
              (TOUR1.PStr (lit "Rome")) (TOUR1.PInt 3)
              (TOUR1.PStr (lit "Historical Sites")) (TOUR1.PStr (lit "Balanced")))
    as (trip' & Htrip & -> & Hbudget & _); try (vm_compute; reflexivity).
  eexists. split; [exact Htrip|]. split; [reflexivity|exact Hbudget].
Defined.

(** * Further facts about tour1.py *)

Module ScriptFacts.
Import Py Json Gateway MonadFacts GatewayFacts Tour1Facts TOUR1 Shape.

#[local] Existing Instance keeps_preorder.
#[local] Existing Instance evolves_preorder.

(** A run whose sidebar and generation handlers do nothing is the
    follow-up handler alone. *)
Lemma script_passive model now w t st :
  clear_block t st = (Ok tt, st) ->
  save_block now t st = (Ok tt, st) ->
  load_block t st = (Ok tt, st) ->
  quick_block t st = (Ok tt, st) ->
  generate_block model w t st = (Ok tt, st) ->
  script model now w t st = followup_block model t st.
Proof.
  intros Hc Hs Hl Hq Hg. unfold script, bind.
  rewrite Hc, Hs, export_block_id, Hl, Hq, Hg. reflexivity.
Qed.

Lemma followup_idle model t st :
  quick_action st = None ->
  match t with ChatInput (_ :: _) => False | _ => True end ->
  followup_block model t st = (Ok tt, st).
Proof.
  intros Hq Ht. unfold followup_block, bind, gets. rewrite Hq.
  destruct t as [| | | | |[|c q]|]; try reflexivity. contradiction.
Qed.

Lemma followup_refused model t st :
  quick_action st = None -> store st = [] ->
  followup_block model t st = (Ok tt, st).
Proof.
  intros Hq Hs. unfold followup_block, bind, gets. rewrite Hq. cbn [ret].
  destruct (is_empty _); [reflexivity|]. rewrite Hs. reflexivity.
Qed.

(** The follow-up handler with a question, a conversation and a model. *)
Lemma followup_asks m q st :
  quick_action st = None -> q <> [] -> store st <> [] ->
  followup_block (Some m) (ChatInput q) st
  = (let* _ := get_gemini_response (Some m) q (store st) in rerun) st.
Proof.
  intros Hq Hne Hs. destruct q as [|c q]; [congruence|].
  destruct (store st) as [|r l] eqn:E; [congruence|].
  unfold followup_block, bind, gets. rewrite Hq. cbn [ret is_empty]. rewrite E.
  reflexivity.
Qed.

Lemma state_eta (st : state) :
  {| heap := heap st; next_loc := next_loc st; chat_history := chat_history st;
     saved_itineraries := saved_itineraries st; current_trip := current_trip st;
     trip_stats := trip_stats st; quick_action := quick_action st |} = st.
Proof. destruct st; reflexivity. Qed.

Lemma followup_pending model t a st :
  quick_action st = None ->
  followup_block model t (exec (set_quick_action (Some a)) st)
  = followup_block model (ChatInput a) st.
Proof.
  intros Hq. unfold followup_block at 1, bind at 1 2, gets, exec. cbn.
  rewrite <- Hq at 1. rewrite state_eta.
  unfold followup_block, bind at 1 2, gets. rewrite Hq. reflexivity.
Qed.

(** *** The generator and the store *)

Lemma store_append msg st :
  store (exec (chat_history_append msg) st) = store st ++ [msg].
Proof. unfold store, deref, exec. cbn. rewrite lookup_insert_eq. reflexivity. Qed.

Lemma generator_turn m question history st :
  let st' := exec (get_gemini_response (Some m) question history) st in
  exists yielded,
    get_gemini_response (Some m) question history st = (Ok yielded, st')
    /\ match m history question with
       | (chunks, Completed) =>
           store st' = store st ++ [user_message question;
                                    model_message (concat (fragments chunks))]
           /\ chat_history st' = chat_history st
           /\ saved_itineraries st' = saved_itineraries st
           /\ current_trip st' = current_trip st
           /\ trip_stats st' = trip_stats st
           /\ quick_action st' = quick_action st
       | (_, Raised _) => st' = st
       end.
Proof.
  cbv zeta. unfold exec, get_gemini_response.
  destruct (m history question) as [chunks [|e]] eqn:Hm.
  - rewrite (GatewayFacts.generator_completed _ _ _ _ _ _ _ Hm).
    eexists. split; [reflexivity|].
    unfold store, deref. cbn. rewrite !lookup_insert_eq. cbn.
    unfold store, deref. cbn. rewrite ?lookup_insert_eq. cbn.
    rewrite <- ?app_assoc. repeat split; reflexivity.
  - rewrite (GatewayFacts.generator_raised _ _ _ _ _ _ _ _ Hm).
    eexists. split; reflexivity.
Qed.

(** *** The first word of an interest *)

Lemma contains_absent c s : c ∉ s -> contains c s = false.
Proof.
  unfold contains. induction s as [|x s IH]; intros H; [reflexivity|].
  apply not_elem_of_cons in H as [Hx Hs]. cbn [existsb].
  rewrite (IH Hs), orb_false_r. apply N.eqb_neq. exact Hx.
Qed.

Lemma contains_present c a b : contains c (a ++ c :: b) = true.
Proof.
  unfold contains. rewrite existsb_app. cbn [existsb]. rewrite N.eqb_refl.
  rewrite orb_true_l. apply orb_true_r.
Qed.

Lemma after_first_split c a b : c ∉ a -> after_first c (a ++ c :: b) = b.
Proof.
  induction a as [|x a IH]; intros H.
  - cbn. rewrite N.eqb_refl. reflexivity.
  - apply not_elem_of_cons in H as [Hx Ha]. cbn [app after_first].
    replace (N.eqb x c) with false by (symmetry; apply N.eqb_neq; congruence).
    apply IH, Ha.
Qed.

(** The script is its sidebar followed by its two main handlers. *)
Lemma script_split model now w t st :
  script model now w t st
  = (let* _ := Page.sidebar now t in Page.handlers model w t) st.
Proof.
  unfold script, Page.sidebar, Page.handlers, bind.
  destruct (clear_block t st) as [[[]|e] st1]; [|reflexivity].
  destruct (save_block now t st1) as [[[]|e] st2]; [|reflexivity].
  destruct (export_block now st2) as [[[]|e] st3]; [|reflexivity].
  destruct (load_block t st3) as [[[]|e] st4]; [|reflexivity].
  destruct (quick_block t st4) as [[[]|e] st5]; reflexivity.
Qed.

(** *** The pending quick action *)

Lemma quick_clear_block t : preserves (keeps quick_action) (clear_block t).
Proof. unfold clear_block. repeat keeps_step. Qed.

Lemma quick_save_block now t : preserves (keeps quick_action) (save_block now t).
Proof. keeps_blocks. Qed.

Lemma quick_export_block now : preserves (keeps quick_action) (export_block now).
Proof. keeps_blocks. Qed.

Lemma quick_load_block t : preserves (keeps quick_action) (load_block t).
Proof. unfold load_block, load_saved_itinerary, list_copy. repeat keeps_step. Qed.

Lemma quick_generate_block model w t : preserves (keeps quick_action) (generate_block model w t).
Proof. unfold generate_block. repeat keeps_step. Qed.

#[local] Instance settles_preorder : PreOrder settles.
Proof.
  split; [intros st H; exact H|].
  intros st1 st2 st3 H1 H2 H. apply H2, H1, H.
Qed.

Lemma keeps_settles {A} (c : M state A) :
  preserves (keeps quick_action) c -> preserves settles c.
Proof. intros H st Hq. rewrite (H st). exact Hq. Qed.

(** The follow-up handler consumes the pending quick action. *)
Lemma followup_clears model t st :
  quick_action (exec (followup_block model t) st) = None.
Proof.
  unfold followup_block. rewrite exec_bind. cbn [gets].
  destruct (quick_action st) as [a|] eqn:Hq.
  - rewrite exec_bind. cbn [bind set_quick_action modify ret].
    match goal with
    | |- quick_action (exec ?c ?s) = None =>
        assert (H : preserves (keeps quick_action) c) by keeps_blocks;
        rewrite (H s)
    end.
    reflexivity.
  - rewrite exec_bind. cbn [ret].
    match goal with
    | |- quick_action (exec ?c ?s) = None =>
        assert (H : preserves (keeps quick_action) c) by keeps_blocks;
        rewrite (H s)
    end.
    exact Hq.
Qed.

Lemma settles_followup_block model t : preserves settles (followup_block model t).
Proof. intros st _. apply followup_clears. Qed.

Lemma settles_script model now w t : preserves settles (script model now w t).
Proof.
  destruct (match t with ClickQuick _ => true | _ => false end) eqn:Ht.
  - destruct t; try discriminate. intros st _. unfold exec, script, bind.
    cbn [clear_block save_block ret]. rewrite export_block_id.
    cbn [load_block generate_block ret].
    destruct (quick_block (ClickQuick row) st) as [[[]|e] st1] eqn:E.
    + apply followup_clears.
    + unfold quick_block in E. destruct (quick_actions !! row); discriminate.
  - unfold script.
    apply preserves_bind; [apply _|apply keeps_settles, quick_clear_block|intros _].
    apply preserves_bind; [apply _|apply keeps_settles, quick_save_block|intros _].
    apply preserves_bind; [apply _|apply keeps_settles, quick_export_block|intros _].
    apply preserves_bind; [apply _|apply keeps_settles, quick_load_block|intros _].
    apply preserves_bind; [apply _| |intros _].
    { destruct t; try discriminate; apply preserves_ret; apply _. }
    apply preserves_bind; [apply _|apply keeps_settles, quick_generate_block|intros _].
    apply settles_followup_block.
Qed.

Lemma settled_run_all rs : quick_action (run_all rs init_state) = None.
Proof.
  assert (H : forall st, quick_action st = None -> quick_action (run_all rs st) = None).
  { induction rs as [|r rs IH]; intros st Hq; [exact Hq|].
    cbn [run_all fold_left]. apply IH. apply (settles_script _ _ _ _ st Hq). }
  apply H. reflexivity.
Qed.

End ScriptFacts.

(** * Conversations are made of whole turns *)

Module TurnFacts.
Import Py Json Gateway MonadFacts GatewayFacts Tour1Facts TOUR1 Shape.

Lemma whole_turns_nil : whole_turns [].
Proof. exists []. reflexivity. Qed.

Lemma whole_turns_turn l question answer :
  whole_turns l -> whole_turns (l ++ [user_message question; model_message answer]).
Proof.
  intros [turns ->]. exists (turns ++ [(question, answer)]).
  unfold records. rewrite flat_map_app. cbn. reflexivity.
Qed.

(** ** TOUR.py *)

Lemma tour_script_turns model w t (st : TOUR.session_state) :
  whole_turns (TOUR.chat_history st) ->
  whole_turns (TOUR.chat_history (exec (TOUR.script model w t) st)).
Proof.
  intros Hst.
  assert (Hgen : forall question history st0,
             whole_turns (TOUR.chat_history st0) ->
             whole_turns (TOUR.chat_history
                            (TOUR.get_gemini_response model question history st0).2)).
  { intros question history st0 H0.
    pose proof (TourFacts.generator_store model question history st0) as Hg.
    cbv zeta in Hg. unfold exec in Hg.
    destruct Hg as [-> |[answer ->]]; [exact H0|apply whole_turns_turn, H0]. }
  destruct t as [| |user_query|]; unfold exec, TOUR.script.
  - apply whole_turns_nil.
  - rewrite snd_bind. cbn [ret]. rewrite snd_bind.
    destruct (TOUR.is_empty (TOUR.destination w) || TOUR.is_empty (TOUR.interests w));
      [exact Hst|].
    destruct (TOUR.is_none model); [exact Hst|].
    unfold bind, rerun, raise. cbn [TOUR.set_chat_history modify].
    specialize (Hgen (TOUR.model_prompt w) [] {| TOUR.chat_history := [] |} whole_turns_nil).
    destruct (TOUR.get_gemini_response model (TOUR.model_prompt w) []
                {| TOUR.chat_history := [] |}) as [[yielded|e] st1]; exact Hgen.
  - rewrite snd_bind. cbn [ret]. rewrite snd_bind. cbn [ret].
    destruct (TOUR.is_empty user_query); [exact Hst|].
    rewrite snd_bind. cbn [gets].
    destruct (TOUR.is_empty (TOUR.chat_history st)); [exact Hst|].
    destruct (TOUR.is_none model); [exact Hst|].
    unfold bind, rerun, raise.
    specialize (Hgen user_query (TOUR.chat_history st) st Hst).
    destruct (TOUR.get_gemini_response model user_query (TOUR.chat_history st) st)
      as [[yielded|e] st1]; exact Hgen.
  - exact Hst.
Qed.

(** The generator of TOUR.py returns its fragments. *)
Lemma tour_generator_returns model question history (st : TOUR.session_state) :
  exists yielded, result (TOUR.get_gemini_response model question history) st = Ok yielded.
Proof.
  unfold result, TOUR.get_gemini_response. destruct model as [m|].
  - destruct (m history question) as [chunks [|e]] eqn:Hm.
    + rewrite (GatewayFacts.generator_completed _ _ _ _ _ _ _ Hm). eexists. reflexivity.
    + rewrite (GatewayFacts.generator_raised _ _ _ _ _ _ _ _ Hm). eexists. reflexivity.
  - rewrite GatewayFacts.generator_not_configured. eexists. reflexivity.
Qed.

Lemma tour_script_ends model w t (st : TOUR.session_state) :
  result (TOUR.script model w t) st = Ok tt
  \/ result (TOUR.script model w t) st = Raise RerunException.
Proof.
  assert (Hgen : forall question history st0,
             result (let* _ := TOUR.get_gemini_response model question history in
                     (rerun : M TOUR.session_state unit)) st0 = Raise RerunException).
  { intros question history st0.
    destruct (tour_generator_returns model question history st0) as [yielded Hy].
    unfold result, bind in *.
    destruct (TOUR.get_gemini_response model question history st0) as [[y|e] st1];
      [reflexivity|discriminate]. }
  unfold result in *. destruct t as [| |user_query|]; unfold TOUR.script, bind; cbn [ret].
  - right. reflexivity.
  - destruct (TOUR.is_empty (TOUR.destination w) || TOUR.is_empty (TOUR.interests w));
      [left; reflexivity|].
    destruct (TOUR.is_none model); [left; reflexivity|].
    cbn [TOUR.set_chat_history modify]. right.
    specialize (Hgen (TOUR.model_prompt w) [] {| TOUR.chat_history := [] |}).
    unfold bind in Hgen.
    destruct (TOUR.get_gemini_response model (TOUR.model_prompt w) []
                {| TOUR.chat_history := [] |}) as [[y|e] st1]; exact Hgen.
  - destruct (TOUR.is_empty user_query); [left; reflexivity|]. cbn [gets].
    destruct (TOUR.is_empty (TOUR.chat_history st)); [left; reflexivity|].
    destruct (TOUR.is_none model); [left; reflexivity|]. right. apply Hgen.
  - left. reflexivity.
Qed.

Lemma tour_run_all_turns rs :
  whole_turns (TOUR.chat_history (TourSession.run_all rs TourSession.init_state)).
Proof.
  assert (H : forall st, whole_turns (TOUR.chat_history st) ->
                         whole_turns (TOUR.chat_history (TourSession.run_all rs st))).
  { induction rs as [|r rs IH]; intros st Hst; [exact Hst|].
    cbn [TourSession.run_all fold_left]. apply IH. apply tour_script_turns, Hst. }
  apply H, whole_turns_nil.
Qed.

(** ** tour1.py *)

#[local] Instance turns_kept_preorder : PreOrder turns_kept.
Proof.
  split; [intros st H; exact H|].
  intros st1 st2 st3 H1 H2 H. apply H2, H1, H.
Qed.

Lemma turns_same {A} (c : M state A) :
  (forall st, heap (exec c st) = heap st) -> preserves turns_kept c.
Proof. intros H st Hst l v. rewrite H. apply Hst. Qed.

Lemma heap_turns_deref st l : heap_turns st -> whole_turns (deref (heap st) l).
Proof.
  intros Hst. unfold deref. destruct (heap st !! l) as [v|] eqn:E; cbn.
  - exact (Hst l v E).
  - apply whole_turns_nil.
Qed.

Lemma heap_turns_insert st l v n :
  heap_turns st -> whole_turns v -> heap_turns (set_heap (<[l := v]> (heap st)) n st).
Proof.
  intros Hst Hv l' v'. cbn. destruct (decide (l' = l)) as [-> |Hne].
  - rewrite lookup_insert_eq. intros [= <-]. exact Hv.
  - rewrite lookup_insert_ne by congruence. apply Hst.
Qed.

Lemma turns_new_list_nil : preserves turns_kept (new_list []).
Proof. intros st Hst. apply heap_turns_insert; [exact Hst|apply whole_turns_nil]. Qed.

Lemma turns_list_copy l : preserves turns_kept (list_copy l).
Proof.
  intros st Hst. apply heap_turns_insert; [exact Hst|apply heap_turns_deref, Hst].
Qed.

Lemma generator_heap model question history st :
  exec (get_gemini_response model question history) st = st
  \/ exists answer,
       exec (get_gemini_response model question history) st
       = set_heap (<[chat_history st :=
                       store st ++ [user_message question; model_message answer]]> (heap st))
                  (next_loc st) st.
Proof.
  unfold exec, get_gemini_response. destruct model as [m|]; [|left; reflexivity].
  destruct (m history question) as [chunks [|e]] eqn:Hm.
  - rewrite (GatewayFacts.generator_completed _ _ _ _ _ _ _ Hm). right.
    exists (concat (fragments chunks)). cbn. unfold set_heap, store, deref. cbn.
    rewrite lookup_insert_eq, insert_insert_eq. cbn. rewrite <- app_assoc. reflexivity.
  - rewrite (GatewayFacts.generator_raised _ _ _ _ _ _ _ _ Hm). left. reflexivity.
Qed.

Lemma turns_generator model question history :
  preserves turns_kept (get_gemini_response model question history).
Proof.
  intros st Hst. destruct (generator_heap model question history st) as [-> |[answer ->]].
  - exact Hst.
  - apply heap_turns_insert; [exact Hst|]. apply whole_turns_turn.
    apply heap_turns_deref, Hst.
Qed.

Ltac turns_step :=
  match goal with
  | |- preserves _ (bind _ _) => apply preserves_bind; [apply _| |intros ?]
  | |- preserves _ (if ?b then _ else _) => destruct b
  | |- preserves _ (match ?x with _ => _ end) => destruct x
  | |- preserves _ (get_gemini_response _ _ _) => apply turns_generator
  | |- preserves _ (new_list []) => apply turns_new_list_nil
  | |- preserves _ (list_copy _) => apply turns_list_copy
  | |- preserves _ _ => apply turns_same; intros ?; reflexivity
  end.

Lemma turns_clear_block t : preserves turns_kept (clear_block t).
Proof. unfold clear_block. repeat turns_step. Qed.

Lemma turns_save_block now t : preserves turns_kept (save_block now t).
Proof. unfold save_block, save_itinerary, subscript. repeat turns_step. Qed.

Lemma turns_export_block now : preserves turns_kept (export_block now).
Proof. unfold export_block, export_chat_history. repeat turns_step. Qed.

Lemma turns_load_block t : preserves turns_kept (load_block t).
Proof. unfold load_block, load_saved_itinerary. repeat turns_step. Qed.

Lemma turns_quick_block t : preserves turns_kept (quick_block t).
Proof. unfold quick_block. repeat turns_step. Qed.

Lemma turns_generate_block model w t : preserves turns_kept (generate_block model w t).
Proof. unfold generate_block. repeat turns_step. Qed.

Lemma turns_followup_block model t : preserves turns_kept (followup_block model t).
Proof. unfold followup_block. repeat turns_step. Qed.

Lemma turns_sidebar now t : preserves turns_kept (Page.sidebar now t).
Proof.
  unfold Page.sidebar.
  apply preserves_bind; [apply _|apply turns_clear_block|intros _].
  apply preserves_bind; [apply _|apply turns_save_block|intros _].
  apply preserves_bind; [apply _|apply turns_export_block|intros _].
  apply preserves_bind; [apply _|apply turns_load_block|intros _].
  apply turns_quick_block.
Qed.

Lemma turns_script model now w t : preserves turns_kept (script model now w t).
Proof.
  unfold script.
  apply preserves_bind; [apply _|apply turns_clear_block|intros _].
  apply preserves_bind; [apply _|apply turns_save_block|intros _].
  apply preserves_bind; [apply _|apply turns_export_block|intros _].
  apply preserves_bind; [apply _|apply turns_load_block|intros _].
  apply preserves_bind; [apply _|apply turns_quick_block|intros _].
  apply preserves_bind; [apply _|apply turns_generate_block|intros _].
  apply turns_followup_block.
Qed.

Lemma heap_turns_init : heap_turns init_state.
Proof.
  intros l v H. cbn in H. apply lookup_singleton_Some in H as [_ <-].
  apply whole_turns_nil.
Qed.

Lemma heap_turns_run_all rs : heap_turns (run_all rs init_state).
Proof.
  assert (H : forall st, heap_turns st -> heap_turns (run_all rs st)).
  { induction rs as [|r rs IH]; intros st Hst; [exact Hst|].
    cbn [run_all fold_left]. apply IH. apply (turns_script _ _ _ _ st Hst). }
  apply H, heap_turns_init.
Qed.

End TurnFacts.

(** * What the display loops draw *)

Module PageFacts.
Import Py Json Gateway MonadFacts GatewayFacts Shape Page.

Lemma display_role_user question :
  display_role {| role := lit "user"; parts := [question] |} = lit "user".
Proof.
  unfold display_role. cbn [role].
  rewrite bool_decide_eq_false_2; [reflexivity|]. vm_compute. discriminate.
Qed.

Lemma display_role_model answer :
  display_role {| role := lit "model"; parts := [answer] |} = lit "assistant".
Proof.
  unfold display_role. cbn [role].
  rewrite bool_decide_eq_true_2; reflexivity.
Qed.

Lemma user_is_not_assistant : bool_decide (lit "user" = lit "assistant") = false.
Proof. apply bool_decide_eq_false_2. vm_compute. discriminate. Qed.

Lemma tour_transcript_records turns p :
  tour_transcript (records turns) p = (Ok tt, p ++ tour_bubbles turns).
Proof.
  revert p. induction turns as [|[question answer] turns IH]; intros p.
  - cbn. rewrite app_nil_r. reflexivity.
  - cbn [records tour_bubbles flat_map app fst snd tour_transcript].
    rewrite display_role_user, display_role_model.
    unfold bind, draw, modify, first_part, user_message, model_message.
    cbn [parts ret]. fold (records turns). rewrite IH.
    fold (tour_bubbles turns). rewrite <- !app_assoc. reflexivity.
Qed.

(** Drawing appends to the page. *)
Lemma feedback_row_draws clicked idx p :
  feedback_row clicked idx p = (Ok tt, p ++ exec (feedback_row clicked idx) []).
Proof.
  unfold feedback_row, exec, bind, draw, modify, when.
  destruct clicked as [[|]|]; cbn; rewrite <- ?app_assoc; reflexivity.
Qed.

Lemma tour1_transcript_records clicked turns idx p :
  tour1_transcript_from clicked (idx + 2 * length turns) idx (records turns) p
  = (Ok tt,
     p ++ tour1_bubbles turns
       ++ match turns with
          | [] => []
          | _ :: _ => exec (feedback_row clicked (idx + 2 * length turns - 1)) []
          end).
Proof.
  revert idx p. induction turns as [|[question answer] turns IH]; intros idx p.
  - cbn. rewrite app_nil_r. reflexivity.
  - cbn [records tour1_bubbles flat_map app fst snd tour1_transcript_from length].
    rewrite display_role_user, display_role_model, user_is_not_assistant.
    rewrite (bool_decide_eq_true_2 (lit "assistant" = lit "assistant") eq_refl).
    cbn [andb]. fold (records turns). fold (tour1_bubbles turns).
    unfold bind at 1 2 3 4 5 6 7, draw, modify, first_part, user_message, model_message.
    cbn [parts ret].
    replace (idx + 2 * S (length turns))%nat with (S (S idx) + 2 * length turns)%nat by lia.
    destruct turns as [|turn turns].
    + replace (Z.of_nat (S idx) =? Z.of_nat (S (S idx) + 2 * length []) - 1)%Z
        with true by (symmetry; apply Z.eqb_eq; cbn [length]; lia).
      unfold bind. rewrite feedback_row_draws. cbn [length].
      replace (S (S idx) + 2 * 0 - 1)%nat with (S idx) by lia.
      cbn. rewrite <- !app_assoc. reflexivity.
    + replace (Z.of_nat (S idx) =? Z.of_nat (S (S idx) + 2 * length (turn :: turns)) - 1)%Z
        with false by (symmetry; apply Z.eqb_neq; cbn [length]; lia).
      unfold bind. cbn [ret]. rewrite IH. rewrite <- !app_assoc. reflexivity.
Qed.

Lemma complete_cons (message : message) l :
  bool_decide (Forall (fun m => parts m <> []) (message :: l))
  = match parts message with
    | [] => false
    | _ :: _ => bool_decide (Forall (fun m => parts m <> []) l)
    end.
Proof.
  destruct (parts message) as [|body rest] eqn:E.
  - apply bool_decide_eq_false_2. intros H. inversion H; congruence.
  - apply bool_decide_ext. split.
    + intros H. inversion H; assumption.
    + intros H. constructor; [congruence|exact H].
Qed.

Lemma tour_transcript_result l p :
  result (tour_transcript l) p
  = if bool_decide (Forall (fun m => parts m <> []) l) then Ok tt else Raise IndexError.
Proof.
  revert p. induction l as [|message l IH]; intros p; [reflexivity|].
  rewrite complete_cons. unfold result in *. cbn [tour_transcript].
  unfold bind, draw, modify, first_part.
  destruct (parts message) as [|body rest]; [reflexivity|]. cbn [ret]. apply IH.
Qed.

Lemma tour1_transcript_result clicked len idx l p :
  result (tour1_transcript_from clicked len idx l) p
  = if bool_decide (Forall (fun m => parts m <> []) l) then Ok tt else Raise IndexError.
Proof.
  revert idx p. induction l as [|message l IH]; intros idx p; [reflexivity|].
  rewrite complete_cons. unfold result in *. cbn [tour1_transcript_from].
  unfold bind at 1 2 3 4, draw, modify, first_part.
  destruct (parts message) as [|body rest]; [reflexivity|]. cbn [ret].
  destruct (_ && _); [rewrite feedback_row_draws|cbn [ret]]; apply IH.
Qed.

Lemma saved_buttons_from_spec idx saved p :
  saved_buttons_from idx saved p
  = (Ok tt, p ++ imap (fun i it => load_button (idx + i) it) saved).
Proof.
  revert idx p. induction saved as [|it saved IH]; intros idx p.
  - cbn. rewrite app_nil_r. reflexivity.
  - cbn [saved_buttons_from imap]. unfold bind, draw, modify. rewrite IH.
    rewrite Nat.add_0_r, <- app_assoc. cbn [app]. do 3 f_equal.
    apply imap_ext. intros i x _. cbn. f_equal. lia.
Qed.

Lemma length_records turns : length (records turns) = (2 * length turns)%nat.
Proof.
  induction turns as [|turn turns IH]; [reflexivity|].
  cbn [records flat_map app length]. fold (records turns). rewrite IH. lia.
Qed.

End PageFacts.

(** * Runs raise neither IndexError nor KeyError *)

Module SafetyFacts.
Import Py Json Gateway MonadFacts GatewayFacts Tour1Facts TOUR1 Shape.

Lemma safe_ret {A} (a : A) : safe (ret a).
Proof. intros st H. split; [exact H|exact I]. Qed.

Lemma safe_rerun {A} : safe (rerun : M state A).
Proof. intros st H. split; [exact H|reflexivity]. Qed.

Lemma safe_gets {A} (f : state -> A) : safe (gets f).
Proof. intros st H. split; [exact H|exact I]. Qed.

Lemma safe_bind {A B} (c : M state A) (k : A -> M state B) :
  safe c -> (forall a, safe (k a)) -> safe (bind c k).
Proof.
  intros Hc Hk st Hst. destruct (Hc st Hst) as [H1 H2].
  unfold exec, result, bind in *. destruct (c st) as [[a|e] st1]; cbn [fst snd] in *.
  - apply Hk, H1.
  - split; assumption.
Qed.

(** A computation that returns and leaves the active trip alone. *)
Lemma safe_same {A} (c : M state A) :
  (forall st, current_trip (exec c st) = current_trip st
              /\ exists a, result c st = Ok a) ->
  safe c.
Proof.
  intros H st Hst. destruct (H st) as [H1 [a H2]]. unfold trip_ok.
  rewrite H1, H2. split; [exact Hst|exact I].
Qed.

Lemma safe_generator model question history :
  safe (get_gemini_response model question history).
Proof.
  apply safe_same. intros st. split.
  - destruct (TurnFacts.generator_heap model question history st) as [-> |[answer ->]];
      reflexivity.
  - destruct model as [m|].
    + destruct (ScriptFacts.generator_turn m question history st) as (yielded & Hg & _).
      exists yielded. unfold result. rewrite Hg. reflexivity.
    + eexists. unfold result, get_gemini_response.
      rewrite GatewayFacts.generator_not_configured. reflexivity.
Qed.

Lemma four_keys d n i s rest :
  let trip := (lit "destination", d) :: (lit "duration", n) :: (lit "interests", i)
              :: (lit "style", s) :: rest in
  is_Some (dict_get (lit "destination") trip)
  /\ is_Some (dict_get (lit "duration") trip)
  /\ is_Some (dict_get (lit "interests") trip)
  /\ is_Some (dict_get (lit "style") trip).
Proof. cbv zeta. repeat split; vm_compute; eauto. Qed.

Lemma safe_set_trip_details w : safe (set_current_trip (Some (trip_details w))).
Proof. intros st _. split; [apply four_keys|exact I]. Qed.

Ltac safe_step :=
  match goal with
  | |- safe (bind _ _) => apply safe_bind; [|intros ?]
  | |- safe (ret _) => apply safe_ret
  | |- safe rerun => apply safe_rerun
  | |- safe (gets _) => apply safe_gets
  | |- safe (get_gemini_response _ _ _) => apply safe_generator
  | |- safe (set_current_trip (Some (trip_details _))) => apply safe_set_trip_details
  | |- safe (if ?b then _ else _) => destruct b
  | |- safe (match ?x with _ => _ end) => destruct x
  | |- safe _ => apply safe_same; intros ?; split; [reflexivity|eexists; reflexivity]
  end.

Lemma safe_clear_block t : safe (clear_block t).
Proof. unfold clear_block. repeat safe_step. Qed.

Lemma safe_export_block now : safe (export_block now).
Proof. unfold export_block, export_chat_history. repeat safe_step. Qed.

Lemma safe_quick_block t : safe (quick_block t).
Proof. unfold quick_block. repeat safe_step. Qed.

Lemma safe_generate_block model w t : safe (generate_block model w t).
Proof. unfold generate_block. repeat safe_step. Qed.

Lemma safe_followup_block model t : safe (followup_block model t).
Proof. unfold followup_block. repeat safe_step. Qed.

(** The "Save Trip" handler finds its four keys. *)
Lemma safe_save_block now t : safe (save_block now t).
Proof.
  destruct t; try apply safe_ret. intros st Hst. unfold trip_ok in Hst.
  destruct (current_trip st) as [[|kv d]|] eqn:E;
    [unfold exec, result, save_block, bind, gets; rewrite E; cbn;
     unfold trip_ok; rewrite E; split; [exact Hst|exact I]
    | |unfold exec, result, save_block, bind, gets; rewrite E; cbn;
       unfold trip_ok; rewrite E; split; exact I].
  destruct Hst as ([v1 H1] & [v2 H2] & [v3 H3] & [v4 H4]).
  unfold exec, result. rewrite (save_block_saves now st (kv :: d) v1 v2 v3 v4) by assumption.
  cbn [fst snd].
  assert (Hs : safe (save_itinerary v1 v2 v3 v4 now)).
  { unfold save_itinerary, list_copy. repeat safe_step. }
  split; [|exact I]. apply Hs. unfold trip_ok. rewrite E. eauto.
Qed.

(** A load button is only there for a position of the list. *)
Lemma safe_load_block t : safe (load_block t).
Proof.
  destruct t; try apply safe_ret. intros st Hst. unfold exec, result, load_block, bind, gets.
  destruct (idx <? length (saved_itineraries st))%nat eqn:E; [|split; [exact Hst|exact I]].
  apply Nat.ltb_lt in E. apply lookup_lt_is_Some_2 in E as [it Hit].
  rewrite (load_some (Z.of_nat idx) it st) by (rewrite py_index_nat; exact Hit).
  cbn [rerun raise fst snd]. split; [|reflexivity].
  unfold trip_ok. destruct (loaded_spec it st) as (_ & _ & -> & _). apply four_keys.
Qed.

Lemma safe_script model now w t : safe (script model now w t).
Proof.
  unfold script.
  apply safe_bind; [apply safe_clear_block|intros _].
  apply safe_bind; [apply safe_save_block|intros _].
  apply safe_bind; [apply safe_export_block|intros _].
  apply safe_bind; [apply safe_load_block|intros _].
  apply safe_bind; [apply safe_quick_block|intros _].
  apply safe_bind; [apply safe_generate_block|intros _].
  apply safe_followup_block.
Qed.

Lemma trip_ok_run_all rs : trip_ok (run_all rs init_state).
Proof.
  assert (H : forall st, trip_ok st -> trip_ok (run_all rs st)).
  { induction rs as [|r rs IH]; intros st Hst; [exact Hst|].
    cbn [run_all fold_left]. apply IH. apply safe_script, Hst. }
  apply H. exact I.
Qed.

End SafetyFacts.

(** * The saved itineraries and the statistics *)

Module LedgerFacts.
Import Py Json Gateway MonadFacts GatewayFacts Tour1Facts TOUR1 Shape.

#[local] Existing Instance keeps_preorder.

#[local] Instance kept_preorder {St} (P : St -> Prop) : PreOrder (kept P).
Proof.
  split; [intros st H; exact H|].
  intros st1 st2 st3 H1 H2 H. apply H2, H1, H.
Qed.

#[local] Instance saved_grow_preorder : PreOrder saved_grow.
Proof.
  split; [intros st; unfold saved_grow; reflexivity|].
  intros st1 st2 st3 H1 H2. unfold saved_grow in *. etransitivity; eassumption.
Qed.

(** ** Saved itineraries are only added *)

Lemma keeps_saved_grow {A} (c : M state A) :
  preserves (keeps saved_itineraries) c -> preserves saved_grow c.
Proof. intros H st. unfold saved_grow. rewrite (H st). reflexivity. Qed.

Lemma saved_clear_block t : preserves (keeps saved_itineraries) (clear_block t).
Proof. unfold clear_block. repeat keeps_step. Qed.

Lemma saved_export_block now : preserves (keeps saved_itineraries) (export_block now).
Proof. keeps_blocks. Qed.

Lemma saved_load_block t : preserves (keeps saved_itineraries) (load_block t).
Proof. unfold load_block, load_saved_itinerary, list_copy. repeat keeps_step. Qed.

Lemma saved_quick_block t : preserves (keeps saved_itineraries) (quick_block t).
Proof. keeps_blocks. Qed.

Lemma saved_generate_block model w t :
  preserves (keeps saved_itineraries) (generate_block model w t).
Proof. unfold generate_block. repeat keeps_step. Qed.

(** What the "Save Trip" handler does to the state. *)
Lemma save_block_cases now t st :
  exec (save_block now t) st = st
  \/ exists d n i s,
       t = ClickSave /\ current_trip st <> None
       /\ exec (save_block now t) st = exec (save_itinerary d n i s now) st.
Proof.
  destruct t; try (left; reflexivity).
  unfold exec at 1 2, save_block, bind, gets.
  destruct (current_trip st) as [[|kv d]|] eqn:E; try (left; reflexivity).
  unfold subscript.
  destruct (dict_get (lit "destination") (kv :: d)) as [v1|]; [|left; reflexivity].
  destruct (dict_get (lit "duration") (kv :: d)) as [v2|]; [|left; reflexivity].
  destruct (dict_get (lit "interests") (kv :: d)) as [v3|]; [|left; reflexivity].
  destruct (dict_get (lit "style") (kv :: d)) as [v4|]; [|left; reflexivity].
  right. exists v1, v2, v3, v4. split; [reflexivity|]. split; [congruence|reflexivity].
Qed.

Lemma grow_save_block now t : preserves saved_grow (save_block now t).
Proof.
  intros st. unfold saved_grow.
  destruct (save_block_cases now t st) as [-> |(d & n & i & s & _ & _ & ->)]; [reflexivity|].
  unfold exec. cbn. apply prefix_app_r. reflexivity.
Qed.

Lemma grow_script model now w t : preserves saved_grow (script model now w t).
Proof.
  unfold script.
  apply preserves_bind; [apply _|apply keeps_saved_grow, saved_clear_block|intros _].
  apply preserves_bind; [apply _|apply grow_save_block|intros _].
  apply preserves_bind; [apply _|apply keeps_saved_grow, saved_export_block|intros _].
  apply preserves_bind; [apply _|apply keeps_saved_grow, saved_load_block|intros _].
  apply preserves_bind; [apply _|apply keeps_saved_grow, saved_quick_block|intros _].
  apply preserves_bind; [apply _|apply keeps_saved_grow, saved_generate_block|intros _].
  apply keeps_saved_grow, saved_followup_block.
Qed.

Lemma grow_run_all rs st :
  saved_itineraries st `prefix_of` saved_itineraries (run_all rs st).
Proof.
  revert st. induction rs as [|r rs IH]; intros st; [reflexivity|].
  cbn [run_all fold_left].
  etransitivity;
    [apply (grow_script (run_model r) (run_now r) (run_widgets r) (run_trigger r) st)|].
  apply IH.
Qed.

(** ** The statistics *)

Lemma stats_ok_update w s :
  (1 <= duration w <= 30)%Z -> stats_ok s -> stats_ok (update_stats w s).
Proof.
  intros Hd (Hnd & Hlen & Hdays). unfold stats_ok, update_stats. cbn.
  case_bool_decide as Hin.
  - split; [exact Hnd|]. lia.
  - split; [|rewrite length_app; cbn; lia].
    apply NoDup_app. split; [exact Hnd|]. split; [|apply NoDup_singleton].
    intros x Hx Hx'. apply list_elem_of_singleton in Hx'. subst x. contradiction.
Qed.

Lemma stats_ok_run_all rs :
  Forall slider_range rs -> stats_ok (trip_stats (run_all rs init_state)).
Proof.
  assert (H : forall st, Forall slider_range rs -> stats_ok (trip_stats st) ->
                         stats_ok (trip_stats (run_all rs st))).
  { induction rs as [|r rs IH]; intros st Hrs Hst; [exact Hst|].
    inversion Hrs as [|? ? Hr Hrs']; subst. cbn [run_all fold_left]. apply IH; [exact Hrs'|].
    rewrite step_stats. destruct (attempts _ _ _); [|exact Hst].
    apply stats_ok_update; assumption. }
  intros Hrs. apply H; [exact Hrs|]. split; [constructor|]. cbn. lia.
Qed.

(** ** A trip in the state is a counted trip *)

Ltac counted_step :=
  match goal with
  | |- preserves _ (bind _ _) => apply preserves_bind; [apply _| |intros ?]
  | |- preserves _ (if ?b then _ else _) => destruct b
  | |- preserves _ (match ?x with _ => _ end) => destruct x
  | |- preserves _ (get_gemini_response _ _ _) =>
      apply preserves_generator; [apply _|intros ?]
  | |- preserves _ _ => intros ? H; exact H
  end.

Lemma counted_clear_block t : preserves (kept counted) (clear_block t).
Proof. unfold clear_block. repeat counted_step. Qed.

Lemma counted_export_block now : preserves (kept counted) (export_block now).
Proof. unfold export_block, export_chat_history. repeat counted_step. Qed.

Lemma counted_quick_block t : preserves (kept counted) (quick_block t).
Proof. unfold quick_block. repeat counted_step. Qed.

Lemma counted_followup_block model t : preserves (kept counted) (followup_block model t).
Proof. unfold followup_block. repeat counted_step. Qed.

Lemma counted_save_block now t : preserves (kept counted) (save_block now t).
Proof.
  intros st Hst.
  destruct (save_block_cases now t st) as [-> |(d & n & i & s & _ & Htrip & ->)];
    [exact Hst|].
  destruct Hst as (H0 & H1 & H2). unfold exec, counted. cbn. auto.
Qed.

Lemma counted_load_block t : preserves (kept counted) (load_block t).
Proof.
  intros st Hst. destruct t; try exact Hst. unfold exec, load_block, bind, gets.
  destruct (idx <? length (saved_itineraries st))%nat eqn:E; [|exact Hst].
  apply Nat.ltb_lt in E. apply lookup_lt_is_Some_2 in E as [it Hit].
  rewrite (load_some (Z.of_nat idx) it st) by (rewrite py_index_nat; exact Hit).
  cbn [rerun raise snd]. destruct Hst as (H0 & H1 & H2).
  assert (Hne : saved_itineraries st <> []).
  { intros Hnil. rewrite Hnil in Hit. discriminate. }
  unfold counted, loaded, rebound, exec. cbn. auto.
Qed.

Lemma counted_script model now w t : preserves (kept counted) (script model now w t).
Proof.
  destruct (attempts model w t) eqn:Ha.
  - assert (t = ClickGenerate) as -> by (destruct t; try discriminate; reflexivity).
    intros st Hst. unfold exec. rewrite script_generate by assumption.
    assert (H : preserves (kept counted)
                  (let* _ := get_gemini_response model (model_prompt w) [] in
                   (rerun : M state unit))) by repeat counted_step.
    apply H. destruct Hst as (H0 & H1 & H2).
    unfold counted, prepared, rebound, exec. cbn. repeat split; intros; lia.
  - unfold script.
    apply preserves_bind; [apply _|apply counted_clear_block|intros _].
    apply preserves_bind; [apply _|apply counted_save_block|intros _].
    apply preserves_bind; [apply _|apply counted_export_block|intros _].
    apply preserves_bind; [apply _|apply counted_load_block|intros _].
    apply preserves_bind; [apply _|apply counted_quick_block|intros _].
    apply preserves_bind; [apply _| |intros _].
    { intros st Hst. unfold exec. rewrite script_not_generate by assumption. exact Hst. }
    apply counted_followup_block.
Qed.

Lemma counted_sidebar now t : preserves (kept counted) (Page.sidebar now t).
Proof.
  unfold Page.sidebar.
  apply preserves_bind; [apply _|apply counted_clear_block|intros _].
  apply preserves_bind; [apply _|apply counted_save_block|intros _].
  apply preserves_bind; [apply _|apply counted_export_block|intros _].
  apply preserves_bind; [apply _|apply counted_load_block|intros _].
  apply counted_quick_block.
Qed.

Lemma counted_run_all rs : counted (run_all rs init_state).
Proof.
  assert (H : forall st, counted st -> counted (run_all rs st)).
  { induction rs as [|r rs IH]; intros st Hst; [exact Hst|].
    cbn [run_all fold_left]. apply IH. apply (counted_script _ _ _ _ st Hst). }
  apply H. unfold counted. cbn. repeat split; [lia|congruence|congruence].
Qed.

End LedgerFacts.

(** * The exported document is ASCII text *)

Module AsciiFacts.
Import Py Json Gateway TOUR1 Shape.
Local Open Scope N_scope.

Lemma ascii_range c : 32 <= c <= 126 -> ascii_text c = true.
Proof.
  intros H. unfold ascii_text. apply orb_true_iff. right.
  apply andb_true_iff. split; apply N.leb_le; lia.
Qed.

Lemma plain_lit s : forallb ascii_text s = true -> plain s.
Proof. intros H. apply Forall_forall. intros c Hc. apply list_elem_of_In in Hc.
  exact (proj1 (forallb_forall _ _) H c Hc). Qed.

Lemma hex_digit_plain n : n < 16 -> ascii_text (hex_digit n) = true.
Proof.
  intros H. unfold hex_digit. destruct (n <? 10) eqn:E.
  - apply N.ltb_lt in E. apply ascii_range. lia.
  - apply N.ltb_ge in E. apply ascii_range. lia.
Qed.

Lemma u_escape_plain n : plain (u_escape n).
Proof.
  unfold u_escape, hex4.
  repeat (constructor; [first [reflexivity|apply hex_digit_plain, N.mod_upper_bound; lia]|]).
  constructor.
Qed.

Lemma escape_char_plain c : plain (escape_char c).
Proof.
  unfold escape_char.
  repeat (match goal with
          | |- context [if ?b =? ?k then _ else _] =>
              destruct (b =? k); [repeat constructor|]
          end).
  destruct ((32 <=? c) && (c <=? 126)) eqn:E.
  - apply andb_true_iff in E as [E1 E2]. apply N.leb_le in E1, E2.
    constructor; [apply ascii_range; lia|constructor].
  - destruct (c <? 65536); [apply u_escape_plain|].
    cbv zeta. apply Forall_app. split; apply u_escape_plain.
Qed.

Lemma encode_plain s : plain (encode_basestring_ascii s).
Proof.
  unfold encode_basestring_ascii. constructor; [reflexivity|].
  apply Forall_app. split; [|repeat constructor].
  induction s as [|c s IH]; [constructor|]. cbn [flat_map].
  apply Forall_app. split; [apply escape_char_plain|exact IH].
Qed.

Lemma uint_chars_plain u : plain (uint_chars u).
Proof. induction u; cbn [uint_chars]; constructor; try reflexivity; assumption. Qed.

Lemma int_repr_plain z : plain (int_repr z).
Proof.
  unfold int_repr. destruct (Z.to_int z); [apply uint_chars_plain|].
  constructor; [reflexivity|apply uint_chars_plain].
Qed.

Lemma newline_indent_plain level : plain (newline_indent level).
Proof.
  unfold newline_indent. constructor; [reflexivity|].
  apply Forall_forall. intros c Hc. apply list_elem_of_In, repeat_spec in Hc. subst c.
  reflexivity.
Qed.

Lemma join_plain sep items : plain sep -> Forall (fun s => plain s) items -> plain (join sep items).
Proof.
  intros Hsep Hitems. induction Hitems as [|x xs Hx Hxs IH]; [constructor|].
  destruct xs as [|y ys]; [exact Hx|].
  change (join sep (x :: y :: ys)) with (x ++ sep ++ join sep (y :: ys)).
  apply Forall_app. split; [exact Hx|]. apply Forall_app. split; [exact Hsep|exact IH].
Qed.

Lemma iterencode_plain o : forall level, plain (iterencode level o).
Proof.
  induction o as [|z|s|l IH|d IH] using json_nested_ind; intros level.
  - apply plain_lit. reflexivity.
  - apply int_repr_plain.
  - apply encode_plain.
  - destruct l as [|x xs]; [apply plain_lit; reflexivity|].
    change (iterencode level (JList (x :: xs)))
      with (91 :: newline_indent (S level)
              ++ join (44 :: newline_indent (S level)) (map (iterencode (S level)) (x :: xs))
              ++ newline_indent level ++ [93]).
    constructor; [reflexivity|].
    apply Forall_app. split; [apply newline_indent_plain|].
    apply Forall_app. split.
    + apply join_plain; [constructor; [reflexivity|apply newline_indent_plain]|].
      apply Forall_map. eapply Forall_impl; [exact IH|]. intros y Hy. apply Hy.
    + apply Forall_app. split; [apply newline_indent_plain|repeat constructor].
  - destruct d as [|kv xs]; [apply plain_lit; reflexivity|].
    change (iterencode level (JDict (kv :: xs)))
      with (123 :: newline_indent (S level)
              ++ join (44 :: newline_indent (S level))
                   (map (fun kv => encode_basestring_ascii (fst kv) ++ lit ": "
                                   ++ iterencode (S level) (snd kv)) (kv :: xs))
              ++ newline_indent level ++ [125]).
    constructor; [reflexivity|].
    apply Forall_app. split; [apply newline_indent_plain|].
    apply Forall_app. split.
    + apply join_plain; [constructor; [reflexivity|apply newline_indent_plain]|].
      apply Forall_map. eapply Forall_impl; [exact IH|]. intros y Hy. cbn beta.
      apply Forall_app. split; [apply encode_plain|].
      apply Forall_app. split; [apply plain_lit; reflexivity|apply Hy].
    + apply Forall_app. split; [apply newline_indent_plain|repeat constructor].
Qed.

Lemma dumps_plain o : forallb ascii_text (dumps o) = true.
Proof.
  apply forallb_forall. intros c Hc. apply list_elem_of_In in Hc.
  exact (proj1 (Forall_forall _ _) (iterencode_plain o 0%nat) c Hc).
Qed.

End AsciiFacts.

(** * Complete runs *)

Module RunFacts.
Import Py Json Gateway MonadFacts GatewayFacts Tour1Facts Shape Page.

(** ** TOUR.py *)

Lemma tour_script_handlers model w t :
  TOUR.script model w t
  = (let* _ := tour_clear t in let* _ := tour_generate model w t in tour_follow_up model t).
Proof. reflexivity. Qed.

(** On a conversation of whole turns the display loop returns, and the
    complete run is the run of the handlers. *)
Lemma tour_run_script model w t (st : TOUR.session_state) :
  whole_turns (TOUR.chat_history st) ->
  tour_run model w t st = TOUR.script model w t st.
Proof.
  intros [turns Hturns]. rewrite tour_script_handlers. unfold tour_run.
  destruct t as [| |user_query|]; try reflexivity;
    unfold bind at 1 2 3; cbn [tour_clear ret gets]; unfold shows, result;
    rewrite Hturns, PageFacts.tour_transcript_records; reflexivity.
Qed.

Lemma tour_visits_run_all rs :
  TourSession.visits rs TourSession.init_state
  = TourSession.run_all rs TourSession.init_state.
Proof.
  assert (H : forall st, whole_turns (TOUR.chat_history st) ->
                         TourSession.visits rs st = TourSession.run_all rs st).
  { induction rs as [|r rs IH]; intros st Hst; [reflexivity|].
    cbn [TourSession.visits TourSession.run_all fold_left].
    unfold TourSession.visit, TourSession.step, exec.
    rewrite tour_run_script by exact Hst.
    apply IH. apply TurnFacts.tour_script_turns, Hst. }
  apply H, TurnFacts.whole_turns_nil.
Qed.

(** ** tour1.py *)

Lemma dashboard_returns st p : result (dashboard st) p = Ok tt.
Proof. unfold result, dashboard. destruct (_ || _); reflexivity. Qed.

Lemma tour1_transcript_returns clicked (st : TOUR1.state) :
  heap_turns st -> result (tour1_transcript clicked (TOUR1.store st)) [] = Ok tt.
Proof.
  intros Hst.
  destruct (TurnFacts.heap_turns_deref st (TOUR1.chat_history st) Hst) as [turns Hturns].
  fold (TOUR1.store st) in Hturns. unfold result, tour1_transcript.
  rewrite Hturns, PageFacts.length_records.
  change (2 * length turns)%nat with (0 + 2 * length turns)%nat.
  rewrite (PageFacts.tour1_transcript_records clicked turns 0 []). reflexivity.
Qed.

Lemma saved_buttons_returns st p : result (saved_buttons st) p = Ok tt.
Proof.
  unfold result, saved_buttons. destruct (TOUR1.is_empty _); [reflexivity|].
  unfold bind, draw, modify. rewrite PageFacts.saved_buttons_from_spec. reflexivity.
Qed.

(** The drawing of the buttons of the saved itineraries does not matter to
    the sidebar handlers. *)
Lemma tour1_run_sidebar model now w t clicked (st : TOUR1.state) :
  tour1_run model now w t clicked st
  = (let* _ := sidebar now t in
     let* st := gets (fun st => st) in
     let* _ := shows (dashboard st) in
     let* _ := shows (tour1_transcript clicked (TOUR1.store st)) in
     handlers model w t) st.
Proof.
  unfold tour1_run, sidebar, handlers, bind.
  destruct (TOUR1.clear_block t st) as [[[]|e] st1]; [|reflexivity].
  destruct (TOUR1.save_block now t st1) as [[[]|e] st2]; [|reflexivity].
  destruct (TOUR1.export_block now st2) as [[[]|e] st3]; [|reflexivity].
  unfold gets at 1, shows at 1. rewrite saved_buttons_returns.
  destruct (TOUR1.load_block t st3) as [[[]|e] st4]; [|reflexivity].
  destruct (TOUR1.quick_block t st4) as [[[]|e] st5]; reflexivity.
Qed.

Lemma tour1_run_script model now w t clicked (st : TOUR1.state) :
  heap_turns st ->
  tour1_run model now w t clicked st = TOUR1.script model now w t st.
Proof.
  intros Hst. rewrite tour1_run_sidebar, ScriptFacts.script_split. unfold bind at 1 5.
  pose proof (TurnFacts.turns_sidebar now t st Hst) as Hst1. unfold exec in Hst1.
  destruct (sidebar now t st) as [[[]|e] st1]; [|reflexivity]. cbn [snd] in Hst1.
  unfold bind, gets, shows.
  rewrite dashboard_returns, (tour1_transcript_returns clicked st1 Hst1). reflexivity.
Qed.

Lemma tour1_visits_run_all (vs : list Tour1Session.run) :
  Tour1Session.visits vs TOUR1.init_state
  = TOUR1.run_all (map fst vs) TOUR1.init_state.
Proof.
  assert (H : forall st, heap_turns st ->
                         Tour1Session.visits vs st = TOUR1.run_all (map fst vs) st).
  { induction vs as [|v vs IH]; intros st Hst; [reflexivity|].
    cbn [Tour1Session.visits TOUR1.run_all fold_left map].
    unfold Tour1Session.visit, TOUR1.step at 2, exec.
    rewrite tour1_run_script by exact Hst.
    apply IH. apply (TurnFacts.turns_script _ _ _ _ st Hst). }
  apply H, TurnFacts.heap_turns_init.
Qed.

End RunFacts.

(** * Further properties of the scripts *)

Import Shape.

(** X1. A complete run without a click and without chat input changes
    nothing.  In every state that complete runs of TOUR.py, or of tour1.py,
    reach from the initial one, such a run, with its display loop (and the
    dashboard of tour1.py), ends normally (no rerun, no exception) and
    leaves the whole session state as it was. *)
Theorem idle_run_changes_nothing :
  (forall (rs : list TourSession.run) model w,
      let st := TourSession.visits rs TourSession.init_state in
      Page.tour_run model w TOUR.NoTrigger st = (Ok tt, st))
  /\ (forall (rs : list Tour1Session.run) model now w clicked,
      let st := Tour1Session.visits rs TOUR1.init_state in
      Page.tour1_run model now w TOUR1.NoTrigger clicked st = (Ok tt, st)).
Proof.
  split.
  - intros rs model w. cbv zeta. rewrite RunFacts.tour_visits_run_all.
    rewrite RunFacts.tour_run_script by apply TurnFacts.tour_run_all_turns.
    reflexivity.
  - intros rs model now w clicked. cbv zeta. rewrite RunFacts.tour1_visits_run_all.
    rewrite RunFacts.tour1_run_script by apply TurnFacts.heap_turns_run_all.
    rewrite ScriptFacts.script_passive by reflexivity.
    apply ScriptFacts.followup_idle; [apply ScriptFacts.settled_run_all|exact I].
Qed.

(** X2. No quick action stays pending across runs of tour1.py: whatever
    runs were made from the initial state (also runs that click a quick
    action), [quick_action] is [None] when the run is over, because the
    follow-up handler of the same run consumes it. *)
Theorem quick_action_is_consumed (rs : list TOUR1.run) :
  TOUR1.quick_action (TOUR1.run_all rs TOUR1.init_state) = None.
Proof. apply ScriptFacts.settled_run_all. Qed.

(** X3. A click on a quick-action button of tour1.py is a follow-up
    question with the text of that action: when no quick action is pending,
    the run in which the button of row [row] is clicked has the outcome and
    the final state of the run in which its action text is typed into the
    chat input. *)
Theorem quick_action_is_a_follow_up model now w row action_text (st : TOUR1.state) :
  TOUR1.quick_action st = None ->
  TOUR1.quick_actions !! row = Some action_text ->
  TOUR1.script model now w (TOUR1.ClickQuick row) st
  = TOUR1.script model now w (TOUR1.ChatInput action_text) st.
Proof.
  intros Hq Hrow.
  rewrite (ScriptFacts.script_passive model now w (TOUR1.ChatInput action_text))
    by reflexivity.
  unfold TOUR1.script, bind. cbn [TOUR1.clear_block TOUR1.save_block ret].
  rewrite Tour1Facts.export_block_id.
  cbn [TOUR1.load_block TOUR1.quick_block TOUR1.generate_block ret]. rewrite Hrow.
  apply (ScriptFacts.followup_pending model _ action_text st Hq).
Qed.

Lemma quick_action_is_a_follow_up_witness :
  TOUR1.script (Some Examples.answers) Examples.clock Examples.paris (TOUR1.ClickQuick 1)
    Examples.paris_saved
  = TOUR1.script (Some Examples.answers) Examples.clock Examples.paris
      (TOUR1.ChatInput (lit "Recommend local restaurants")) Examples.paris_saved.
Proof.
  apply quick_action_is_a_follow_up; vm_compute; reflexivity.
Defined.

(** X4. A follow-up question is dropped when there is no conversation yet
    or no configured model: the run ends normally and the session state is
    unchanged (the question is not stored, the remote model is not called).
    In tour1.py this is so when no quick action is pending. *)
Theorem follow_up_needs_conversation_and_model :
  (forall model w user_query (st : TOUR.session_state),
      TOUR.chat_history st = [] \/ model = None ->
      TOUR.script model w (TOUR.ChatInput user_query) st = (Ok tt, st))
  /\ (forall model now w user_query (st : TOUR1.state),
      TOUR1.quick_action st = None ->
      TOUR1.store st = [] \/ model = None ->
      TOUR1.script model now w (TOUR1.ChatInput user_query) st = (Ok tt, st)).
Proof.
  split.
  - intros model w q st H. unfold TOUR.script, bind, gets. cbn [ret].
    destruct (TOUR.is_empty q); [reflexivity|].
    destruct H as [-> | ->]; [reflexivity|].
    destruct (TOUR.is_empty _); reflexivity.
  - intros model now w q st Hq H. rewrite ScriptFacts.script_passive by reflexivity.
    destruct H as [H| ->]; [apply ScriptFacts.followup_refused; assumption|].
    unfold TOUR1.followup_block, bind, gets. rewrite Hq. cbn [ret].
    destruct (TOUR1.is_empty q); [reflexivity|].
    destruct (TOUR1.is_empty _); reflexivity.
Qed.

Lemma follow_up_needs_conversation_and_model_witness :
  TOUR.script (Some Examples.answers)
    {| TOUR.destination := lit "Paris"; TOUR.duration := 5;
       TOUR.interests := lit "art"; TOUR.style := lit "Relaxed" |}
    (TOUR.ChatInput (lit "make it cheaper")) TourSession.init_state
  = (Ok tt, TourSession.init_state)
  /\ TOUR1.script (Some Examples.answers) Examples.clock Examples.paris
       (TOUR1.ChatInput (lit "make it cheaper")) TOUR1.init_state
     = (Ok tt, TOUR1.init_state).
Proof.
  split.
  - apply (proj1 follow_up_needs_conversation_and_model). left. reflexivity.
  - apply (proj2 follow_up_needs_conversation_and_model); [reflexivity|left; reflexivity].
Defined.

(** X5. A follow-up question of tour1.py continues the active conversation:
    with a conversation, a configured model and no pending quick action, a
    non-empty chat input calls the remote model with the records of the
    active conversation as history and with the input as question, and the
    run ends by a rerun.  When the call completes, the question and the
    whole answer are appended to the conversation and nothing else of the
    session changes; when it fails, the session state is unchanged. *)
Theorem follow_up_continues_conversation (m : GenerativeModel) now w user_query
    (st : TOUR1.state) :
  TOUR1.quick_action st = None ->
  user_query <> [] ->
  TOUR1.store st <> [] ->
  let st' := exec (TOUR1.script (Some m) now w (TOUR1.ChatInput user_query)) st in
  result (TOUR1.script (Some m) now w (TOUR1.ChatInput user_query)) st = Raise RerunException
  /\ match m (TOUR1.store st) user_query with
     | (chunks, Completed) =>
         TOUR1.store st'
         = TOUR1.store st
           ++ [ {| role := lit "user"; parts := [user_query] |};
                {| role := lit "model"; parts := [concat (fragments chunks)] |} ]
         /\ TOUR1.chat_history st' = TOUR1.chat_history st
         /\ TOUR1.saved_itineraries st' = TOUR1.saved_itineraries st
         /\ TOUR1.current_trip st' = TOUR1.current_trip st
         /\ TOUR1.trip_stats st' = TOUR1.trip_stats st
     | (_, Raised _) => st' = st
     end.
Proof.
  intros Hq Hne Hs. cbv zeta. unfold exec, result.
  rewrite ScriptFacts.script_passive by reflexivity.
  rewrite ScriptFacts.followup_asks by assumption.
  destruct (ScriptFacts.generator_turn m user_query (TOUR1.store st) st)
    as (yielded & Hg & Hst).
  unfold bind. rewrite Hg. cbn [rerun raise fst snd]. split; [reflexivity|].
  destruct (m (TOUR1.store st) user_query) as [chunks [|e]]; [|exact Hst].
  destruct Hst as (H1 & H2 & H3 & H4 & H5 & _). auto.
Qed.

Lemma follow_up_continues_conversation_witness :
  result (TOUR1.script (Some Examples.answers) Examples.clock Examples.paris
            (TOUR1.ChatInput (lit "add a day trip"))) Examples.paris_saved
  = Raise RerunException.
Proof.
  apply (follow_up_continues_conversation Examples.answers Examples.clock Examples.paris
           (lit "add a day trip") Examples.paris_saved);
    [vm_compute; reflexivity|discriminate|vm_compute; discriminate].
Defined.

(** X6. A generation starts a new conversation.  With a destination, an
    interest and a configured model, "Generate Itinerary" calls the remote
    model with an empty history and the generated prompt, and the run ends
    by a rerun.  When the call completes, the conversation is exactly the
    prompt and the whole answer; when it fails, the conversation is left
    empty: the records of the conversation before it are dropped in both
    cases.  In tour1.py the active trip becomes the trip of the form and the
    saved itineraries are kept. *)
Theorem generation_starts_new_conversation (m : GenerativeModel) :
  (forall w (st : TOUR.session_state),
      TOUR.destination w <> [] -> TOUR.interests w <> [] ->
      result (TOUR.script (Some m) w TOUR.GenerateItinerary) st = Raise RerunException
      /\ TOUR.chat_history (exec (TOUR.script (Some m) w TOUR.GenerateItinerary) st)
         = match m [] (TOUR.model_prompt w) with
           | (chunks, Completed) =>
               [ {| role := lit "user"; parts := [TOUR.model_prompt w] |};
                 {| role := lit "model"; parts := [concat (fragments chunks)] |} ]
           | (_, Raised _) => []
           end)
  /\ (forall now w (st : TOUR1.state),
      TOUR1.destination w <> [] -> TOUR1.interests w <> [] ->
      let st' := exec (TOUR1.script (Some m) now w TOUR1.ClickGenerate) st in
      result (TOUR1.script (Some m) now w TOUR1.ClickGenerate) st = Raise RerunException
      /\ TOUR1.store st'
         = match m [] (TOUR1.model_prompt w) with
           | (chunks, Completed) =>
               [ {| role := lit "user"; parts := [TOUR1.model_prompt w] |};
                 {| role := lit "model"; parts := [concat (fragments chunks)] |} ]
           | (_, Raised _) => []
           end
      /\ TOUR1.current_trip st' = Some (TOUR1.trip_details w)
      /\ TOUR1.saved_itineraries st' = TOUR1.saved_itineraries st).
Proof.
  split.
  - intros w st Hd Hi. unfold result, exec, TOUR.script, bind. cbn [ret].
    destruct (TOUR.destination w) as [|c d]; [congruence|].
    destruct (TOUR.interests w) as [|c' i]; [congruence|].
    cbn [TOUR.is_empty TOUR.is_none orb TOUR.set_chat_history modify].
    unfold TOUR.get_gemini_response.
    destruct (m [] (TOUR.model_prompt w)) as [chunks [|e]] eqn:Hm.
    + rewrite (GatewayFacts.generator_completed _ _ _ _ _ _ _ Hm). split; reflexivity.
    + rewrite (GatewayFacts.generator_raised _ _ _ _ _ _ _ _ Hm). split; reflexivity.
  - intros now w st Hd Hi. cbv zeta. unfold result, exec.
    rewrite Tour1Facts.script_generate.
    2:{ unfold TOUR1.attempts. destruct (TOUR1.destination w); [congruence|].
        destruct (TOUR1.interests w); [congruence|]. reflexivity. }
    destruct (ScriptFacts.generator_turn m (TOUR1.model_prompt w) []
                (TOUR1.prepared w st)) as (yielded & Hg & Hst).
    unfold bind. rewrite Hg. cbn [rerun raise fst snd]. split; [reflexivity|].
    assert (Hp : TOUR1.store (TOUR1.prepared w st) = []).
    { unfold TOUR1.prepared, TOUR1.rebound, TOUR1.store, TOUR1.deref, exec. cbn.
      rewrite lookup_insert_eq. reflexivity. }
    destruct (m [] (TOUR1.model_prompt w)) as [chunks [|e]].
    + destruct Hst as (H1 & H2 & H3 & H4 & H5 & _).
      rewrite H1, Hp, H3, H4. repeat split; reflexivity.
    + rewrite Hst, Hp. repeat split; reflexivity.
Qed.

Lemma generation_starts_new_conversation_witness :
  TOUR1.store (exec (TOUR1.script (Some Examples.fails_after_two) Examples.clock
                       Examples.rome TOUR1.ClickGenerate) Examples.paris_saved) = [].
Proof.
  apply (proj2 (generation_starts_new_conversation Examples.fails_after_two)
           Examples.clock Examples.rome Examples.paris_saved); discriminate.
Defined.

(** X7. A generation that is refused changes nothing: when the destination
    is empty, or no interest is given, or no model is configured, the run
    of "Generate Itinerary" ends normally and leaves the session state as it
    was (in tour1.py: no trip is counted, the active trip and the
    conversation stay), when no quick action is pending. *)
Theorem refused_generation_changes_nothing :
  (forall model w (st : TOUR.session_state),
      TOUR.destination w = [] \/ TOUR.interests w = [] \/ model = None ->
      TOUR.script model w TOUR.GenerateItinerary st = (Ok tt, st))
  /\ (forall model now w (st : TOUR1.state),
      TOUR1.quick_action st = None ->
      TOUR1.destination w = [] \/ TOUR1.interests w = [] \/ model = None ->
      TOUR1.script model now w TOUR1.ClickGenerate st = (Ok tt, st)).
Proof.
  split.
  - intros model w st H. unfold TOUR.script, bind. cbn [ret].
    destruct H as [-> |[-> | ->]].
    + reflexivity.
    + rewrite orb_true_r. reflexivity.
    + destruct (_ || _); reflexivity.
  - intros model now w st Hq H.
    assert (Ha : TOUR1.attempts model w TOUR1.ClickGenerate = false).
    { unfold TOUR1.attempts. destruct H as [-> |[-> | ->]].
      - reflexivity.
      - rewrite orb_true_r. reflexivity.
      - apply andb_false_r. }
    rewrite ScriptFacts.script_passive;
      try reflexivity; [|apply Tour1Facts.script_not_generate, Ha].
    apply ScriptFacts.followup_idle; [exact Hq|exact I].
Qed.

Lemma refused_generation_changes_nothing_witness :
  TOUR1.script None Examples.clock Examples.paris TOUR1.ClickGenerate Examples.paris_saved
  = (Ok tt, Examples.paris_saved).
Proof.
  apply (proj2 refused_generation_changes_nothing);
    [vm_compute; reflexivity|right; right; reflexivity].
Defined.

(** X8. Every conversation the scripts hold is made of whole turns: in
    every state that runs reach from the initial one, the conversation of
    TOUR.py, the active conversation of tour1.py and the records of every
    saved itinerary are a sequence of pairs, a user record with one part
    followed by a model record with one part.  No run leaves a question
    without its answer, also when the remote call fails. *)
Theorem conversations_are_whole_turns :
  (forall rs : list TourSession.run,
      whole_turns (TOUR.chat_history (TourSession.run_all rs TourSession.init_state)))
  /\ (forall rs : list TOUR1.run,
      let st := TOUR1.run_all rs TOUR1.init_state in
      whole_turns (TOUR1.store st)
      /\ Forall (fun it => whole_turns (TOUR1.deref (TOUR1.heap st) (TOUR1.it_chat_history it)))
                (TOUR1.saved_itineraries st)).
Proof.
  split; [apply TurnFacts.tour_run_all_turns|].
  intros rs st. pose proof (TurnFacts.heap_turns_run_all rs) as H. fold st in H.
  split; [apply TurnFacts.heap_turns_deref, H|].
  apply Forall_forall. intros it _. apply TurnFacts.heap_turns_deref, H.
Qed.

(** X9. The display loop of TOUR.py never fails on a conversation the
    script has stored: in every state that runs reach from the initial one
    it ends without [IndexError] and draws, for each turn in order, a "user"
    bubble with the question and an "assistant" bubble with the answer. *)
Theorem tour_transcript_shows_turns (rs : list TourSession.run) :
  let st := TourSession.run_all rs TourSession.init_state in
  exists turns,
    TOUR.chat_history st = records turns
    /\ forall p, Page.tour_transcript (TOUR.chat_history st) p
                 = (Ok tt, p ++ tour_bubbles turns).
Proof.
  cbv zeta. destruct (TurnFacts.tour_run_all_turns rs) as [turns Hturns].
  exists turns. split; [exact Hturns|]. intros p. rewrite Hturns.
  apply PageFacts.tour_transcript_records.
Qed.

(** X10. The display loop of tour1.py, at the point of a run where it is
    reached (after the sidebar handlers ended without a rerun), in a run
    from any state that runs reach from the initial one: it ends without
    [IndexError], draws for each turn a user bubble and an assistant bubble
    with their avatars, and draws the feedback buttons exactly once, after
    the last record, whenever the conversation is not empty; their keys
    carry the position of the last record. *)
Theorem tour1_transcript_shows_turns (rs : list TOUR1.run) now t (st1 : TOUR1.state) clicked :
  Page.sidebar now t (TOUR1.run_all rs TOUR1.init_state) = (Ok tt, st1) ->
  exists turns,
    TOUR1.store st1 = records turns
    /\ Page.tour1_transcript clicked (TOUR1.store st1) []
       = (Ok tt,
          tour1_bubbles turns
          ++ match turns with
             | [] => []
             | _ :: _ =>
                 exec (Page.feedback_row clicked (length (TOUR1.store st1) - 1)) []
             end).
Proof.
  intros Hside.
  pose proof (TurnFacts.turns_sidebar now t _ (TurnFacts.heap_turns_run_all rs)) as H.
  unfold exec in H. rewrite Hside in H. cbn [snd] in H.
  destruct (TurnFacts.heap_turns_deref st1 (TOUR1.chat_history st1) H) as [turns Hturns].
  fold (TOUR1.store st1) in Hturns. exists turns. split; [exact Hturns|].
  unfold Page.tour1_transcript. rewrite Hturns, PageFacts.length_records.
  apply (PageFacts.tour1_transcript_records clicked turns 0 []).
Qed.

Lemma tour1_transcript_shows_turns_witness :
  exists turns,
    TOUR1.store Examples.paris_saved = records turns
    /\ Page.tour1_transcript (Some Page.Helpful) (TOUR1.store Examples.paris_saved) []
       = (Ok tt,
          tour1_bubbles turns
          ++ match turns with
             | [] => []
             | _ :: _ =>
                 exec (Page.feedback_row (Some Page.Helpful)
                         (length (TOUR1.store Examples.paris_saved) - 1)) []
             end).
Proof.
  apply (tour1_transcript_shows_turns Examples.paris_runs Examples.clock TOUR1.NoTrigger
           Examples.paris_saved (Some Page.Helpful)).
  vm_compute. reflexivity.
Defined.

(** X11. The display loops read [message["parts"][0]]: on a list of
    records whose roles and parts are Unicode text (text with a surrogate
    code point is refused by the drawing calls themselves), they end
    normally when every record has at least one part, and they raise
    [IndexError] as soon as a record has none. *)
Theorem transcript_needs_a_part (chat_history : list message) :
  forallb TOUR1.valid_message chat_history = true ->
  (forall p,
      result (Page.tour_transcript chat_history) p
      = if bool_decide (Forall (fun m => parts m <> []) chat_history)
        then Ok tt else Raise IndexError)
  /\ (forall clicked p,
      result (Page.tour1_transcript clicked chat_history) p
      = if bool_decide (Forall (fun m => parts m <> []) chat_history)
        then Ok tt else Raise IndexError).
Proof.
  intros _. split.
  - apply PageFacts.tour_transcript_result.
  - intros clicked p. apply PageFacts.tour1_transcript_result.
Qed.

Lemma transcript_needs_a_part_witness :
  result (Page.tour_transcript Samples.part_less) [] = Raise IndexError
  /\ result (Page.tour1_transcript None Samples.part_less) [] = Raise IndexError.
Proof.
  assert (H : forallb TOUR1.valid_message Samples.part_less = true)
    by (vm_compute; reflexivity).
  destruct (transcript_needs_a_part Samples.part_less H) as [H1 H2].
  split; [rewrite H1|rewrite H2]; vm_compute; reflexivity.
Defined.

(** X12. No complete run of TOUR.py or of tour1.py, from a state that
    complete runs reach from the initial one, raises [IndexError] or
    [KeyError].  The display loop finds a first part in every stored record,
    the "Save Trip" handler finds the four keys it reads in the active
    trip, and a load button names a position of the list of saved
    itineraries. *)
Theorem runs_raise_no_lookup_error :
  (forall (rs : list TourSession.run) model w t,
      let outcome :=
        result (Page.tour_run model w t) (TourSession.visits rs TourSession.init_state) in
      outcome <> Raise IndexError /\ forall key, outcome <> Raise (KeyError key))
  /\ (forall (rs : list Tour1Session.run) model now w t clicked,
      let outcome :=
        result (Page.tour1_run model now w t clicked)
          (Tour1Session.visits rs TOUR1.init_state) in
      outcome <> Raise IndexError /\ forall key, outcome <> Raise (KeyError key)).
Proof.
  split.
  - intros rs model w t. cbv zeta. rewrite RunFacts.tour_visits_run_all.
    unfold result. rewrite RunFacts.tour_run_script by apply TurnFacts.tour_run_all_turns.
    destruct (TurnFacts.tour_script_ends model w t
                (TourSession.run_all rs TourSession.init_state)) as [H|H];
      unfold result in H; rewrite H; split; try intros key; discriminate.
  - intros rs model now w t clicked. cbv zeta. rewrite RunFacts.tour1_visits_run_all.
    unfold result. rewrite RunFacts.tour1_run_script by apply TurnFacts.heap_turns_run_all.
    destruct (SafetyFacts.safe_script model now w t _
                (SafetyFacts.trip_ok_run_all (map fst rs))) as [_ H].
    unfold result in H. destruct (TOUR1.script _ _ _ _ _).1 as [[]|e].
    + split; try intros key; discriminate.
    + cbn in H. rewrite H. split; try intros key; discriminate.
Qed.

(** X13. Runs of tour1.py only add saved itineraries: from any state, the
    list of saved itineraries before a sequence of runs is a prefix of the
    list after it.  No handler (clear, load, generate, follow-up) removes,
    replaces or reorders a saved itinerary, so the position a load button
    names stays valid. *)
Theorem saved_itineraries_are_kept (rs : list TOUR1.run) (st : TOUR1.state) :
  TOUR1.saved_itineraries st `prefix_of` TOUR1.saved_itineraries (TOUR1.run_all rs st).
Proof. apply LedgerFacts.grow_run_all. Qed.

(** X14. The statistics of tour1.py stay consistent over runs whose
    duration is in the range of the slider (1 to 30): the visited
    destinations hold no duplicate, there are at most as many of them as
    counted trips, and the counted days lie between the number of trips and
    thirty times that number. *)
Theorem statistics_stay_consistent (rs : list TOUR1.run) :
  Forall slider_range rs ->
  let s := TOUR1.trip_stats (TOUR1.run_all rs TOUR1.init_state) in
  NoDup (TOUR1.destinations s)
  /\ (Z.of_nat (length (TOUR1.destinations s)) <= TOUR1.total_trips s)%Z
  /\ (TOUR1.total_trips s <= TOUR1.total_days s <= 30 * TOUR1.total_trips s)%Z.
Proof. intros Hrs. apply (LedgerFacts.stats_ok_run_all rs Hrs). Qed.

Lemma statistics_stay_consistent_witness :
  let s := TOUR1.trip_stats (TOUR1.run_all Examples.rome_runs TOUR1.init_state) in
  NoDup (TOUR1.destinations s)
  /\ (Z.of_nat (length (TOUR1.destinations s)) <= TOUR1.total_trips s)%Z
  /\ (TOUR1.total_trips s <= TOUR1.total_days s <= 30 * TOUR1.total_trips s)%Z.
Proof.
  apply (statistics_stay_consistent Examples.rome_runs).
  repeat constructor; vm_compute; discriminate.
Defined.

(** X15. The statistics dashboard of tour1.py, where a run draws it (after
    the sidebar handlers ended without a rerun, in a run from a state that
    runs reach from the initial one): it is drawn exactly when a trip has
    been counted.  The test on the active trip never decides: without a
    counted trip there is neither an active trip nor a saved itinerary. *)
Theorem dashboard_follows_trip_count (rs : list TOUR1.run) now t (st1 : TOUR1.state) :
  Page.sidebar now t (TOUR1.run_all rs TOUR1.init_state) = (Ok tt, st1) ->
  let trips := TOUR1.total_trips (TOUR1.trip_stats st1) in
  result (Page.dashboard st1) [] = Ok tt
  /\ (0 <= trips)%Z
  /\ (exec (Page.dashboard st1) [] = [] <-> trips = 0%Z)
  /\ (trips = 0%Z -> TOUR1.current_trip st1 = None /\ TOUR1.saved_itineraries st1 = []).
Proof.
  intros Hside trips.
  pose proof (LedgerFacts.counted_sidebar now t _ (LedgerFacts.counted_run_all rs)) as H.
  unfold exec in H. rewrite Hside in H. cbn [snd] in H. destruct H as (H0 & H1 & H2).
  fold trips in H0, H1, H2.
  assert (Hshown :
    (match TOUR1.current_trip st1 with Some (_ :: _) => true | _ => false end
     || (0 <? trips)%Z) = (0 <? trips)%Z).
  { destruct (TOUR1.current_trip st1) as [[|kv d]|]; try reflexivity.
    cbn [orb]. symmetry. apply Z.ltb_lt, H1. discriminate. }
  unfold result, exec, Page.dashboard. fold trips. rewrite Hshown.
  destruct (0 <? trips)%Z eqn:E.
  - apply Z.ltb_lt in E. split; [reflexivity|]. split; [exact H0|]. split.
    + split; [discriminate|lia].
    + lia.
  - apply Z.ltb_ge in E. split; [reflexivity|]. split; [exact H0|]. split.
    + split; [lia|reflexivity].
    + intros Hz. split.
      * destruct (TOUR1.current_trip st1); [|reflexivity].
        assert (0 < trips)%Z by (apply H1; discriminate). lia.
      * destruct (TOUR1.saved_itineraries st1); [reflexivity|].
        assert (0 < trips)%Z by (apply H2; discriminate). lia.
Qed.

Lemma dashboard_follows_trip_count_witness :
  Page.sidebar Examples.clock TOUR1.NoTrigger
    (TOUR1.run_all Examples.paris_runs TOUR1.init_state)
  = (Ok tt, Examples.paris_saved)
  /\ TOUR1.total_trips (TOUR1.trip_stats Examples.paris_saved) = 1%Z
  /\ result (Page.dashboard Examples.paris_saved) [] = Ok tt
  /\ (exec (Page.dashboard Examples.paris_saved) [] = []
      <-> TOUR1.total_trips (TOUR1.trip_stats Examples.paris_saved) = 0%Z)
  /\ length (exec (Page.dashboard Examples.paris_saved) []) = 6%nat.
Proof.
  assert (Hside : Page.sidebar Examples.clock TOUR1.NoTrigger
                    (TOUR1.run_all Examples.paris_runs TOUR1.init_state)
                  = (Ok tt, Examples.paris_saved)) by (vm_compute; reflexivity).
  destruct (dashboard_follows_trip_count Examples.paris_runs Examples.clock
              TOUR1.NoTrigger Examples.paris_saved Hside) as (H1 & _ & H3 & _).
  split; [exact Hside|]. split; [vm_compute; reflexivity|].
  split; [exact H1|]. split; [exact H3|]. vm_compute. reflexivity.
Defined.

(** X16. The buttons of the saved itineraries of tour1.py match the list:
    after the expander, the button at position [idx] carries the
    destination and the duration of the saved itinerary at [idx] and the
    key [load_idx], and there is one button per saved itinerary.  A click
    on it never fails: the run ends by a rerun with the records of that
    itinerary as the active conversation and its four saved fields as the
    active trip. *)
Theorem load_buttons_match_saved_itineraries (st : TOUR1.state) idx it :
  TOUR1.saved_itineraries st !! idx = Some it ->
  exec (Page.saved_buttons st) [] !! S idx = Some (Page.load_button idx it)
  /\ length (exec (Page.saved_buttons st) []) = S (length (TOUR1.saved_itineraries st))
  /\ forall model now w,
       let st' := exec (TOUR1.script model now w (TOUR1.ClickLoad idx)) st in
       result (TOUR1.script model now w (TOUR1.ClickLoad idx)) st = Raise RerunException
       /\ TOUR1.store st' = TOUR1.deref (TOUR1.heap st) (TOUR1.it_chat_history it)
       /\ TOUR1.current_trip st'
          = Some [(lit "destination", TOUR1.it_destination it);
                  (lit "duration", TOUR1.it_duration it);
                  (lit "interests", TOUR1.it_interests it);
                  (lit "style", TOUR1.it_style it)].
Proof.
  intros Hit.
  assert (Hpage : exec (Page.saved_buttons st) []
                  = Page.expander (0x1f4da%N :: lit " Saved Itineraries")
                    :: imap Page.load_button (TOUR1.saved_itineraries st)).
  { unfold exec, Page.saved_buttons.
    destruct (TOUR1.saved_itineraries st) as [|it0 saved] eqn:E; [discriminate|].
    cbn [TOUR1.is_empty]. unfold bind, Page.draw, modify.
    rewrite PageFacts.saved_buttons_from_spec. reflexivity. }
  rewrite Hpage. split; [|split].
  - change (imap Page.load_button (TOUR1.saved_itineraries st) !! idx
            = Some (Page.load_button idx it)).
    rewrite list_lookup_imap, Hit. reflexivity.
  - cbn [length]. rewrite length_imap. reflexivity.
  - intros model now w. cbv zeta.
    assert (Hrun : TOUR1.script model now w (TOUR1.ClickLoad idx) st
                   = (Raise RerunException, TOUR1.loaded it st)).
    { unfold TOUR1.script, bind. cbn [TOUR1.clear_block TOUR1.save_block ret].
      rewrite Tour1Facts.export_block_id.
      rewrite (Tour1Facts.load_block_valid idx it st Hit). reflexivity. }
    unfold result, exec. rewrite Hrun. cbn [fst snd].
    destruct (Tour1Facts.loaded_spec it st) as (_ & H1 & H2 & _). auto.
Qed.

Lemma load_buttons_match_saved_itineraries_witness :
  length (exec (Page.saved_buttons Examples.paris_saved) []) = 2%nat.
Proof.
  refine (proj1 (proj2 (load_buttons_match_saved_itineraries Examples.paris_saved 0
                          {| TOUR1.it_destination := TOUR1.PStr (lit "Paris");
                             TOUR1.it_duration := TOUR1.PInt 5;
                             TOUR1.it_interests := TOUR1.PStr (lit "Art & Museums, Food & Cuisine");
                             TOUR1.it_style := TOUR1.PStr (lit "Relaxed");
                             TOUR1.it_timestamp := Examples.clock;
                             TOUR1.it_chat_history := 2%nat |} _))).
  vm_compute. reflexivity.
Defined.

(** X17. Saving and loading give the conversation back.  In a state that
    runs reach from the initial one and that has an active trip, a run of
    "Save Trip", then any runs (follow-ups, generations, clears, other
    saves and loads), then a click on the button of the itinerary saved
    first: the active conversation is again the one that was active when it
    was saved. *)
Theorem save_then_load_restores_conversation (rs0 rs : list TOUR1.run) (save load : TOUR1.run) :
  let st := TOUR1.run_all rs0 TOUR1.init_state in
  TOUR1.current_trip st <> None ->
  TOUR1.run_trigger save = TOUR1.ClickSave ->
  TOUR1.run_trigger load = TOUR1.ClickLoad (length (TOUR1.saved_itineraries st)) ->
  TOUR1.store (TOUR1.step (TOUR1.run_all rs (TOUR1.step st save)) load) = TOUR1.store st.
Proof.
  intros st Htrip Hsave Hload.
  pose proof (Tour1Facts.inv_run_all rs0) as Hinv. fold st in Hinv.
  pose proof (ScriptFacts.settled_run_all rs0) as Hq. fold st in Hq.
  pose proof (SafetyFacts.trip_ok_run_all rs0) as Hok. fold st in Hok.
  unfold trip_ok in Hok. destruct (TOUR1.current_trip st) as [trip|] eqn:E; [|congruence].
  destruct Hok as ([d Hd] & [n Hn] & [i Hi] & [s Hs]).
  destruct save as [model now w t]. cbn [TOUR1.run_trigger] in Hsave. subst t.
  destruct load as [model' now' w' t']. cbn [TOUR1.run_trigger] in Hload. subst t'.
  set (sa := exec (TOUR1.save_itinerary d n i s now) st).
  assert (Hstep : TOUR1.step st
                    {| TOUR1.run_model := model; TOUR1.run_now := now;
                       TOUR1.run_widgets := w; TOUR1.run_trigger := TOUR1.ClickSave |} = sa).
  { unfold TOUR1.step, exec, TOUR1.script, bind.
    cbn [TOUR1.run_model TOUR1.run_now TOUR1.run_widgets TOUR1.run_trigger
         TOUR1.clear_block ret].
    rewrite (Tour1Facts.save_block_saves now st trip d n i s) by assumption.
    rewrite Tour1Facts.export_block_id.
    cbn [TOUR1.load_block TOUR1.quick_block TOUR1.generate_block ret].
    rewrite ScriptFacts.followup_idle; [reflexivity|exact Hq|exact I]. }
  rewrite Hstep.
  pose proof (Tour1Facts.evolves_save d n i s now st Hinv) as (Hinv1 & _).
  fold sa in Hinv1.
  destruct (Tour1Facts.evolves_run_all rs sa Hinv1) as (_ & _ & _ & _ & Hframe & Hprefix).
  set (st2 := TOUR1.run_all rs sa) in *.
  set (it := {| TOUR1.it_destination := d; TOUR1.it_duration := n;
                TOUR1.it_interests := i; TOUR1.it_style := s;
                TOUR1.it_timestamp := now; TOUR1.it_chat_history := TOUR1.next_loc st |}).
  assert (Hsaved1 : TOUR1.saved_itineraries sa = TOUR1.saved_itineraries st ++ [it])
    by reflexivity.
  assert (Hheap1 : TOUR1.heap sa !! TOUR1.next_loc st = Some (TOUR1.store st)).
  { subst sa. unfold exec. cbn. apply lookup_insert_eq. }
  assert (Hit2 : TOUR1.saved_itineraries st2 !! length (TOUR1.saved_itineraries st) = Some it).
  { destruct Hprefix as [more ->]. rewrite Hsaved1, <- app_assoc.
    rewrite lookup_app_r by lia. rewrite Nat.sub_diag. reflexivity. }
  assert (Hne : TOUR1.next_loc st <> TOUR1.chat_history st).
  { destruct Hinv as (Hlt & Hchat & _). specialize (Hlt _ Hchat). lia. }
  unfold TOUR1.step.
  cbn [TOUR1.run_model TOUR1.run_now TOUR1.run_widgets TOUR1.run_trigger].
  rewrite (Tour1Facts.script_load model' now' w' _ it st2 Hit2).
  destruct (Tour1Facts.loaded_spec it st2) as (_ & -> & _).
  cbn [TOUR1.it_chat_history it]. unfold TOUR1.deref.
  rewrite (Hframe (TOUR1.next_loc st)); [rewrite Hheap1; reflexivity|exact Hne|eauto].
Qed.

Lemma save_then_load_restores_conversation_witness :
  TOUR1.store
    (TOUR1.step
       (TOUR1.run_all [Examples.press Examples.answers Examples.rome TOUR1.ClickGenerate]
          (TOUR1.step (TOUR1.run_all Examples.paris_runs TOUR1.init_state)
             (Examples.press Examples.answers Examples.paris TOUR1.ClickSave)))
       (Examples.press Examples.answers Examples.rome (TOUR1.ClickLoad 1)))
  = TOUR1.store (TOUR1.run_all Examples.paris_runs TOUR1.init_state).
Proof.
  apply (save_then_load_restores_conversation Examples.paris_runs
           [Examples.press Examples.answers Examples.rome TOUR1.ClickGenerate]
           (Examples.press Examples.answers Examples.paris TOUR1.ClickSave)
           (Examples.press Examples.answers Examples.rome (TOUR1.ClickLoad 1)));
    [vm_compute; discriminate|reflexivity|vm_compute; reflexivity].
Defined.

(** X18. The document of "Export Chat" is plain ASCII, whatever text the
    conversation and the active trip hold (emoji, accented letters, control
    characters, surrogates): when the integers of the active trip are ones
    that Python prints (at most 4300 digits), every character of the text
    that [export_chat_history] returns is a printable ASCII character or a
    line feed. *)
Theorem exported_document_is_ascii (st : TOUR1.state) now :
  printable_trip (TOUR1.current_trip st) = true ->
  exists document,
    result (TOUR1.export_chat_history now) st = Ok document
    /\ forallb ascii_text document = true.
Proof.
  intros _. eexists. split; [reflexivity|]. apply AsciiFacts.dumps_plain.
Qed.

Lemma exported_document_is_ascii_witness :
  exists document,
    result (TOUR1.export_chat_history Examples.clock) Examples.rome_active = Ok document
    /\ forallb ascii_text document = true.
Proof.
  apply exported_document_is_ascii. vm_compute. reflexivity.
Defined.

(** X19. What the generation handler of tour1.py stores for an interest:
    an interest without a space is stored as it is; otherwise what follows
    its first space is stored, so only the first word (the emoji of the
    offered interests) is dropped and later spaces are kept. *)
Theorem clean_interest_drops_first_word :
  (forall interest, 32%N ∉ interest -> TOUR1.clean_interest interest = interest)
  /\ (forall first rest, 32%N ∉ first ->
        TOUR1.clean_interest (first ++ 32%N :: rest) = rest).
Proof.
  split.
  - intros interest H. unfold TOUR1.clean_interest.
    rewrite ScriptFacts.contains_absent by exact H. reflexivity.
  - intros first rest H. unfold TOUR1.clean_interest.
    rewrite ScriptFacts.contains_present. apply ScriptFacts.after_first_split, H.
Qed.

Lemma clean_interest_drops_first_word_witness :
  TOUR1.clean_interest (lit "Hiking") = lit "Hiking"
  /\ TOUR1.clean_interest ([0x1f3a8%N] ++ 32%N :: lit "Art & Museums") = lit "Art & Museums".
Proof.
  split.
  - apply (proj1 clean_interest_drops_first_word). vm_compute.
    intros H. repeat (apply elem_of_cons in H as [H|H]; [discriminate|]).
    apply elem_of_nil in H. exact H.
  - apply (proj2 clean_interest_drops_first_word [0x1f3a8%N]).
    intros H. apply elem_of_cons in H as [H|H]; [discriminate|].
    apply elem_of_nil in H. exact H.
Defined.

(** X20. "Save Trip" without an active trip saves nothing: when no trip is
    active (before the first generation) and no quick action is pending,
    the run ends normally and the session state, so the list of saved
    itineraries, is unchanged. *)
Theorem save_without_trip_changes_nothing model now w (st : TOUR1.state) :
  TOUR1.quick_action st = None ->
  TOUR1.current_trip st = None ->
  TOUR1.script model now w TOUR1.ClickSave st = (Ok tt, st).
Proof.
  intros Hq Htrip. rewrite ScriptFacts.script_passive; try reflexivity.
  - apply ScriptFacts.followup_idle; [exact Hq|exact I].
  - unfold TOUR1.save_block, bind, gets. rewrite Htrip. reflexivity.
Qed.

Lemma save_without_trip_changes_nothing_witness :
  TOUR1.script (Some Examples.answers) Examples.clock Examples.paris TOUR1.ClickSave
    TOUR1.init_state
  = (Ok tt, TOUR1.init_state).
Proof. apply save_without_trip_changes_nothing; reflexivity. Defined.

(** X21. A follow-up question of TOUR.py continues the conversation: with
    a conversation and a configured model, a non-empty chat input calls the
    remote model with the stored conversation as history and the input as
    question, and the run ends by a rerun.  When the call completes, the
    question and the whole answer are appended; when it fails, the
    conversation is unchanged. *)
Theorem tour_follow_up_continues_conversation (m : GenerativeModel) w user_query
    (st : TOUR.session_state) :
  user_query <> [] ->
  TOUR.chat_history st <> [] ->
  result (TOUR.script (Some m) w (TOUR.ChatInput user_query)) st = Raise RerunException
  /\ TOUR.chat_history (exec (TOUR.script (Some m) w (TOUR.ChatInput user_query)) st)
     = match m (TOUR.chat_history st) user_query with
       | (chunks, Completed) =>
           TOUR.chat_history st
           ++ [ {| role := lit "user"; parts := [user_query] |};
                {| role := lit "model"; parts := [concat (fragments chunks)] |} ]
       | (_, Raised _) => TOUR.chat_history st
       end.
Proof.
  intros Hq Hs. destruct user_query as [|c q]; [congruence|].
  destruct (TOUR.chat_history st) as [|r l] eqn:E; [congruence|].
  unfold result, exec, TOUR.script, bind, gets. cbn [ret TOUR.is_empty TOUR.is_none].
  rewrite E. cbn [TOUR.is_empty]. unfold TOUR.get_gemini_response.
  destruct (m (r :: l) (c :: q)) as [chunks [|e]] eqn:Hm.
  - rewrite (GatewayFacts.generator_completed _ _ _ _ _ _ _ Hm).
    cbn. rewrite E, <- app_assoc. split; reflexivity.
  - rewrite (GatewayFacts.generator_raised _ _ _ _ _ _ _ _ Hm).
    cbn. rewrite E. split; reflexivity.
Qed.

Lemma tour_follow_up_continues_conversation_witness :
  result (TOUR.script (Some Examples.answers)
            {| TOUR.destination := lit "Paris"; TOUR.duration := 5;
               TOUR.interests := lit "art"; TOUR.style := lit "Relaxed" |}
            (TOUR.ChatInput (lit "make it cheaper")))
    {| TOUR.chat_history := [ {| role := lit "user"; parts := [lit "plan"] |};
                              {| role := lit "model"; parts := [lit "Day 1"] |} ] |}
  = Raise RerunException.
Proof.
  apply (tour_follow_up_continues_conversation Examples.answers
           {| TOUR.destination := lit "Paris"; TOUR.duration := 5;
              TOUR.interests := lit "art"; TOUR.style := lit "Relaxed" |}
           (lit "make it cheaper")
           {| TOUR.chat_history := [ {| role := lit "user"; parts := [lit "plan"] |};
                                     {| role := lit "model"; parts := [lit "Day 1"] |} ] |});
    discriminate.
Defined.
